(** * Vision-Forge: the evaluation engine and the inference store

    A shallow embedding of [apps/api/evaluation/evaluator.py] and of the
    [InferenceStore] class of [apps/api/main.py], with the properties the
    specification states about them.

    Conventions of the embedding.
    - Python floats are modelled as exact rationals ([Q]); numeric
      equality ([==] in Python) is [Qeq].  NaN and infinities are not
      modelled.
    - A [dict] is an association list in insertion order with unique keys.
    - The iteration order of a Python [set] of strings is not fixed by the
      language: it is a parameter [set_iter] of the pipeline.
    - A box is [[x1, y1, x2, y2]]; it is modelled as a record of its four
      coordinates. *)

From Stdlib Require Import List ZArith QArith Qminmax Qround String Ascii Bool.
From Stdlib Require Import Lia Lqa ListSet Permutation Sorted.
Import ListNotations.

Open Scope Q_scope.

(* ================================================================== *)
(** * Python run-time helpers *)
(* ================================================================== *)

Module Py.

(** [x < y] on floats. *)
Definition Qlt_bool (x y : Q) : bool := negb (Qle_bool y x).

(** Truthiness of an integer. *)
Definition truthy (z : Z) : bool := negb (z =? 0)%Z.

(** [sum(...)] over integers. *)
Definition sum_Z (l : list Z) : Z := fold_left Z.add l 0%Z.

(** [np.sum] / [sum] over floats. *)
Definition sum_Q (l : list Q) : Q := fold_left Qplus l 0.

(** [np.mean] of a non-empty list. *)
Definition mean (l : list Q) : Q :=
  sum_Q l / inject_Z (Z.of_nat (List.length l)).

(** [enumerate(l)]. *)
Definition enumerate {A : Type} (l : list A) : list (nat * A) :=
  combine (seq 0 (List.length l)) l.

(** [range(0, n, step)] and the indices of [l[::step]], for [step >= 1]. *)
Definition range_step (n step : nat) : list nat :=
  filter (fun i => (i mod step =? 0)%nat) (seq 0 n).

(** [l[::step]]. *)
Definition slice_step {A : Type} (l : list A) (step : nat) : list A :=
  map snd (filter (fun e => (fst e mod step =? 0)%nat) (enumerate l)).

(** [str.lower()], on ASCII letters. *)
Definition lower_ascii (c : ascii) : ascii :=
  let n := nat_of_ascii c in
  if ((65 <=? n) && (n <=? 90))%nat then ascii_of_nat (n + 32) else c.

Fixpoint lower (s : string) : string :=
  match s with
  | EmptyString => EmptyString
  | String c t => String (lower_ascii c) (lower t)
  end.

(** [round(x)] to the nearest integer, ties to even. *)
Definition round_half_even (q : Q) : Z :=
  let f := Qfloor q in
  match Qcompare (q - inject_Z f) (1 # 2) with
  | Lt => f
  | Gt => (f + 1)%Z
  | Eq => if Z.even f then f else (f + 1)%Z
  end.

(** [round(x, ndigits)]. *)
Definition round (q : Q) (ndigits : nat) : Q :=
  let scale := inject_Z (10 ^ Z.of_nat ndigits) in
  inject_Z (round_half_even (q * scale)) / scale.

(** ** Stable sorting

    [list.sort(key=..., reverse=True)] is stable: elements with equal keys
    keep their original relative order, also under [reverse=True]. *)

Section Sort.
Context {A : Type}.
Variable key : A -> Q.

(** Insert [a] into a list sorted by decreasing key, in front of the
    first element whose key is not greater than the key of [a]. *)
Fixpoint insert_desc (a : A) (l : list A) : list A :=
  match l with
  | [] => [a]
  | b :: t => if Qlt_bool (key a) (key b) then b :: insert_desc a t
              else a :: b :: t
  end.

(** [l.sort(key=key, reverse=True)]. *)
Definition sort_desc (l : list A) : list A := fold_right insert_desc [] l.

(** Insert [a] into a list sorted by increasing key, in front of the
    first element whose key is not smaller than the key of [a]. *)
Fixpoint insert_asc (a : A) (l : list A) : list A :=
  match l with
  | [] => [a]
  | b :: t => if Qlt_bool (key b) (key a) then b :: insert_asc a t
              else a :: b :: t
  end.

(** [l.sort(key=key)]. *)
Definition sort_asc (l : list A) : list A := fold_right insert_asc [] l.
End Sort.

(** ** Dictionaries *)

Section Dict.
Context {K V : Type}.
Variable keq : K -> K -> bool.

(** [d.get(k)]. *)
Fixpoint dict_get (k : K) (d : list (K * V)) : option V :=
  match d with
  | [] => None
  | (k', v) :: t => if keq k' k then Some v else dict_get k t
  end.

(** [d.get(k, dflt)]. *)
Definition dict_get_default (k : K) (d : list (K * V)) (dflt : V) : V :=
  match dict_get k d with Some v => v | None => dflt end.

(** [d[k] = v]: an existing key keeps its position. *)
Fixpoint dict_set (k : K) (v : V) (d : list (K * V)) : list (K * V) :=
  match d with
  | [] => [(k, v)]
  | (k', v') :: t => if keq k' k then (k', v) :: t
                     else (k', v') :: dict_set k v t
  end.

(** [d.pop(k, None)], the returned value dropped. *)
Fixpoint dict_pop (k : K) (d : list (K * V)) : list (K * V) :=
  match d with
  | [] => []
  | (k', v') :: t => if keq k' k then t else (k', v') :: dict_pop k t
  end.

(** [d.keys()] and [d.values()]. *)
Definition dict_keys (d : list (K * V)) : list K := map fst d.
Definition dict_values (d : list (K * V)) : list V := map snd d.
End Dict.

(** Dictionaries keyed by strings and by floats. *)
Definition sdict (V : Type) : Type := list (string * V).
Definition qdict (V : Type) : Type := list (Q * V).

End Py.

(* ================================================================== *)
(** * evaluation/evaluator.py *)
(* ================================================================== *)

Module Evaluator.
Import Py.

Record BBox := mkBBox { bx1 : Q; by1 : Q; bx2 : Q; by2 : Q }.

(** A prediction: [{class_name, confidence, bbox}]. *)
Record Detection := mkDetection {
  class_name : string;
  confidence : Q;
  bbox : BBox
}.

(** A ground truth: [{class_name, bbox, difficult}]; the key [difficult]
    may be missing, and is read with [gt.get("difficult", 0)]. *)
Record GroundTruth := mkGroundTruth {
  gt_class_name : string;
  gt_bbox : BBox;
  difficult : option Z
}.

(** [gt.get("difficult", 0)] as a condition. *)
Definition is_difficult (gt : GroundTruth) : bool :=
  truthy (match difficult gt with Some d => d | None => 0%Z end).

(** ** compute_iou *)

Definition compute_iou (box_a box_b : BBox) : Q :=
  let x1 := Qmax (bx1 box_a) (bx1 box_b) in
  let y1 := Qmax (by1 box_a) (by1 box_b) in
  let x2 := Qmin (bx2 box_a) (bx2 box_b) in
  let y2 := Qmin (by2 box_a) (by2 box_b) in
  let intersection := Qmax 0 (x2 - x1) * Qmax 0 (y2 - y1) in
  if Qeq_bool intersection 0 then 0
  else
    let area_a := (bx2 box_a - bx1 box_a) * (by2 box_a - by1 box_a) in
    let area_b := (bx2 box_b - bx1 box_b) * (by2 box_b - by1 box_b) in
    let union := area_a + area_b - intersection in
    if Qlt_bool 0 union then intersection / union else 0.

(** ** match_predictions_to_gt *)

(** The state of the loop over the predictions. *)
Record MatchState := mkMatchState {
  matched_gt : set nat;
  tp_flags : list bool
}.

Definition match_init : MatchState :=
  {| matched_gt := empty_set nat; tp_flags := [] |}.

(** [n_gt = sum(1 for gt in ground_truths if not gt.get("difficult", 0))]. *)
Definition count_n_gt (ground_truths : list GroundTruth) : Z :=
  sum_Z (map (fun _ => 1%Z)
             (filter (fun gt => negb (is_difficult gt)) ground_truths)).

(** One iteration of the inner loop over [enumerate(ground_truths)]; the
    accumulator is [(best_iou, best_gt_idx)]. *)
Definition scan_step (pred : Detection) (matched : set nat)
    (acc : Q * Z) (e : nat * GroundTruth) : Q * Z :=
  let '(best_iou, best_gt_idx) := acc in
  let '(gt_idx, gt) := e in
  if set_mem Nat.eq_dec gt_idx matched then acc
  else
    let iou := compute_iou (bbox pred) (gt_bbox gt) in
    if Qlt_bool best_iou iou then (iou, Z.of_nat gt_idx) else acc.

(** The inner loop: [(best_iou, best_gt_idx)] for one prediction. *)
Definition best_match (pred : Detection) (ground_truths : list GroundTruth)
    (matched : set nat) : Q * Z :=
  fold_left (scan_step pred matched) (enumerate ground_truths) (0, (-1)%Z).

(** One iteration of the loop over the predictions.  The index
    [best_gt_idx] is always in range when the test succeeds, so the
    [None] branch is never taken. *)
Definition match_step (ground_truths : list GroundTruth) (iou_threshold : Q)
    (st : MatchState) (pred : Detection) : MatchState :=
  let '(best_iou, best_gt_idx) :=
    best_match pred ground_truths (matched_gt st) in
  if Qle_bool iou_threshold best_iou && (0 <=? best_gt_idx)%Z then
    match nth_error ground_truths (Z.to_nat best_gt_idx) with
    | Some gt =>
        if is_difficult gt then st (* continue *)
        else {| matched_gt :=
                  set_add Nat.eq_dec (Z.to_nat best_gt_idx) (matched_gt st);
                tp_flags := tp_flags st ++ [true] |}
    | None => st
    end
  else {| matched_gt := matched_gt st; tp_flags := tp_flags st ++ [false] |}.

Definition match_loop (ground_truths : list GroundTruth) (iou_threshold : Q)
    (predictions : list Detection) (st : MatchState) : MatchState :=
  fold_left (match_step ground_truths iou_threshold) predictions st.

Definition match_predictions_to_gt (predictions : list Detection)
    (ground_truths : list GroundTruth) (iou_threshold : Q)
    : list bool * Z :=
  let n_gt := count_n_gt ground_truths in
  let st := match_loop ground_truths iou_threshold predictions match_init in
  (tp_flags st, n_gt).

(** The ground truth a prediction is matched to in a given loop state: the
    index [best_gt_idx] when the test of the loop body succeeds. *)
Definition matched_to (ground_truths : list GroundTruth) (iou_threshold : Q)
    (st : MatchState) (pred : Detection) : option nat :=
  let '(best_iou, best_gt_idx) :=
    best_match pred ground_truths (matched_gt st) in
  if Qle_bool iou_threshold best_iou && (0 <=? best_gt_idx)%Z
  then Some (Z.to_nat best_gt_idx) else None.

(** ** compute_ap *)

(** The backward sweep [precisions[i] = max(precisions[i], precisions[i+1])]
    for [i] from [len - 2] down to [0]. *)
Fixpoint envelope (precisions : list Q) : list Q :=
  match precisions with
  | [] => []
  | p :: rest =>
      match envelope rest with
      | [] => [p]
      | (q :: _) as rest' => Qmax p q :: rest'
      end
  end.

(** [np.where(recalls[1:] != recalls[:-1])[0]]. *)
Definition recall_changes (recalls : list Q) : list nat :=
  filter (fun i => negb (Qeq_bool (nth (i + 1) recalls 0) (nth i recalls 0)))
         (seq 0 (List.length recalls - 1)).

Definition compute_ap (precisions recalls : list Q) : Q :=
  let precisions := [0] ++ precisions ++ [0] in
  let recalls := [0] ++ recalls ++ [1] in
  let precisions := envelope precisions in
  sum_Q (map (fun i => (nth (i + 1) recalls 0 - nth i recalls 0)
                       * nth (i + 1) precisions 0)
             (recall_changes recalls)).

(** ** evaluate_detections *)

(** A point of a PR curve: [{precision, recall, confidence}]. *)
Record CurvePoint := mkCurvePoint {
  cp_precision : Q;
  cp_recall : Q;
  cp_confidence : Q
}.

(** An entry of [results_by_threshold]. *)
Record ThresholdResult := mkThresholdResult {
  thr_mAP : Q;
  thr_per_class_ap : sdict Q;
  thr_pr_curves : sdict (list CurvePoint)
}.

(** The dictionary [evaluate_detections] returns. *)
Record EvaluationResult := mkEvaluationResult {
  mAP_50 : Q;
  mAP_50_95 : Q;
  aggregate_precision : Q;
  aggregate_recall : Q;
  per_class_ap : sdict Q;
  pr_curves : sdict (list CurvePoint);
  total_predictions : Z;
  total_ground_truths : Z;
  iou_thresholds_used : list Q
}.

(** [np.finfo(np.float64).eps], that is [2 ** -52]. *)
Definition eps : Q := 1 # 4503599627370496.

(** [a.lower() == b.lower()]. *)
Definition same_class (a b : string) : bool := String.eqb (lower a) (lower b).

(** Never read: the indices of [tp_flags] are indices of [img_preds]. *)
Definition default_detection : Detection :=
  mkDetection EmptyString 0 (mkBBox 0 0 0 0).

(** [tp_cumsum[i] = (tp_cumsum[i - 1] if i > 0 else 0) + x[i]]. *)
Fixpoint cumsum_from (prev : Q) (l : list Q) : list Q :=
  match l with
  | [] => []
  | x :: t => let c := prev + x in c :: cumsum_from c t
  end.

Definition tp_cumsum_of (class_preds : list (Q * bool)) : list Q :=
  cumsum_from 0 (map (fun e : Q * bool => if snd e then 1 else 0) class_preds).

Definition fp_cumsum_of (class_preds : list (Q * bool)) : list Q :=
  cumsum_from 0 (map (fun e : Q * bool => if snd e then 0 else 1) class_preds).

(** [tp_cumsum / np.maximum(tp_cumsum + fp_cumsum, eps)]. *)
Definition precisions_of (class_preds : list (Q * bool)) : list Q :=
  map (fun e => fst e / Qmax (fst e + snd e) eps)
      (combine (tp_cumsum_of class_preds) (fp_cumsum_of class_preds)).

(** [tp_cumsum / total_gt]. *)
Definition recalls_of (class_preds : list (Q * bool)) (total_gt : Z) : list Q :=
  map (fun tp => tp / inject_Z total_gt) (tp_cumsum_of class_preds).

(** The subsampled PR curve of one class. *)
Definition curve_points_of (class_preds : list (Q * bool))
    (precisions recalls : list Q) : list CurvePoint :=
  let n := List.length precisions in
  let step := Nat.max 1 (n / 50) in
  map (fun i => mkCurvePoint (nth i precisions 0) (nth i recalls 0)
                             (fst (nth i class_preds (0, false))))
      (range_step n step)
  ++ (if (0 <? n)%nat
      then [mkCurvePoint (last precisions 0) (last recalls 0)
                         (fst (last class_preds (0, false)))]
      else []).

(** [valid_aps] and [mAP] of one threshold. *)
Definition valid_aps_of (per_class : sdict Q) : list Q :=
  filter (fun ap => Qlt_bool 0 ap) (dict_values per_class).

Definition mAP_of (per_class : sdict Q) : Q :=
  match valid_aps_of per_class with
  | [] => 0
  | (_ :: _) as valid_aps => mean valid_aps
  end.

Section Pipeline.

(** The order in which [set(l)] yields its elements. *)
Variable set_iter : list string -> list string.

Variable all_predictions : sdict (list Detection).
Variable all_ground_truths : sdict (list GroundTruth).

(** [set(list(all_predictions.keys()) + list(all_ground_truths.keys()))]. *)
Definition image_ids : list string :=
  set_iter (dict_keys all_predictions ++ dict_keys all_ground_truths).

(** The predictions and ground truths of one class in one image. *)
Definition class_preds_of_image (cn image_id : string) : list Detection :=
  filter (fun p => same_class (class_name p) cn)
         (dict_get_default String.eqb image_id all_predictions []).

Definition class_gts_of_image (cn image_id : string) : list GroundTruth :=
  filter (fun g => same_class (gt_class_name g) cn)
         (dict_get_default String.eqb image_id all_ground_truths []).

(** The body of the loop over the image ids of one class: the
    accumulator is [(class_preds, total_gt)]. *)
Definition gather_image (iou_thresh : Q) (cn : string)
    (acc : list (Q * bool) * Z) (image_id : string) : list (Q * bool) * Z :=
  let '(class_preds, total_gt) := acc in
  let img_preds := sort_desc confidence (class_preds_of_image cn image_id) in
  let img_gts := class_gts_of_image cn image_id in
  let '(flags, n_gt) := match_predictions_to_gt img_preds img_gts iou_thresh in
  (class_preds
     ++ map (fun e => (confidence (nth (fst e) img_preds default_detection),
                       snd e))
            (enumerate flags),
   (total_gt + n_gt)%Z).

Definition gather_class (iou_thresh : Q) (cn : string)
    : list (Q * bool) * Z :=
  fold_left (gather_image iou_thresh cn) image_ids ([], 0%Z).

(** The pooled ranking of one class: [class_preds] after the global
    sort. *)
Definition pooled_ranking (iou_thresh : Q) (cn : string) : list (Q * bool) :=
  sort_desc fst (fst (gather_class iou_thresh cn)).

(** The body of the loop over the class names: the accumulator is
    [(per_class_ap, pr_curves)]. *)
Definition eval_class (iou_thresh : Q)
    (acc : sdict Q * sdict (list CurvePoint)) (cn : string)
    : sdict Q * sdict (list CurvePoint) :=
  let '(per_class, curves) := acc in
  let total_gt := snd (gather_class iou_thresh cn) in
  if (total_gt =? 0)%Z then
    (dict_set String.eqb cn 0 per_class, dict_set String.eqb cn [] curves)
  else
    let class_preds := pooled_ranking iou_thresh cn in
    let precisions := precisions_of class_preds in
    let recalls := recalls_of class_preds total_gt in
    let ap := compute_ap precisions recalls in
    (dict_set String.eqb cn ap per_class,
     dict_set String.eqb cn (curve_points_of class_preds precisions recalls)
              curves).

(** The body of the loop over the thresholds. *)
Definition eval_threshold (class_names : list string) (iou_thresh : Q)
    : ThresholdResult :=
  let '(per_class, curves) :=
    fold_left (eval_class iou_thresh) class_names ([], []) in
  {| thr_mAP := mAP_of per_class;
     thr_per_class_ap := per_class;
     thr_pr_curves := curves |}.

Definition results_by_threshold (class_names : list string)
    (iou_thresholds : list Q) : qdict ThresholdResult :=
  fold_left (fun rbt iou_thresh =>
               dict_set Qeq_bool iou_thresh
                        (eval_threshold class_names iou_thresh) rbt)
            iou_thresholds [].

(** The aggregate loop: the accumulator is
    [(total_gt_all, total_tp, total_fp)].  The predictions of an image
    are not sorted here. *)
Definition aggregate_image (cn : string) (acc : Z * Z * Z)
    (image_id : string) : Z * Z * Z :=
  let '(total_gt_all, total_tp, total_fp) := acc in
  let img_preds := class_preds_of_image cn image_id in
  let img_gts := class_gts_of_image cn image_id in
  let '(tp_f, n_g) := match_predictions_to_gt img_preds img_gts (1 # 2) in
  ((total_gt_all + n_g)%Z,
   (total_tp + sum_Z (map (fun _ => 1%Z) (filter (fun f => f) tp_f)))%Z,
   (total_fp + sum_Z (map (fun _ => 1%Z) (filter negb tp_f)))%Z).

Definition aggregate_counts (class_names : list string) : Z * Z * Z :=
  fold_left (fun acc cn => fold_left (aggregate_image cn) image_ids acc)
            class_names (0%Z, 0%Z, 0%Z).

Definition evaluate_detections (class_names : list string)
    (iou_thresholds : option (list Q)) : EvaluationResult :=
  let iou_thresholds :=
    match iou_thresholds with None => [1 # 2] | Some l => l end in
  let rbt := results_by_threshold class_names iou_thresholds in
  let r50 := dict_get Qeq_bool (1 # 2) rbt in
  let mAP_50 := match r50 with Some r => thr_mAP r | None => 0 end in
  let '(total_gt_all, total_tp, total_fp) := aggregate_counts class_names in
  let agg_precision :=
    inject_Z total_tp / inject_Z (Z.max 1 (total_tp + total_fp)) in
  let agg_recall := inject_Z total_tp / inject_Z (Z.max 1 total_gt_all) in
  let mAP_50_95 :=
    if (1 <? List.length iou_thresholds)%nat
    then mean (map thr_mAP (dict_values rbt))
    else mAP_50 in
  let total_preds :=
    sum_Z (map (fun v => Z.of_nat (List.length v))
               (dict_values all_predictions)) in
  let total_gts := sum_Z (map count_n_gt (dict_values all_ground_truths)) in
  {| mAP_50 := mAP_50;
     mAP_50_95 := mAP_50_95;
     aggregate_precision := round agg_precision 4;
     aggregate_recall := round agg_recall 4;
     per_class_ap :=
       match r50 with Some r => thr_per_class_ap r | None => [] end;
     pr_curves := match r50 with Some r => thr_pr_curves r | None => [] end;
     total_predictions := total_preds;
     total_ground_truths := total_gts;
     iou_thresholds_used := iou_thresholds |}.

End Pipeline.

End Evaluator.

(* ================================================================== *)
(** * main.py: InferenceStore *)
(* ================================================================== *)

Module Store.
Import Py Evaluator.

(** A detection as the detector returns it: [{class, confidence, bbox}]. *)
Record RawDetection := mkRawDetection {
  rd_class : string;
  rd_confidence : Q;
  rd_bbox : BBox
}.

(** A ground truth as the annotation source returns it; [difficult] is
    read with [g.get("difficult", 0)]. *)
Record RawGroundTruth := mkRawGroundTruth {
  rg_class : string;
  rg_bbox : BBox;
  rg_difficult : option Z
}.

(** An entry of [fps_history]: [{time, fps, latency_ms}]. *)
Record FpsEntry := mkFpsEntry {
  fps_time : Z;
  fps_value : Q;
  fps_latency_ms : Q
}.

(** The attributes of the store.  [subscribers] holds references to
    [asyncio.Queue] objects, which live in a heap of their own. *)
Record InferenceStore := mkInferenceStore {
  max_history : nat;
  latency_history : sdict (list Q);
  fps_history : sdict (list FpsEntry);
  all_predictions : sdict (sdict (list Detection));
  all_ground_truths : sdict (sdict (list GroundTruth));
  subscribers : list nat;
  inference_count : Z;
  eval_cache : sdict EvaluationResult
}.

(** [InferenceStore(max_history)]. *)
Definition new_store (max_history : nat) : InferenceStore :=
  {| max_history := max_history;
     latency_history := [("yolov5"%string, []); ("detr"%string, [])];
     fps_history := [("yolov5"%string, []); ("detr"%string, [])];
     all_predictions := [("yolov5"%string, []); ("detr"%string, [])];
     all_ground_truths := [("yolov5"%string, []); ("detr"%string, [])];
     subscribers := [];
     inference_count := 0%Z;
     eval_cache := [] |}.

Definition set_latency_history (s : InferenceStore) v : InferenceStore :=
  mkInferenceStore (max_history s) v (fps_history s) (all_predictions s)
    (all_ground_truths s) (subscribers s) (inference_count s) (eval_cache s).

Definition set_fps_history (s : InferenceStore) v : InferenceStore :=
  mkInferenceStore (max_history s) (latency_history s) v (all_predictions s)
    (all_ground_truths s) (subscribers s) (inference_count s) (eval_cache s).

Definition set_all_predictions (s : InferenceStore) v : InferenceStore :=
  mkInferenceStore (max_history s) (latency_history s) (fps_history s) v
    (all_ground_truths s) (subscribers s) (inference_count s) (eval_cache s).

Definition set_all_ground_truths (s : InferenceStore) v : InferenceStore :=
  mkInferenceStore (max_history s) (latency_history s) (fps_history s)
    (all_predictions s) v (subscribers s) (inference_count s) (eval_cache s).

Definition set_subscribers (s : InferenceStore) v : InferenceStore :=
  mkInferenceStore (max_history s) (latency_history s) (fps_history s)
    (all_predictions s) (all_ground_truths s) v (inference_count s)
    (eval_cache s).

Definition set_inference_count (s : InferenceStore) v : InferenceStore :=
  mkInferenceStore (max_history s) (latency_history s) (fps_history s)
    (all_predictions s) (all_ground_truths s) (subscribers s) v (eval_cache s).

Definition set_eval_cache (s : InferenceStore) v : InferenceStore :=
  mkInferenceStore (max_history s) (latency_history s) (fps_history s)
    (all_predictions s) (all_ground_truths s) (subscribers s)
    (inference_count s) v.

(** ** The methods as computations on the store

    A method takes the store and returns the updated store with either a
    value or the exception it raised; the writes made before an exception
    stay. *)

Inductive Exception := KeyError (key : string).

Definition M (A : Type) : Type :=
  InferenceStore -> InferenceStore * (Exception + A).

Definition ret {A : Type} (a : A) : M A := fun s => (s, inr a).

Definition bind {A B : Type} (m : M A) (k : A -> M B) : M B :=
  fun s => match m s with
           | (s', inr a) => k a s'
           | (s', inl e) => (s', inl e)
           end.

Definition read {A : Type} (f : InferenceStore -> A) : M A :=
  fun s => (s, inr (f s)).

Definition modify (f : InferenceStore -> InferenceStore) : M unit :=
  fun s => (f s, inr tt).

(** [f(self)[key]]: raises [KeyError] on a missing key. *)
Definition subscript {V : Type} (f : InferenceStore -> sdict V)
    (key : string) : M V :=
  fun s => match dict_get String.eqb key (f s) with
           | Some v => (s, inr v)
           | None => (s, inl (KeyError key))
           end.

Notation "x <- m ;; k" := (bind m (fun x => k))
  (at level 61, m at next level, right associativity).
Notation "m ;;; k" := (bind m (fun _ => k))
  (at level 61, right associativity).

(** [deque(maxlen=maxlen).append(x)]: the oldest element is evicted when
    the bound is exceeded. *)
Definition deque_append {A : Type} (maxlen : nat) (dq : list A) (x : A)
    : list A :=
  let l := dq ++ [x] in skipn (List.length l - maxlen) l.

Definition format_prediction (d : RawDetection) : Detection :=
  {| class_name := rd_class d;
     confidence := rd_confidence d;
     bbox := rd_bbox d |}.

Definition format_ground_truth (g : RawGroundTruth) : GroundTruth :=
  {| gt_class_name := rg_class g;
     gt_bbox := rg_bbox g;
     difficult :=
       Some (match rg_difficult g with Some d => d | None => 0%Z end) |}.

Definition record_inference (model image_id : string)
    (detections : list RawDetection) (ground_truths : list RawGroundTruth)
    (latency_ms : Q) (iteration total_iterations : Z) : M unit :=
  (if (iteration =? 1)%Z
   then modify (fun s => set_inference_count s (inference_count s + 1)%Z)
   else ret tt) ;;;
  dq <- subscript latency_history model ;;
  modify (fun s =>
    set_latency_history s
      (dict_set String.eqb model (deque_append (max_history s) dq latency_ms)
                (latency_history s))) ;;;
  let fps := if Qlt_bool 0 latency_ms then 1000 / latency_ms else 0 in
  if (iteration =? 1)%Z then
    fq <- subscript fps_history model ;;
    modify (fun s =>
      set_fps_history s
        (dict_set String.eqb model
           (deque_append (max_history s) fq
              {| fps_time := inference_count s;
                 fps_value := round fps 1;
                 fps_latency_ms := round latency_ms 2 |})
           (fps_history s))) ;;;
    let preds_formatted := map format_prediction detections in
    pm <- subscript all_predictions model ;;
    modify (fun s =>
      set_all_predictions s
        (dict_set String.eqb model
           (dict_set String.eqb image_id preds_formatted pm)
           (all_predictions s))) ;;;
    let gts_formatted := map format_ground_truth ground_truths in
    gm <- subscript all_ground_truths model ;;
    modify (fun s =>
      set_all_ground_truths s
        (dict_set String.eqb model
           (dict_set String.eqb image_id gts_formatted gm)
           (all_ground_truths s))) ;;;
    modify (fun s =>
      set_eval_cache s (dict_pop String.eqb model (eval_cache s)))
  else ret tt.

Definition VOC_CLASSES : list string :=
  ["person"; "bird"; "cat"; "cow"; "dog"; "horse"; "sheep";
   "aeroplane"; "bicycle"; "boat"; "bus"; "car"; "motorbike"; "train";
   "bottle"; "chair"; "diningtable"; "pottedplant"; "sofa";
   "tvmonitor"]%string.

(** A point of the aggregate PR curve: [{recall, precision}]. *)
Record PRPoint := mkPRPoint { pr_recall : Q; pr_precision : Q }.

Section Reads.

(** The order in which [set(l)] yields its elements. *)
Variable set_iter : list string -> list string.

(** The accumulated maps of a model: [self.all_predictions.get(model, {})]
    and [self.all_ground_truths.get(model, {})]. *)
Definition preds_of (s : InferenceStore) (model : string)
    : sdict (list Detection) :=
  dict_get_default String.eqb model (all_predictions s) [].

Definition gts_of (s : InferenceStore) (model : string)
    : sdict (list GroundTruth) :=
  dict_get_default String.eqb model (all_ground_truths s) [].

(** The pipeline on the accumulated maps of a model. *)
Definition pipeline_output (s : InferenceStore) (model : string)
    : EvaluationResult :=
  evaluate_detections set_iter (preds_of s model) (gts_of s model)
                      VOC_CLASSES (Some [1 # 2]).

(** [evaluate_detections] raises nothing on these inputs, so the
    [except] branch is not modelled. *)
Definition get_evaluation (model : string) : M (option EvaluationResult) :=
  cache <- read eval_cache ;;
  match dict_get String.eqb model cache with
  | Some cached => ret (Some cached)
  | None =>
      preds <- read (fun s => preds_of s model) ;;
      match preds with
      | [] => ret None
      | _ :: _ =>
          result <- read (fun s => pipeline_output s model) ;;
          modify (fun s =>
            set_eval_cache s
              (dict_set String.eqb model result (eval_cache s))) ;;;
          ret (Some result)
      end
  end.

Definition get_pr_curve (model : string) : M (list PRPoint) :=
  evaluation <- get_evaluation model ;;
  match evaluation with
  | None => ret []
  | Some ev =>
      let all_points := List.concat (dict_values (pr_curves ev)) in
      match all_points with
      | [] => ret []
      | _ :: _ =>
          let all_points := sort_asc cp_recall all_points in
          let step := Nat.max 1 (List.length all_points / 50) in
          ret (map (fun p => {| pr_recall := round (cp_recall p) 4;
                                pr_precision := round (cp_precision p) 4 |})
                   (slice_step all_points step))
      end
  end.

(** [list(self.fps_history.get(model, []))]. *)
Definition get_fps_history (model : string) : M (list FpsEntry) :=
  read (fun s => dict_get_default String.eqb model (fps_history s) []).

(** An entry of the per-class list: [{class, ap}]. *)
Record ClassAP := mkClassAP { ca_class : string; ca_ap : Q }.

Definition get_per_class_ap (model : string) : M (list ClassAP) :=
  evaluation <- get_evaluation model ;;
  match evaluation with
  | None => ret []
  | Some ev =>
      ret (map (fun e => {| ca_class := fst e; ca_ap := round (snd e) 4 |})
               (per_class_ap ev))
  end.

End Reads.

(** ** Telemetry: broadcast_event *)

Section Telemetry.

Variable Event : Type.

(** An [asyncio.Queue(maxsize)]; it is unbounded when [maxsize <= 0]. *)
Record Queue := mkQueue { maxsize : Z; items : list Event }.

(** The queue objects, by reference. *)
Definition Heap : Type := nat -> Queue.

(** [q.full()]. *)
Definition full (q : Queue) : bool :=
  (0 <? maxsize q)%Z && (maxsize q <=? Z.of_nat (List.length (items q)))%Z.

(** [q.put_nowait(event)]: [None] stands for [asyncio.QueueFull]. *)
Definition put_nowait (q : Queue) (event : Event) : option Queue :=
  if full q then None
  else Some {| maxsize := maxsize q; items := items q ++ [event] |}.

Definition heap_set (h : Heap) (r : nat) (q : Queue) : Heap :=
  fun r' => if Nat.eqb r' r then q else h r'.

(** The body of the first loop: the accumulator is the heap and
    [dead]. *)
Definition broadcast_step (event : Event) (acc : Heap * list nat)
    (q : nat) : Heap * list nat :=
  let '(h, dead) := acc in
  match put_nowait (h q) event with
  | Some q' => (heap_set h q q', dead)
  | None => (h, dead ++ [q])
  end.

(** [l.remove(x)]: the first occurrence is removed. *)
Fixpoint list_remove (x : nat) (l : list nat) : list nat :=
  match l with
  | [] => []
  | y :: t => if Nat.eqb y x then t else y :: list_remove x t
  end.

Definition broadcast_event (h : Heap) (s : InferenceStore) (event : Event)
    : Heap * InferenceStore :=
  let '(h', dead) :=
    fold_left (broadcast_step event) (subscribers s) (h, []) in
  (h', set_subscribers s
         (fold_left (fun subs q => list_remove q subs) dead (subscribers s))).

End Telemetry.

Arguments maxsize {Event} _.
Arguments items {Event} _.
Arguments full {Event} _.
Arguments put_nowait {Event} _ _.
Arguments heap_set {Event} _ _ _ _.
Arguments broadcast_step {Event} _ _ _.
Arguments broadcast_event {Event} _ _ _.

End Store.

(* ================================================================== *)
(** * Predicates used to state the properties *)
(* ================================================================== *)

Module Spec.
Import Py Evaluator Store.

(** What the inner loop maintains about [best_gt_idx] after the first
    [n] ground truths. *)
Definition scan_inv (matched : set nat) (n : nat) (acc : Q * Z) : Prop :=
  snd acc = (-1)%Z \/
  ((0 <= snd acc < Z.of_nat n)%Z /\
   set_mem Nat.eq_dec (Z.to_nat (snd acc)) matched = false).

(** In a pass over [predictions], no ground truth accepted by [which] is
    matched by two predictions of the pass. *)
Definition matched_at_most_once (which : GroundTruth -> bool)
    (ground_truths : list GroundTruth) (iou_threshold : Q)
    (predictions : list Detection) : Prop :=
  forall ps1 p ps2 q ps3 i gt,
    predictions = ps1 ++ p :: ps2 ++ q :: ps3 ->
    nth_error ground_truths i = Some gt ->
    which gt = true ->
    matched_to ground_truths iou_threshold
      (match_loop ground_truths iou_threshold ps1 match_init) p = Some i ->
    matched_to ground_truths iou_threshold
      (match_loop ground_truths iou_threshold (ps1 ++ p :: ps2) match_init) q
      <> Some i.

(** The per-class AP values that are strictly greater than 0. *)
Definition positive_aps (per_class : sdict Q) : list Q :=
  filter (fun ap => if Qlt_le_dec 0 ap then true else false)
         (map snd per_class).

(** The arithmetic mean of a list, and 0 for the empty list. *)
Definition arithmetic_mean (l : list Q) : Q :=
  match l with
  | [] => 0
  | _ :: _ => fold_right Qplus 0 l / inject_Z (Z.of_nat (List.length l))
  end.

(** [l] is ordered by decreasing key. *)
Definition sorted_desc {A : Type} (key : A -> Q) (l : list A) : Prop :=
  StronglySorted (fun a b => key b <= key a) l.

(** [l] is ordered by increasing key. *)
Definition sorted_asc {A : Type} (key : A -> Q) (l : list A) : Prop :=
  StronglySorted (fun a b => key a <= key b) l.

(** The elements of [l] whose key equals [c], in the order of [l]. *)
Definition with_key {A : Type} (key : A -> Q) (c : Q) (l : list A) : list A :=
  filter (fun a => Qeq_bool (key a) c) l.

(** The AP the loop body of [evaluate_detections] stores for a class. *)
Definition ap_of_class (set_iter : list string -> list string)
    (all_predictions : sdict (list Detection))
    (all_ground_truths : sdict (list GroundTruth))
    (thr : Q) (cn : string) : Q :=
  let total_gt :=
    snd (gather_class set_iter all_predictions all_ground_truths thr cn) in
  if (total_gt =? 0)%Z then 0
  else
    let class_preds :=
      pooled_ranking set_iter all_predictions all_ground_truths thr cn in
    compute_ap (precisions_of class_preds) (recalls_of class_preds total_gt).

(** A call of one of the two methods of the store. *)
Inductive Call :=
| CallRecordInference (model image_id : string)
    (detections : list RawDetection) (ground_truths : list RawGroundTruth)
    (latency_ms : Q) (iteration total_iterations : Z)
| CallGetEvaluation (model : string).

(** The store after a call, whatever the call returned or raised. *)
Definition run_call (set_iter : list string -> list string) (c : Call)
    (s : InferenceStore) : InferenceStore :=
  match c with
  | CallRecordInference model image_id detections ground_truths latency_ms
                        iteration total_iterations =>
      fst (record_inference model image_id detections ground_truths
                            latency_ms iteration total_iterations s)
  | CallGetEvaluation model => fst (get_evaluation set_iter model s)
  end.

(** The store after a sequence of calls. *)
Definition run_calls (set_iter : list string -> list string)
    (calls : list Call) (s : InferenceStore) : InferenceStore :=
  fold_left (fun s c => run_call set_iter c s) calls s.

(** Every cached result is the output of the pipeline on the current maps
    of its model. *)
Definition cache_valid (set_iter : list string -> list string)
    (s : InferenceStore) : Prop :=
  forall m r, dict_get String.eqb m (eval_cache s) = Some r ->
              r = pipeline_output set_iter s m.

(** What every call of the store maintains. *)
Definition store_inv (set_iter : list string -> list string)
    (s : InferenceStore) : Prop :=
  NoDup (dict_keys (eval_cache s))
  /\ (forall m, dict_get String.eqb m (all_predictions s) <> None ->
                dict_get String.eqb m (all_ground_truths s) <> None)
  /\ cache_valid set_iter s.

(** Two image ids, each in its own pair of maps, carry the same
    predictions and the same ground truths. *)
Definition same_image
    (P1 : sdict (list Detection)) (G1 : sdict (list GroundTruth))
    (P2 : sdict (list Detection)) (G2 : sdict (list GroundTruth))
    (id1 id2 : string) : Prop :=
  dict_get_default String.eqb id1 P1 [] = dict_get_default String.eqb id2 P2 []
  /\ dict_get_default String.eqb id1 G1 []
     = dict_get_default String.eqb id2 G2 [].

(** The curve the loop body of [evaluate_detections] stores for a
    class. *)
Definition curve_of_class (set_iter : list string -> list string)
    (all_predictions : sdict (list Detection))
    (all_ground_truths : sdict (list GroundTruth))
    (thr : Q) (cn : string) : list CurvePoint :=
  let total_gt :=
    snd (gather_class set_iter all_predictions all_ground_truths thr cn) in
  if (total_gt =? 0)%Z then []
  else
    let class_preds :=
      pooled_ranking set_iter all_predictions all_ground_truths thr cn in
    curve_points_of class_preds (precisions_of class_preds)
                    (recalls_of class_preds total_gt).

(** [x] is a ratio: a number of the interval [0,1]. *)
Definition in_unit (x : Q) : Prop := 0 <= x /\ x <= 1.

(** A curve of at most 100 points in the unit square, with recalls that
    do not decrease. *)
Definition well_formed_curve (curve : list CurvePoint) : Prop :=
  (List.length curve <= 100)%nat
  /\ Forall (fun pt => in_unit (cp_precision pt) /\ in_unit (cp_recall pt))
            curve
  /\ sorted_asc cp_recall curve.

(** The number of flags that are true. *)
Definition count_true (flags : list bool) : nat :=
  List.length (filter (fun f => f) flags).

(** What the loop over the predictions maintains: the consumed ground
    truths are distinct, exist, are not difficult, and there is one of
    them for each flag that is true. *)
Definition match_inv (ground_truths : list GroundTruth) (st : MatchState)
    : Prop :=
  NoDup (matched_gt st)
  /\ (forall i, set_In i (matched_gt st) ->
        exists gt, nth_error ground_truths i = Some gt
                   /\ is_difficult gt = false)
  /\ count_true (tp_flags st) = List.length (matched_gt st).

(** What the inner loop maintains about [(best_iou, best_gt_idx)] after
    the first [k] ground truths: [best_iou] bounds the IoU of every free
    ground truth seen, and is reached first at [best_gt_idx]. *)
Definition best_inv (pred : Detection) (ground_truths : list GroundTruth)
    (matched : set nat) (k : nat) (acc : Q * Z) : Prop :=
  (forall j g, (j < k)%nat -> nth_error ground_truths j = Some g ->
               set_mem Nat.eq_dec j matched = false ->
               compute_iou (bbox pred) (gt_bbox g) <= fst acc)
  /\ ((snd acc = (-1)%Z /\ fst acc = 0)
      \/ exists g,
           (0 <= snd acc < Z.of_nat k)%Z
           /\ nth_error ground_truths (Z.to_nat (snd acc)) = Some g
           /\ set_mem Nat.eq_dec (Z.to_nat (snd acc)) matched = false
           /\ fst acc = compute_iou (bbox pred) (gt_bbox g)
           /\ 0 < fst acc
           /\ forall j g', (j < Z.to_nat (snd acc))%nat ->
                nth_error ground_truths j = Some g' ->
                set_mem Nat.eq_dec j matched = false ->
                compute_iou (bbox pred) (gt_bbox g') < fst acc).

(** The number of calls of [record_inference] with [iteration == 1]. *)
Definition first_iteration_writes (calls : list Call) : Z :=
  Z.of_nat (List.length (filter (fun c => match c with
                              | CallRecordInference _ _ _ _ _ it _ => (it =? 1)%Z
                              | CallGetEvaluation _ => false
                              end) calls)).

(** The four per-model maps have the two keys given at construction. *)
Definition tracked_models (s : InferenceStore) : Prop :=
  dict_keys (latency_history s) = ["yolov5"; "detr"]%string
  /\ dict_keys (fps_history s) = ["yolov5"; "detr"]%string
  /\ dict_keys (all_predictions s) = ["yolov5"; "detr"]%string
  /\ dict_keys (all_ground_truths s) = ["yolov5"; "detr"]%string.

(** The deques respect [max_history]; the FPS entries carry increasing
    sequence numbers, none above the counter, and no negative FPS. *)
Definition history_inv (s : InferenceStore) : Prop :=
  (forall m l, dict_get String.eqb m (latency_history s) = Some l ->
               (List.length l <= max_history s)%nat)
  /\ (forall m l, dict_get String.eqb m (fps_history s) = Some l ->
         (List.length l <= max_history s)%nat
         /\ StronglySorted Z.lt (map fps_time l)
         /\ Forall (fun e => (fps_time e <= inference_count s)%Z
                             /\ 0 <= fps_value e) l).

(** Only models with recorded images have a cached result. *)
Definition cache_has_data (s : InferenceStore) : Prop :=
  forall m r, dict_get String.eqb m (eval_cache s) = Some r ->
              preds_of s m <> [].

(** What every call maintains on a store built by [new_store]. *)
Definition full_inv (set_iter : list string -> list string)
    (s : InferenceStore) : Prop :=
  store_inv set_iter s /\ tracked_models s /\ history_inv s
  /\ cache_has_data s.

(** [it] is a possible iteration order of [set(l)]: it yields every
    element of [l], each once. *)
Definition set_order (it : list string -> list string) : Prop :=
  forall l, NoDup (it l) /\ forall x, In x (it l) <-> In x l.

(** No two entries of [class_preds] have equal confidence. *)
Fixpoint no_ties (class_preds : list (Q * bool)) : bool :=
  match class_preds with
  | [] => true
  | a :: t => forallb (fun b => negb (Qeq_bool (fst a) (fst b))) t
              && no_ties t
  end.

(** [l] is ordered by strictly decreasing key. *)
Definition strictly_desc {A : Type} (key : A -> Q) (l : list A) : Prop :=
  StronglySorted (fun a b => key b < key a) l.

(** What one image adds to [class_preds] and to [total_gt]. *)
Definition image_pairs (all_predictions : sdict (list Detection))
    (all_ground_truths : sdict (list GroundTruth)) (thr : Q)
    (cn image_id : string) : list (Q * bool) :=
  fst (gather_image all_predictions all_ground_truths thr cn ([], 0%Z)
                    image_id).

Definition image_n_gt (all_predictions : sdict (list Detection))
    (all_ground_truths : sdict (list GroundTruth)) (thr : Q)
    (cn image_id : string) : Z :=
  snd (gather_image all_predictions all_ground_truths thr cn ([], 0%Z)
                    image_id).

(** The sum of two triples of counters. *)
Definition add3 (a b : Z * Z * Z) : Z * Z * Z :=
  let '(a1, a2, a3) := a in
  let '(b1, b2, b3) := b in
  ((a1 + b1)%Z, (a2 + b2)%Z, (a3 + b3)%Z).

(** The thresholds a call uses: [[0.5]] when none are given. *)
Definition thresholds_of (iou_thresholds : option (list Q)) : list Q :=
  match iou_thresholds with None => [1 # 2] | Some l => l end.

(** A box with coordinates of absolute value at most [10^100] and sides
    of at least [10^-100].  The products and sums [compute_iou] forms on
    such a box stay far inside the range of double precision, where they
    neither overflow nor vanish. *)
Definition moderate_box (b : BBox) : Prop :=
  let big := inject_Z (10 ^ 100) in
  - big <= bx1 b /\ bx2 b <= big
  /\ - big <= by1 b /\ by2 b <= big
  /\ / big <= bx2 b - bx1 b
  /\ / big <= by2 b - by1 b.

End Spec.

(* ================================================================== *)
(** * Concrete inputs used by the examples below *)
(* ================================================================== *)

Module Scenario.
Import Py Evaluator Store.

Definition box_0_10 : BBox := mkBBox 0 0 10 10.
Definition box_far : BBox := mkBBox 100 100 110 110.

(** A possible iteration order of a set: first occurrences, in insertion
    order. *)
Definition insertion_order (l : list string) : list string :=
  nodup string_dec l.

(** Two cat predictions, the first on [box_0_10], the second far away. *)
Definition preds_near_far : list Detection :=
  [mkDetection "cat" (9 # 10) box_0_10; mkDetection "cat" (8 # 10) box_far].

(** Two cat predictions on the same box. *)
Definition preds_same_box : list Detection :=
  [mkDetection "cat" (9 # 10) box_0_10; mkDetection "cat" (8 # 10) box_0_10].

(** One cat on [box_0_10], difficult or not. *)
Definition gts_difficult_cat : list GroundTruth :=
  [mkGroundTruth "cat" box_0_10 (Some 1%Z)].

Definition gts_plain_cat : list GroundTruth :=
  [mkGroundTruth "cat" box_0_10 (Some 0%Z)].

(** The raw records of the one-image scenario. *)
Definition raw_cat : RawDetection := mkRawDetection "cat" (9 # 10) box_0_10.
Definition raw_cat_gt : RawGroundTruth := mkRawGroundTruth "cat" box_0_10 None.

(** A store written twice, with a read in between. *)
Definition calls_write_read_write : list Spec.Call :=
  [Spec.CallRecordInference "yolov5" "img1" [raw_cat] [raw_cat_gt] 12 1%Z 1%Z;
   Spec.CallGetEvaluation "yolov5";
   Spec.CallRecordInference "yolov5" "img2" [raw_cat] [] 15 1%Z 1%Z].

(** Two subscriber queues of capacity 1, the first one full. *)
Definition two_queues : Heap nat :=
  fun r => match r with
           | O => {| maxsize := 1%Z; items := [7%nat] |}
           | _ => {| maxsize := 1%Z; items := [] |}
           end.

Definition store_two_subscribers : InferenceStore :=
  set_subscribers (new_store 200) [0%nat; 1%nat].

(** The stored records of the one-image scenario. *)
Definition stored_cat : Detection := mkDetection "cat" (9 # 10) box_0_10.
Definition stored_cat_gt : GroundTruth :=
  mkGroundTruth "cat" box_0_10 (Some 0%Z).

(** 98 cat predictions on the same box, of confidences 0.01 to 0.98. *)
Definition raw_cats_98 : list RawDetection :=
  map (fun i => mkRawDetection "cat" (Z.of_nat i # 100) box_0_10) (seq 1 98).

(** The store after one write of these 98 predictions and one cat. *)
Definition store_98_cats : InferenceStore :=
  fst (record_inference "yolov5" "img" raw_cats_98 [raw_cat_gt] 12 1%Z 1%Z
                        (new_store 200)).

(** Two empty subscriber queues of capacity 100, as [telemetry_stream]
    creates them. *)
Definition queues_of_100 : Heap nat :=
  fun _ => {| maxsize := 100%Z; items := [] |}.

(** The store after one write for the image of the one-image scenario. *)
Definition store_one_cat : InferenceStore :=
  fst (record_inference "yolov5" "img1" [raw_cat] [raw_cat_gt] 12 1%Z 1%Z
                        (new_store 200)).

(** Another possible iteration order of a set: the reverse of
    [insertion_order]. *)
Definition reversed_order (l : list string) : list string :=
  rev (nodup string_dec l).

(** Two images with one cat prediction each, of equal confidence: the one
    of [img1] is on the cat of [img1], the one of [img2] is on nothing. *)
Definition preds_tied : sdict (list Detection) :=
  [("img1"%string, [mkDetection "cat" (9 # 10) box_0_10]);
   ("img2"%string, [mkDetection "cat" (9 # 10) box_far])].

(** The same two images, with different confidences. *)
Definition preds_untied : sdict (list Detection) :=
  [("img1"%string, [mkDetection "cat" (9 # 10) box_0_10]);
   ("img2"%string, [mkDetection "cat" (8 # 10) box_far])].

Definition gts_img1_cat : sdict (list GroundTruth) :=
  [("img1"%string, gts_plain_cat)].

End Scenario.

(* ================================================================== *)
(** * Properties of the matcher *)
(* ================================================================== *)

Import Py Evaluator Store Spec.

Section MatcherFacts.

Variable ground_truths : list GroundTruth.
Variable iou_threshold : Q.

Let step := match_step ground_truths iou_threshold.
Let loop := match_loop ground_truths iou_threshold.

Lemma sum_Z_ones_from {A : Type} (l : list A) (z : Z) :
  fold_left Z.add (map (fun _ => 1%Z) l) z = (z + Z.of_nat (List.length l))%Z.
Proof.
  revert z; induction l as [|a l IH]; intros z; simpl.
  - lia.
  - rewrite IH. lia.
Qed.

Lemma sum_Z_ones {A : Type} (l : list A) :
  sum_Z (map (fun _ => 1%Z) l) = Z.of_nat (List.length l).
Proof. unfold sum_Z. rewrite sum_Z_ones_from. lia. Qed.

Lemma scan_fold_inv pred matched (l : list GroundTruth) :
  forall k acc,
    scan_inv matched k acc ->
    scan_inv matched (k + List.length l)
      (fold_left (scan_step pred matched)
                 (combine (seq k (List.length l)) l) acc).
Proof.
  induction l as [|g l IH]; intros k acc Hacc; simpl.
  - now rewrite Nat.add_0_r.
  - replace (k + S (List.length l))%nat with (S k + List.length l)%nat by lia.
    apply IH.
    destruct acc as [best_iou best_idx]. unfold scan_step.
    destruct (set_mem Nat.eq_dec k matched) eqn:Hk.
    + destruct Hacc as [H | [H1 H2]]; [now left | right].
      split; [simpl in *; lia | exact H2].
    + destruct (Qlt_bool best_iou (compute_iou (bbox pred) (gt_bbox g))).
      * right. simpl. rewrite Nat2Z.id. split; [lia | exact Hk].
      * destruct Hacc as [H | [H1 H2]]; [now left | right].
        split; [simpl in *; lia | exact H2].
Qed.

Lemma best_match_inv pred matched :
  scan_inv matched (List.length ground_truths)
           (best_match pred ground_truths matched).
Proof.
  unfold best_match, enumerate.
  apply (scan_fold_inv pred matched ground_truths 0). now left.
Qed.

(** A prediction is only ever matched to a ground truth that exists and
    has not been consumed. *)
Lemma matched_to_fresh st pred i :
  matched_to ground_truths iou_threshold st pred = Some i ->
  (i < List.length ground_truths)%nat /\ ~ set_In i (matched_gt st).
Proof.
  unfold matched_to.
  pose proof (best_match_inv pred (matched_gt st)) as Hinv.
  destruct (best_match pred ground_truths (matched_gt st)) as [iou idx].
  destruct (Qle_bool iou_threshold iou && (0 <=? idx)%Z) eqn:Hc;
    [|discriminate].
  intros [= <-].
  apply andb_prop in Hc. destruct Hc as [_ Hidx].
  apply Z.leb_le in Hidx.
  destruct Hinv as [H | [H1 H2]]; simpl in *; [lia|].
  split; [lia|].
  intros Hin. apply (set_mem_correct2 Nat.eq_dec) in Hin. congruence.
Qed.

(** The loop body in terms of [matched_to]. *)
Lemma match_step_cases st pred :
  match matched_to ground_truths iou_threshold st pred with
  | None =>
      step st pred = {| matched_gt := matched_gt st;
                        tp_flags := tp_flags st ++ [false] |}
  | Some i =>
      exists gt, nth_error ground_truths i = Some gt /\
        step st pred =
          if is_difficult gt then st
          else {| matched_gt := set_add Nat.eq_dec i (matched_gt st);
                  tp_flags := tp_flags st ++ [true] |}
  end.
Proof.
  destruct (matched_to ground_truths iou_threshold st pred) as [i|] eqn:Hm.
  - destruct (matched_to_fresh st pred i Hm) as [Hlt _].
    revert Hm. unfold matched_to, step, match_step.
    destruct (best_match pred ground_truths (matched_gt st)) as [iou idx].
    destruct (Qle_bool iou_threshold iou && (0 <=? idx)%Z); [|discriminate].
    intros [= <-].
    destruct (nth_error ground_truths (Z.to_nat idx)) as [gt|] eqn:Hn.
    + exists gt. split; [reflexivity|]. reflexivity.
    + apply nth_error_None in Hn. lia.
  - revert Hm. unfold matched_to, step, match_step.
    destruct (best_match pred ground_truths (matched_gt st)) as [iou idx].
    destruct (Qle_bool iou_threshold iou && (0 <=? idx)%Z); [discriminate|].
    reflexivity.
Qed.

(** The set of consumed ground truths only grows. *)
Lemma match_step_mono st pred i :
  set_In i (matched_gt st) -> set_In i (matched_gt (step st pred)).
Proof.
  intros Hin. pose proof (match_step_cases st pred) as Hc.
  destruct (matched_to ground_truths iou_threshold st pred) as [j|].
  - destruct Hc as [gt [_ ->]].
    destruct (is_difficult gt); [exact Hin|]. simpl.
    apply set_add_intro1. exact Hin.
  - rewrite Hc. exact Hin.
Qed.

Lemma match_loop_mono predictions :
  forall st i, set_In i (matched_gt st) ->
               set_In i (matched_gt (loop predictions st)).
Proof.
  induction predictions as [|p ps IH]; intros st i Hin; simpl.
  - exact Hin.
  - apply IH. apply match_step_mono. exact Hin.
Qed.

Lemma match_loop_app ps1 ps2 st :
  loop (ps1 ++ ps2) st = loop ps2 (loop ps1 st).
Proof. unfold loop, match_loop. apply fold_left_app. Qed.

(** A match with a ground truth that is not difficult consumes it. *)
Lemma match_step_consumes st pred i gt :
  matched_to ground_truths iou_threshold st pred = Some i ->
  nth_error ground_truths i = Some gt ->
  is_difficult gt = false ->
  set_In i (matched_gt (step st pred)) /\
  tp_flags (step st pred) = tp_flags st ++ [true].
Proof.
  intros Hm Hn Hd. pose proof (match_step_cases st pred) as Hc.
  rewrite Hm in Hc. destruct Hc as [gt' [Hn' ->]].
  assert (gt' = gt) by congruence. subst gt'. rewrite Hd. simpl.
  split; [|reflexivity]. apply set_add_intro2. reflexivity.
Qed.

(** A match with a difficult ground truth leaves the loop state as it
    is: nothing is consumed, no flag is appended. *)
Lemma match_step_difficult st pred i gt :
  matched_to ground_truths iou_threshold st pred = Some i ->
  nth_error ground_truths i = Some gt ->
  is_difficult gt = true ->
  step st pred = st.
Proof.
  intros Hm Hn Hd. pose proof (match_step_cases st pred) as Hc.
  rewrite Hm in Hc. destruct Hc as [gt' [Hn' ->]].
  assert (gt' = gt) by congruence. subst gt'. now rewrite Hd.
Qed.

(** Every iteration appends at most one flag. *)
Lemma match_step_flags st pred :
  exists fl, tp_flags (step st pred) = tp_flags st ++ fl /\
             (List.length fl <= 1)%nat.
Proof.
  pose proof (match_step_cases st pred) as Hc.
  destruct (matched_to ground_truths iou_threshold st pred) as [j|].
  - destruct Hc as [gt [_ ->]]. destruct (is_difficult gt).
    + exists []. rewrite app_nil_r. split; [reflexivity | simpl; lia].
    + exists [true]. split; [reflexivity | simpl; lia].
  - rewrite Hc. exists [false]. split; [reflexivity | simpl; lia].
Qed.

Lemma match_loop_flags_length predictions :
  forall st, (List.length (tp_flags (loop predictions st))
              <= List.length (tp_flags st) + List.length predictions)%nat.
Proof.
  induction predictions as [|p ps IH]; intros st; simpl.
  - lia.
  - specialize (IH (step st p)).
    destruct (match_step_flags st p) as [fl [Hfl Hlen]].
    rewrite Hfl, length_app in IH.
    unfold loop, match_loop, step in *. simpl. lia.
Qed.

(** Without difficult ground truths every prediction gets its flag. *)
Lemma match_loop_flags_aligned predictions :
  (forall gt, In gt ground_truths -> is_difficult gt = false) ->
  forall st, List.length (tp_flags (loop predictions st))
             = (List.length (tp_flags st) + List.length predictions)%nat.
Proof.
  intros Hnd. induction predictions as [|p ps IH]; intros st; simpl.
  - lia.
  - specialize (IH (step st p)).
    assert (Hone : List.length (tp_flags (step st p))
                   = S (List.length (tp_flags st))).
    { pose proof (match_step_cases st p) as Hc.
      destruct (matched_to ground_truths iou_threshold st p) as [j|].
      - destruct Hc as [gt [Hn ->]].
        rewrite (Hnd gt (nth_error_In _ _ Hn)). simpl.
        rewrite length_app. simpl. lia.
      - rewrite Hc. simpl. rewrite length_app. simpl. lia. }
    unfold loop, match_loop, step in *. simpl. lia.
Qed.

End MatcherFacts.

Section MatcherClaims.
Import Scenario.

Lemma half_le_pos (x : Q) : Qle_bool (1 # 2) x = true -> Qlt_bool 0 x = true.
Proof.
  intros H. apply Qle_bool_iff in H. unfold Qlt_bool.
  destruct (Qle_bool x 0) eqn:E; [|reflexivity].
  apply Qle_bool_iff in E.
  assert (Hc : (1 # 2) <= 0) by (eapply Qle_trans; eassumption).
  exfalso. revert Hc. unfold Qle. simpl. lia.
Qed.

(** C1 (the code departs from it).  [tp_flags] is not aligned to the
    predictions: a prediction whose best ground truth is difficult gets no
    flag at all.  Of the two predictions of [preds_near_far] the first
    (confidence 0.9) lies on the difficult ground truth and is skipped, the
    second (confidence 0.8) is a false positive: one flag comes back for
    two predictions, and the pipeline pairs that flag with the confidence
    0.9 of the skipped prediction. *)
Theorem tp_flags_shorter_than_predictions :
  match_predictions_to_gt preds_near_far gts_difficult_cat (1 # 2)
    = ([false], 0%Z)
  /\ List.length (fst (match_predictions_to_gt preds_near_far
                         gts_difficult_cat (1 # 2)))
     <> List.length preds_near_far
  /\ fst (gather_class insertion_order
            [("img"%string, preds_near_far)]
            [("img"%string, gts_difficult_cat)] (1 # 2) "cat")
     = [(9 # 10, false)].
Proof.
  split; [reflexivity|]. split; [|reflexivity].
  vm_compute. discriminate.
Qed.

(** C2, as stated, fails: a difficult ground truth is matched by both
    predictions of [preds_same_box]. *)
Lemma difficult_gt_matched_twice :
  ~ matched_at_most_once (fun _ => true) gts_difficult_cat (1 # 2)
      preds_same_box.
Proof.
  intros H.
  apply (H [] (mkDetection "cat" (9 # 10) box_0_10) []
           (mkDetection "cat" (8 # 10) box_0_10) [] 0%nat
           (mkGroundTruth "cat" box_0_10 (Some 1%Z)));
    reflexivity.
Qed.

(** C2 (amended).  Within one call, a ground truth that is not difficult,
    once matched by a prediction, is not matched by any later prediction;
    and at threshold 0.5, of two predictions that both reach the threshold
    on a single ground truth that is not difficult, the first is flagged
    true and the second false. *)
Theorem non_difficult_gt_matched_at_most_once
    (ground_truths : list GroundTruth) (iou_threshold : Q)
    (predictions : list Detection) (p1 p2 : Detection) (g : GroundTruth) :
  matched_at_most_once (fun gt => negb (is_difficult gt))
    ground_truths iou_threshold predictions
  /\ (is_difficult g = false ->
      Qle_bool (1 # 2) (compute_iou (bbox p1) (gt_bbox g)) = true ->
      Qle_bool (1 # 2) (compute_iou (bbox p2) (gt_bbox g)) = true ->
      match_predictions_to_gt [p1; p2] [g] (1 # 2) = ([true; false], 1%Z)).
Proof.
  split.
  - intros ps1 p ps2 q ps3 i gt _ Hn Hd Hp Hq.
    apply negb_true_iff in Hd.
    destruct (match_step_consumes _ _ _ _ _ _ Hp Hn Hd) as [Hin _].
    apply (match_loop_mono ground_truths iou_threshold ps2) in Hin.
    apply matched_to_fresh in Hq. destruct Hq as [_ Hq]. apply Hq.
    rewrite match_loop_app. simpl. exact Hin.
  - intros Hd H1 H2.
    unfold match_predictions_to_gt, match_loop, count_n_gt. simpl.
    rewrite Hd. simpl.
    unfold match_step at 2. unfold best_match, enumerate. simpl.
    rewrite (half_le_pos _ H1), H1. simpl. rewrite Hd.
    unfold match_step, best_match, enumerate. simpl.
    reflexivity.
Qed.

Lemma non_difficult_gt_matched_at_most_once_witness :
  matched_to gts_plain_cat (1 # 2)
    (match_loop gts_plain_cat (1 # 2)
       [mkDetection "cat" (9 # 10) box_0_10] match_init)
    (mkDetection "cat" (8 # 10) box_0_10) <> Some 0%nat
  /\ match_predictions_to_gt preds_same_box gts_plain_cat (1 # 2)
     = ([true; false], 1%Z).
Proof.
  destruct (non_difficult_gt_matched_at_most_once gts_plain_cat (1 # 2)
              preds_same_box
              (mkDetection "cat" (9 # 10) box_0_10)
              (mkDetection "cat" (8 # 10) box_0_10)
              (mkGroundTruth "cat" box_0_10 (Some 0%Z))) as [H1 H2].
  split.
  - apply (H1 [] (mkDetection "cat" (9 # 10) box_0_10) []
              (mkDetection "cat" (8 # 10) box_0_10) [] 0%nat
              (mkGroundTruth "cat" box_0_10 (Some 0%Z))); reflexivity.
  - apply H2; reflexivity.
Defined.

(** C3.  A prediction whose best ground truth reaches the threshold and is
    difficult adds no flag, neither true nor false: the loop state is left
    as it is, and the call returns what it returns without that
    prediction.  The returned [n_gt] is the number of ground truths that
    are not difficult. *)
Theorem difficult_match_neither_tp_nor_fp
    (ground_truths : list GroundTruth) (iou_threshold : Q)
    (ps1 ps2 : list Detection) (p : Detection) (i : nat) (gt : GroundTruth) :
  let st := match_loop ground_truths iou_threshold ps1 match_init in
  (matched_to ground_truths iou_threshold st p = Some i ->
   nth_error ground_truths i = Some gt ->
   is_difficult gt = true ->
   match_step ground_truths iou_threshold st p = st
   /\ match_predictions_to_gt (ps1 ++ p :: ps2) ground_truths iou_threshold
      = match_predictions_to_gt (ps1 ++ ps2) ground_truths iou_threshold)
  /\ snd (match_predictions_to_gt (ps1 ++ p :: ps2) ground_truths
            iou_threshold)
     = Z.of_nat (List.length
                   (filter (fun g => negb (is_difficult g)) ground_truths)).
Proof.
  intros st. split.
  - intros Hm Hn Hd.
    pose proof (match_step_difficult _ _ _ _ _ _ Hm Hn Hd) as Hst.
    split; [exact Hst|].
    unfold match_predictions_to_gt. f_equal. f_equal.
    rewrite !match_loop_app. simpl. fold st. now rewrite Hst.
  - unfold match_predictions_to_gt, count_n_gt. simpl. apply sum_Z_ones.
Qed.

Lemma difficult_match_neither_tp_nor_fp_witness :
  match_predictions_to_gt preds_near_far gts_difficult_cat (1 # 2)
  = match_predictions_to_gt [mkDetection "cat" (8 # 10) box_far]
      gts_difficult_cat (1 # 2)
  /\ snd (match_predictions_to_gt preds_near_far gts_difficult_cat (1 # 2))
     = 0%Z.
Proof.
  destruct (difficult_match_neither_tp_nor_fp gts_difficult_cat (1 # 2)
              [] [mkDetection "cat" (8 # 10) box_far]
              (mkDetection "cat" (9 # 10) box_0_10) 0%nat
              (mkGroundTruth "cat" box_0_10 (Some 1%Z))) as [H1 H2].
  split.
  - apply H1; reflexivity.
  - exact H2.
Defined.

End MatcherClaims.

(* ================================================================== *)
(** * Properties of the sorts and of the dictionaries *)
(* ================================================================== *)

Section SortFacts.

Context {A : Type}.
Variable key : A -> Q.

Lemma Qlt_bool_true (x y : Q) : Qlt_bool x y = true <-> x < y.
Proof.
  unfold Qlt_bool. rewrite negb_true_iff. split.
  - intros H. apply Qnot_le_lt. intros Hle.
    apply Qle_bool_iff in Hle. congruence.
  - intros H. destruct (Qle_bool y x) eqn:E; [|reflexivity].
    apply Qle_bool_iff in E. exfalso. exact (Qlt_not_le _ _ H E).
Qed.

Lemma Qlt_bool_false (x y : Q) : Qlt_bool x y = false <-> y <= x.
Proof.
  unfold Qlt_bool. rewrite negb_false_iff. apply Qle_bool_iff.
Qed.

Lemma insert_desc_perm a l : Permutation (insert_desc key a l) (a :: l).
Proof.
  induction l as [|b t IH]; simpl.
  - apply Permutation_refl.
  - destruct (Qlt_bool (key a) (key b)).
    + eapply perm_trans; [apply perm_skip, IH | apply perm_swap].
    + apply Permutation_refl.
Qed.

Lemma sort_desc_perm l : Permutation (sort_desc key l) l.
Proof.
  induction l as [|a t IH]; simpl.
  - apply perm_nil.
  - eapply perm_trans; [apply insert_desc_perm | apply perm_skip, IH].
Qed.

Lemma insert_desc_sorted a l :
  sorted_desc key l -> sorted_desc key (insert_desc key a l).
Proof.
  unfold sorted_desc. induction l as [|b t IH]; intros Hs; simpl.
  - constructor; constructor.
  - inversion Hs as [|? ? Ht Hb]; subst.
    destruct (Qlt_bool (key a) (key b)) eqn:E.
    + constructor; [apply IH, Ht|].
      apply Forall_forall. intros x Hx.
      apply (Permutation_in _ (insert_desc_perm a t)) in Hx.
      destruct Hx as [<- | Hx].
      * apply Qlt_le_weak, Qlt_bool_true, E.
      * rewrite Forall_forall in Hb. apply Hb, Hx.
    + apply Qlt_bool_false in E.
      constructor; [exact Hs|].
      constructor; [exact E|].
      rewrite Forall_forall in Hb |- *. intros x Hx.
      eapply Qle_trans; [apply Hb, Hx | exact E].
Qed.

Lemma sort_desc_sorted l : sorted_desc key (sort_desc key l).
Proof.
  induction l as [|a t IH]; simpl.
  - constructor.
  - apply insert_desc_sorted, IH.
Qed.

(** Insertion keeps the elements of equal key in their order: the new
    element goes in front of the old ones of the same key. *)
Lemma insert_desc_stable a l c :
  with_key key c (insert_desc key a l) = with_key key c (a :: l).
Proof.
  unfold with_key. induction l as [|b t IH]; simpl.
  - reflexivity.
  - destruct (Qlt_bool (key a) (key b)) eqn:E; [|reflexivity].
    simpl. rewrite IH. simpl.
    destruct (Qeq_bool (key a) c) eqn:Ea; [|reflexivity].
    destruct (Qeq_bool (key b) c) eqn:Eb; [|reflexivity].
    exfalso. apply Qlt_bool_true in E.
    apply Qeq_bool_iff in Ea. apply Qeq_bool_iff in Eb.
    rewrite Ea, Eb in E. exact (Qlt_irrefl _ E).
Qed.

Lemma sort_desc_stable l c :
  with_key key c (sort_desc key l) = with_key key c l.
Proof.
  induction l as [|a t IH]; simpl.
  - reflexivity.
  - rewrite insert_desc_stable. unfold with_key in *. simpl.
    now rewrite IH.
Qed.

Lemma sort_desc_length l : List.length (sort_desc key l) = List.length l.
Proof. apply Permutation_length, sort_desc_perm. Qed.

Lemma insert_asc_perm a l : Permutation (insert_asc key a l) (a :: l).
Proof.
  induction l as [|b t IH]; simpl.
  - apply Permutation_refl.
  - destruct (Qlt_bool (key b) (key a)).
    + eapply perm_trans; [apply perm_skip, IH | apply perm_swap].
    + apply Permutation_refl.
Qed.

Lemma sort_asc_perm l : Permutation (sort_asc key l) l.
Proof.
  induction l as [|a t IH]; simpl.
  - apply perm_nil.
  - eapply perm_trans; [apply insert_asc_perm | apply perm_skip, IH].
Qed.

Lemma insert_asc_sorted a l :
  sorted_asc key l -> sorted_asc key (insert_asc key a l).
Proof.
  unfold sorted_asc. induction l as [|b t IH]; intros Hs; simpl.
  - constructor; constructor.
  - inversion Hs as [|? ? Ht Hb]; subst.
    destruct (Qlt_bool (key b) (key a)) eqn:E.
    + constructor; [apply IH, Ht|].
      apply Forall_forall. intros x Hx.
      apply (Permutation_in _ (insert_asc_perm a t)) in Hx.
      destruct Hx as [<- | Hx].
      * apply Qlt_le_weak, Qlt_bool_true, E.
      * rewrite Forall_forall in Hb. apply Hb, Hx.
    + apply Qlt_bool_false in E.
      constructor; [exact Hs|].
      constructor; [exact E|].
      rewrite Forall_forall in Hb |- *. intros x Hx.
      eapply Qle_trans; [exact E | apply Hb, Hx].
Qed.

Lemma sort_asc_sorted l : sorted_asc key (sort_asc key l).
Proof.
  induction l as [|a t IH]; simpl.
  - constructor.
  - apply insert_asc_sorted, IH.
Qed.

End SortFacts.

Section DictFacts.

Context {K V : Type}.
Variable keq : K -> K -> bool.

Lemma dict_set_In k v (d : list (K * V)) k' v' :
  In (k', v') (dict_set keq k v d) -> In (k', v') d \/ v' = v.
Proof.
  induction d as [|[k0 v0] t IH]; simpl.
  - intros [[= _ <-] | []]. now right.
  - destruct (keq k0 k).
    + intros [[= <- <-] | H]; [now right | left; now right].
    + intros [H | H]; [left; now left|].
      destruct (IH H) as [H' | H']; [left; now right | now right].
Qed.

Lemma dict_set_keys k v (d : list (K * V)) k' :
  In k' (dict_keys (dict_set keq k v d)) -> In k' (dict_keys d) \/ k' = k.
Proof.
  unfold dict_keys. induction d as [|[k0 v0] t IH]; simpl.
  - intros [<- | []]. now right.
  - destruct (keq k0 k); simpl.
    + intros H. left. exact H.
    + intros [H | H]; [left; now left|].
      destruct (IH H) as [H' | H']; [left; now right | now right].
Qed.

Lemma dict_set_keeps_keys k v (d : list (K * V)) k' :
  In k' (dict_keys d) -> In k' (dict_keys (dict_set keq k v d)).
Proof.
  unfold dict_keys. induction d as [|[k0 v0] t IH]; simpl.
  - intros [].
  - destruct (keq k0 k); simpl; intros [H | H]; auto.
Qed.

Lemma dict_set_has_key k v (d : list (K * V)) :
  keq k k = true ->
  exists k', In k' (dict_keys (dict_set keq k v d)) /\ keq k' k = true.
Proof.
  intros Hr. unfold dict_keys. induction d as [|[k0 v0] t IH]; simpl.
  - exists k. split; [now left | exact Hr].
  - destruct (keq k0 k) eqn:E; simpl.
    + exists k0. split; [now left | exact E].
    + destruct IH as [k' [Hin Hk]]. exists k'. split; [now right | exact Hk].
Qed.

Lemma dict_get_In k (d : list (K * V)) v :
  dict_get keq k d = Some v -> exists k', In (k', v) d /\ keq k' k = true.
Proof.
  induction d as [|[k0 v0] t IH]; simpl; [discriminate|].
  destruct (keq k0 k) eqn:E.
  - intros [= <-]. exists k0. split; [now left | exact E].
  - intros H. destruct (IH H) as [k' [Hin Hk]].
    exists k'. split; [now right | exact Hk].
Qed.

Lemma dict_get_None k (d : list (K * V)) :
  (forall k', In k' (dict_keys d) -> keq k' k = false) ->
  dict_get keq k d = None.
Proof.
  unfold dict_keys. induction d as [|[k0 v0] t IH]; simpl; intros H.
  - reflexivity.
  - rewrite (H k0) by now left. apply IH. intros k' Hk. apply H. now right.
Qed.

Lemma dict_get_is_Some k (d : list (K * V)) k' :
  In k' (dict_keys d) -> keq k' k = true ->
  exists v, dict_get keq k d = Some v.
Proof.
  unfold dict_keys. induction d as [|[k0 v0] t IH]; simpl.
  - intros [].
  - intros [-> | Hin] Hk.
    + rewrite Hk. now exists v0.
    + destruct (keq k0 k); [now exists v0 | now apply IH].
Qed.

End DictFacts.

(** Dictionaries keyed by strings. *)
Section StringDictFacts.

Context {V : Type}.

Lemma sdict_get_set_same k v (d : sdict V) :
  dict_get String.eqb k (dict_set String.eqb k v d) = Some v.
Proof.
  induction d as [|[k0 v0] t IH]; simpl.
  - now rewrite String.eqb_refl.
  - destruct (String.eqb k0 k) eqn:E; simpl; rewrite E; [reflexivity | exact IH].
Qed.

Lemma sdict_get_set_other k k' v (d : sdict V) :
  k <> k' ->
  dict_get String.eqb k' (dict_set String.eqb k v d)
  = dict_get String.eqb k' d.
Proof.
  intros Hne. induction d as [|[k0 v0] t IH]; simpl.
  - destruct (String.eqb k k') eqn:E; [|reflexivity].
    apply String.eqb_eq in E. contradiction.
  - destruct (String.eqb k0 k) eqn:E; simpl.
    + apply String.eqb_eq in E. subst k0.
      destruct (String.eqb k k') eqn:E'; [|reflexivity].
      apply String.eqb_eq in E'. contradiction.
    + now rewrite IH.
Qed.

Lemma sdict_get_keys k (d : sdict V) :
  dict_get String.eqb k d <> None <-> In k (dict_keys d).
Proof.
  unfold dict_keys. induction d as [|[k0 v0] t IH]; simpl.
  - split; [congruence | intros []].
  - destruct (String.eqb k0 k) eqn:E.
    + apply String.eqb_eq in E. split; [now left | congruence].
    + apply String.eqb_neq in E. rewrite IH. split; [now right|].
      intros [H | H]; [contradiction | exact H].
Qed.

Lemma sdict_pop_keys k k' (d : sdict V) :
  In k' (dict_keys (dict_pop String.eqb k d)) -> In k' (dict_keys d).
Proof.
  unfold dict_keys. induction d as [|[k0 v0] t IH]; simpl; [auto|].
  destruct (String.eqb k0 k); simpl; [now right|].
  intros [H | H]; auto.
Qed.

Lemma sdict_get_pop_same k (d : sdict V) :
  NoDup (dict_keys d) -> dict_get String.eqb k (dict_pop String.eqb k d) = None.
Proof.
  unfold dict_keys. induction d as [|[k0 v0] t IH]; simpl; intros Hnd.
  - reflexivity.
  - inversion Hnd as [|? ? Hnotin Hnd']; subst.
    destruct (String.eqb k0 k) eqn:E; simpl.
    + apply String.eqb_eq in E. subst k0.
      destruct (dict_get String.eqb k t) eqn:G; [|reflexivity].
      exfalso. apply Hnotin. apply (sdict_get_keys k t). congruence.
    + rewrite E. apply IH, Hnd'.
Qed.

Lemma sdict_get_pop_other k k' (d : sdict V) :
  k <> k' ->
  dict_get String.eqb k' (dict_pop String.eqb k d) = dict_get String.eqb k' d.
Proof.
  intros Hne. induction d as [|[k0 v0] t IH]; simpl; [reflexivity|].
  destruct (String.eqb k0 k) eqn:E; simpl.
  - apply String.eqb_eq in E. subst k0.
    destruct (String.eqb k k') eqn:E'; [|reflexivity].
    apply String.eqb_eq in E'. contradiction.
  - now rewrite IH.
Qed.

Lemma sdict_set_NoDup k v (d : sdict V) :
  NoDup (dict_keys d) -> NoDup (dict_keys (dict_set String.eqb k v d)).
Proof.
  unfold dict_keys. induction d as [|[k0 v0] t IH]; simpl; intros Hnd.
  - constructor; [intros [] | constructor].
  - inversion Hnd as [|? ? Hnotin Hnd']; subst.
    destruct (String.eqb k0 k) eqn:E; simpl.
    + constructor; assumption.
    + constructor; [|apply IH, Hnd'].
      intros Hin. apply (dict_set_keys String.eqb) in Hin.
      destruct Hin as [Hin | ->]; [contradiction|].
      rewrite String.eqb_refl in E. discriminate.
Qed.

Lemma sdict_pop_NoDup k (d : sdict V) :
  NoDup (dict_keys d) -> NoDup (dict_keys (dict_pop String.eqb k d)).
Proof.
  unfold dict_keys. induction d as [|[k0 v0] t IH]; simpl; intros Hnd.
  - constructor.
  - inversion Hnd as [|? ? Hnotin Hnd']; subst.
    destruct (String.eqb k0 k); simpl; [exact Hnd'|].
    constructor; [|apply IH, Hnd'].
    intros Hin. apply Hnotin. eapply sdict_pop_keys, Hin.
Qed.

End StringDictFacts.

(* ================================================================== *)
(** * Properties of the evaluation pipeline *)
(* ================================================================== *)

Section PipelineFacts.

Variable set_iter : list string -> list string.
Variable all_predictions : sdict (list Detection).
Variable all_ground_truths : sdict (list GroundTruth).
Variable class_names : list string.

Let eval_thr := eval_threshold set_iter all_predictions all_ground_truths
                               class_names.
Let rbt := results_by_threshold set_iter all_predictions all_ground_truths
                                class_names.

Lemma fold_left_Qplus (l : list Q) (a : Q) :
  fold_left Qplus l a == a + fold_right Qplus 0 l.
Proof.
  revert a. induction l as [|x t IH]; intros a; simpl.
  - ring.
  - rewrite IH. ring.
Qed.

Lemma valid_aps_positive (per_class : sdict Q) :
  valid_aps_of per_class = positive_aps per_class.
Proof.
  unfold valid_aps_of, positive_aps, dict_values.
  apply filter_ext. intros ap.
  destruct (Qlt_le_dec 0 ap) as [H | H].
  - apply Qlt_bool_true, H.
  - apply Qlt_bool_false, H.
Qed.

(** The mAP the code computes is the arithmetic mean of the strictly
    positive per-class values. *)
Lemma mAP_of_mean (per_class : sdict Q) :
  mAP_of per_class == arithmetic_mean (positive_aps per_class).
Proof.
  unfold mAP_of. rewrite valid_aps_positive.
  destruct (positive_aps per_class) as [|a t] eqn:E; [reflexivity|].
  unfold arithmetic_mean, mean, sum_Q.
  rewrite fold_left_Qplus. now rewrite Qplus_0_l.
Qed.

Lemma eval_threshold_mAP thr :
  thr_mAP (eval_thr thr) = mAP_of (thr_per_class_ap (eval_thr thr)).
Proof.
  unfold eval_thr, eval_threshold.
  destruct (fold_left (eval_class set_iter all_predictions all_ground_truths thr)
              class_names ([], [])) as [pc cv]. reflexivity.
Qed.

(** The total of a class does not depend on the threshold. *)
Lemma gather_total_gt_fold thr1 thr2 cn (ids : list string) :
  forall acc1 acc2, snd acc1 = snd acc2 ->
    snd (fold_left (gather_image all_predictions all_ground_truths thr1 cn)
                   ids acc1)
    = snd (fold_left (gather_image all_predictions all_ground_truths thr2 cn)
                     ids acc2).
Proof.
  induction ids as [|id t IH]; intros acc1 acc2 H; simpl; [exact H|].
  apply IH. destruct acc1 as [cp1 n1], acc2 as [cp2 n2]. simpl in *.
  subst n2. reflexivity.
Qed.

Lemma gather_total_gt_indep thr1 thr2 cn :
  snd (gather_class set_iter all_predictions all_ground_truths thr1 cn)
  = snd (gather_class set_iter all_predictions all_ground_truths thr2 cn).
Proof. unfold gather_class. now apply gather_total_gt_fold. Qed.

Let ap_of := ap_of_class set_iter all_predictions all_ground_truths.

Lemma eval_class_fst thr acc cn :
  fst (eval_class set_iter all_predictions all_ground_truths thr acc cn)
  = dict_set String.eqb cn (ap_of thr cn) (fst acc).
Proof.
  unfold ap_of, eval_class, ap_of_class. destruct acc as [pc cv]. simpl.
  destruct (snd (gather_class set_iter all_predictions all_ground_truths
                   thr cn) =? 0)%Z; reflexivity.
Qed.

Lemma eval_classes_get thr (cns : list string) :
  forall acc cn,
    (In cn cns \/
     dict_get String.eqb cn (fst acc) = Some (ap_of thr cn)) ->
    dict_get String.eqb cn
      (fst (fold_left
              (eval_class set_iter all_predictions all_ground_truths thr)
              cns acc))
    = Some (ap_of thr cn).
Proof.
  induction cns as [|c t IH]; intros acc cn H; simpl.
  - destruct H as [[] | H]. exact H.
  - apply IH. destruct (string_dec c cn) as [-> | Hne].
    + right. rewrite eval_class_fst. apply sdict_get_set_same.
    + destruct H as [[H | H] | H]; [contradiction | now left | right].
      rewrite eval_class_fst, sdict_get_set_other by exact Hne. exact H.
Qed.

(** A requested class with no ground truth that counts has AP 0. *)
Lemma eval_threshold_zero_gt thr cn :
  In cn class_names ->
  snd (gather_class set_iter all_predictions all_ground_truths thr cn) = 0%Z ->
  dict_get String.eqb cn (thr_per_class_ap (eval_thr thr)) = Some 0.
Proof.
  intros Hin Hz.
  assert (Hap : ap_of thr cn = 0).
  { unfold ap_of, ap_of_class. now rewrite Hz. }
  rewrite <- Hap.
  pose proof (eval_classes_get thr class_names ([], []) cn (or_introl Hin))
    as Hg.
  unfold eval_thr, eval_threshold.
  destruct (fold_left (eval_class set_iter all_predictions all_ground_truths thr)
              class_names ([], [])) as [pc cv]. exact Hg.
Qed.

(** Every entry of [results_by_threshold] was computed for one of the
    thresholds, and is stored under it. *)
Lemma rbt_entries (thresholds : list Q) :
  forall acc k r,
    In (k, r) (fold_left (fun d t => dict_set Qeq_bool t (eval_thr t) d)
                         thresholds acc) ->
    In (k, r) acc \/ exists t, In t thresholds /\ r = eval_thr t.
Proof.
  induction thresholds as [|t ts IH]; intros acc k r H; simpl in *.
  - now left.
  - destruct (IH _ _ _ H) as [H' | [t' [Hin Hr]]].
    + apply dict_set_In in H'. destruct H' as [H' | ->]; [now left|].
      right. exists t. split; [now left | reflexivity].
    + right. exists t'. split; [now right | exact Hr].
Qed.

Lemma rbt_keys (thresholds : list Q) :
  forall acc k,
    In k (dict_keys (fold_left (fun d t => dict_set Qeq_bool t (eval_thr t) d)
                               thresholds acc)) ->
    In k (dict_keys acc) \/ In k thresholds.
Proof.
  induction thresholds as [|t ts IH]; intros acc k H; simpl in *.
  - now left.
  - destruct (IH _ _ H) as [H' | H']; [|right; now right].
    apply dict_set_keys in H'. destruct H' as [H' | ->]; [now left|].
    right. now left.
Qed.

Lemma rbt_keys_grow (thresholds : list Q) :
  forall (acc : qdict ThresholdResult) k,
    In k (dict_keys acc) ->
    In k (dict_keys (fold_left (fun d t => dict_set Qeq_bool t (eval_thr t) d)
                               thresholds acc)).
Proof.
  induction thresholds as [|t ts IH]; intros acc k H; simpl.
  - exact H.
  - apply IH, dict_set_keeps_keys, H.
Qed.

Lemma rbt_has_threshold (thresholds : list Q) thr :
  In thr thresholds ->
  forall acc, exists k,
    In k (dict_keys (fold_left (fun d t => dict_set Qeq_bool t (eval_thr t) d)
                               thresholds acc))
    /\ Qeq_bool k thr = true.
Proof.
  induction thresholds as [|t ts IH]; intros Hin acc; simpl.
  - destruct Hin.
  - destruct Hin as [-> | Hin]; [|now apply IH].
    destruct (dict_set_has_key Qeq_bool thr (eval_thr thr) acc
                (Qeq_bool_refl thr)) as [k [Hk Hq]].
    exists k. split; [apply rbt_keys_grow, Hk | exact Hq].
Qed.

(** Every requested threshold has an entry, which was computed by
    [eval_threshold] for a requested threshold. *)
Lemma rbt_lookup (thresholds : list Q) thr :
  In thr thresholds ->
  exists r t, dict_get Qeq_bool thr (rbt thresholds) = Some r
              /\ In t thresholds /\ r = eval_thr t.
Proof.
  intros Hin. unfold rbt, results_by_threshold. fold eval_thr.
  destruct (rbt_has_threshold thresholds thr Hin []) as [k [Hk Hq]].
  destruct (dict_get_is_Some Qeq_bool thr _ k Hk Hq) as [r Hr].
  exists r. destruct (dict_get_In _ _ _ _ Hr) as [k' [Hin' _]].
  destruct (rbt_entries _ _ _ _ Hin') as [[] | [t [Ht ->]]].
  exists t. auto.
Qed.

Lemma rbt_lookup_None (thresholds : list Q) thr :
  (forall t, In t thresholds -> Qeq_bool t thr = false) ->
  dict_get Qeq_bool thr (rbt thresholds) = None.
Proof.
  intros H. apply dict_get_None. intros k Hk.
  unfold rbt, results_by_threshold in Hk. fold eval_thr in Hk.
  destruct (rbt_keys _ _ _ Hk) as [[] | Hin]. now apply H.
Qed.

End PipelineFacts.

Section PipelineClaims.
Import Scenario.

Variable set_iter : list string -> list string.

Lemma dict_get_Qeq {V : Type} (k1 k2 : Q) (d : qdict V) :
  Qeq_bool k1 k2 = true -> dict_get Qeq_bool k1 d = dict_get Qeq_bool k2 d.
Proof.
  intros H. induction d as [|[k0 v0] t IH]; simpl; [reflexivity|].
  rewrite IH.
  destruct (Qeq_bool k0 k1) eqn:E1, (Qeq_bool k0 k2) eqn:E2; try reflexivity.
  - rewrite (Qeq_bool_trans _ _ _ E1 H) in E2. discriminate.
  - apply Qeq_bool_sym in H.
    rewrite (Qeq_bool_trans _ _ _ E2 H) in E1. discriminate.
Qed.

(** C5.  For every requested threshold, the mAP stored for it is the
    arithmetic mean of exactly the per-class AP values that are strictly
    greater than 0, and 0 when there is none; a requested class without a
    ground truth that counts has AP 0, so it is left out of the mean; and
    for the threshold 0.5 this mAP and these per-class values are the
    [mAP_50] and [per_class_ap] of the result. *)
Theorem mAP_is_mean_of_positive_aps
    (all_predictions : sdict (list Detection))
    (all_ground_truths : sdict (list GroundTruth))
    (class_names : list string) (iou_thresholds : option (list Q))
    (thr : Q) :
  let thresholds :=
    match iou_thresholds with None => [1 # 2] | Some l => l end in
  let res := evaluate_detections set_iter all_predictions all_ground_truths
                                 class_names iou_thresholds in
  In thr thresholds ->
  exists r,
    dict_get Qeq_bool thr
      (results_by_threshold set_iter all_predictions all_ground_truths
                            class_names thresholds) = Some r
    /\ thr_mAP r == arithmetic_mean (positive_aps (thr_per_class_ap r))
    /\ (positive_aps (thr_per_class_ap r) = [] -> thr_mAP r == 0)
    /\ (forall cn, In cn class_names ->
          snd (gather_class set_iter all_predictions all_ground_truths
                            thr cn) = 0%Z ->
          dict_get String.eqb cn (thr_per_class_ap r) = Some 0)
    /\ (Qeq_bool thr (1 # 2) = true ->
        mAP_50 res = thr_mAP r /\ per_class_ap res = thr_per_class_ap r).
Proof.
  intros thresholds res Hin.
  destruct (rbt_lookup set_iter all_predictions all_ground_truths class_names
              thresholds thr Hin) as [r [t [Hget [Ht Hr]]]].
  exists r. split; [exact Hget|].
  assert (Hmean : thr_mAP r
                  == arithmetic_mean (positive_aps (thr_per_class_ap r))).
  { subst r. rewrite eval_threshold_mAP. apply mAP_of_mean. }
  split; [exact Hmean|]. split; [|split].
  - intros He. rewrite Hmean, He. reflexivity.
  - intros cn Hcn Hz. subst r. apply eval_threshold_zero_gt; [exact Hcn|].
    rewrite (gather_total_gt_indep _ _ _ t thr). exact Hz.
  - intros Hhalf. subst res. unfold evaluate_detections.
    fold thresholds.
    destruct (aggregate_counts set_iter all_predictions all_ground_truths
                class_names) as [[a b] c].
    simpl. rewrite <- (dict_get_Qeq _ _ _ Hhalf), Hget. split; reflexivity.
Qed.

(** C10.  When the requested thresholds do not contain 0.5, the top-level
    [mAP_50] is 0 and [per_class_ap] and [pr_curves] are empty, whatever
    was computed for the requested thresholds. *)
Theorem no_half_threshold_gives_defaults
    (all_predictions : sdict (list Detection))
    (all_ground_truths : sdict (list GroundTruth))
    (class_names : list string) (iou_thresholds : list Q) :
  iou_thresholds <> [] ->
  (forall t, In t iou_thresholds -> Qeq_bool t (1 # 2) = false) ->
  let res := evaluate_detections set_iter all_predictions all_ground_truths
                                 class_names (Some iou_thresholds) in
  mAP_50 res = 0 /\ per_class_ap res = [] /\ pr_curves res = [].
Proof.
  intros _ Hno res. subst res. unfold evaluate_detections.
  destruct (aggregate_counts set_iter all_predictions all_ground_truths
              class_names) as [[a b] c].
  simpl. rewrite rbt_lookup_None by exact Hno. auto.
Qed.

End PipelineClaims.

Lemma mAP_is_mean_of_positive_aps_witness :
  exists r,
    dict_get Qeq_bool (3 # 4)
      (results_by_threshold Scenario.insertion_order
         [("img"%string, Scenario.preds_same_box)]
         [("img"%string, Scenario.gts_plain_cat)]
         ["cat"; "dog"]%string [1 # 2; 3 # 4]) = Some r
    /\ thr_mAP r == arithmetic_mean (positive_aps (thr_per_class_ap r)).
Proof.
  destruct (mAP_is_mean_of_positive_aps Scenario.insertion_order
              [("img"%string, Scenario.preds_same_box)]
              [("img"%string, Scenario.gts_plain_cat)]
              ["cat"; "dog"]%string (Some [1 # 2; 3 # 4]) (3 # 4))
    as [r [H1 [H2 _]]].
  - simpl. right. left. reflexivity.
  - exists r. split; assumption.
Defined.

Lemma no_half_threshold_gives_defaults_witness :
  let res := evaluate_detections Scenario.insertion_order
               [("img"%string, Scenario.preds_same_box)]
               [("img"%string, Scenario.gts_plain_cat)]
               ["cat"; "dog"]%string (Some [3 # 4]) in
  mAP_50 res = 0 /\ per_class_ap res = [] /\ pr_curves res = [].
Proof.
  apply (no_half_threshold_gives_defaults Scenario.insertion_order).
  - discriminate.
  - intros t [<- | []]. reflexivity.
Defined.

(* ================================================================== *)
(** * The pipeline and the iteration order of the image set *)
(* ================================================================== *)


Lemma set_order_perm it1 it2 l :
  set_order it1 -> set_order it2 -> Permutation (it1 l) (it2 l).
Proof.
  intros H1 H2. destruct (H1 l) as [N1 I1], (H2 l) as [N2 I2].
  apply NoDup_Permutation; [assumption | assumption|].
  intros x. rewrite I1, I2. reflexivity.
Qed.

Section OrderFacts.

Variable P : sdict (list Detection).
Variable G : sdict (list GroundTruth).

Lemma gather_image_split thr cn acc image_id :
  gather_image P G thr cn acc image_id
  = (fst acc ++ image_pairs P G thr cn image_id,
     (snd acc + image_n_gt P G thr cn image_id)%Z).
Proof.
  destruct acc as [cp total]. unfold image_pairs, image_n_gt, gather_image.
  destruct (match_predictions_to_gt _ _ _) as [flags n_gt]. simpl.
  reflexivity.
Qed.

Lemma gather_fold thr cn ids acc :
  fold_left (gather_image P G thr cn) ids acc
  = (fst acc ++ flat_map (image_pairs P G thr cn) ids,
     (snd acc + fold_right Z.add 0%Z (map (image_n_gt P G thr cn) ids))%Z).
Proof.
  revert acc. induction ids as [|id t IH]; intros acc; simpl.
  - rewrite app_nil_r, Z.add_0_r. now destruct acc.
  - rewrite IH, gather_image_split. simpl.
    rewrite <- app_assoc. f_equal. lia.
Qed.

Lemma sum_perm (l1 l2 : list Z) :
  Permutation l1 l2 -> fold_right Z.add 0%Z l1 = fold_right Z.add 0%Z l2.
Proof.
  induction 1; simpl; lia.
Qed.

Lemma gather_perm thr cn ids1 ids2 :
  Permutation ids1 ids2 ->
  Permutation (fst (fold_left (gather_image P G thr cn) ids1 ([], 0%Z)))
              (fst (fold_left (gather_image P G thr cn) ids2 ([], 0%Z)))
  /\ snd (fold_left (gather_image P G thr cn) ids1 ([], 0%Z))
     = snd (fold_left (gather_image P G thr cn) ids2 ([], 0%Z)).
Proof.
  intros Hp. rewrite !gather_fold. simpl. split.
  - now apply Permutation_flat_map.
  - apply sum_perm. now apply Permutation_map.
Qed.

End OrderFacts.

(** ** Sorting a list without ties *)

Section SortUnique.

Context {A : Type}.
Variable key : A -> Q.

Lemma strictly_desc_unique l1 l2 :
  strictly_desc key l1 -> strictly_desc key l2 -> Permutation l1 l2 -> l1 = l2.
Proof.
  revert l2. induction l1 as [|a t IH]; intros l2 H1 H2 Hp.
  - apply Permutation_nil in Hp. now subst.
  - destruct l2 as [|b u].
    + apply Permutation_sym, Permutation_nil in Hp. discriminate.
    + inversion H1 as [|? ? S1 F1]; subst.
      inversion H2 as [|? ? S2 F2]; subst.
      rewrite Forall_forall in F1, F2.
      assert (Hab : a = b).
      { assert (Ha : In a (b :: u))
          by (eapply Permutation_in; [exact Hp | now left]).
        assert (Hb : In b (a :: t))
          by (eapply Permutation_in;
              [apply Permutation_sym; exact Hp | now left]).
        destruct Ha as [-> | Ha]; [reflexivity|].
        destruct Hb as [-> | Hb]; [reflexivity|].
        specialize (F1 _ Hb). specialize (F2 _ Ha). lra. }
      subst b. f_equal. apply IH; [assumption | assumption|].
      now apply Permutation_cons_inv in Hp.
Qed.

End SortUnique.

Lemma no_ties_perm l1 l2 :
  Permutation l1 l2 -> no_ties l1 = true -> no_ties l2 = true.
Proof.
  induction 1 as [|x l l' Hp IH|x y l|l l' l'' _ IH1 _ IH2]; simpl.
  - auto.
  - rewrite !andb_true_iff, !forallb_forall. intros [Hx Hl]. split.
    + intros b Hb. apply Hx. eapply Permutation_in;
        [apply Permutation_sym; exact Hp | exact Hb].
    + auto.
  - rewrite !andb_true_iff. intros [[Hyx Hy] [Hx Hl]].
    repeat split; try assumption.
    apply negb_true_iff in Hyx. apply negb_true_iff.
    destruct (Qeq_bool (fst x) (fst y)) eqn:E; [|reflexivity].
    apply Qeq_bool_iff in E. symmetry in E. apply Qeq_bool_iff in E.
    congruence.
  - auto.
Qed.

Lemma sorted_no_ties_strict (l : list (Q * bool)) :
  sorted_desc fst l -> no_ties l = true -> strictly_desc fst l.
Proof.
  unfold sorted_desc, strictly_desc.
  induction 1 as [|a t Ht IH Ha]; simpl; intros Hn; [constructor|].
  apply andb_true_iff in Hn. destruct Hn as [Hn1 Hn2].
  constructor; [now apply IH|].
  rewrite forallb_forall in Hn1. rewrite Forall_forall in Ha |- *.
  intros b Hb. specialize (Ha b Hb). specialize (Hn1 b Hb).
  apply negb_true_iff in Hn1. apply Qeq_bool_neq in Hn1. simpl in Ha. lra.
Qed.

Lemma sort_desc_no_ties_perm (l1 l2 : list (Q * bool)) :
  Permutation l1 l2 -> no_ties l1 = true ->
  sort_desc fst l1 = sort_desc fst l2.
Proof.
  intros Hp Hn.
  apply (strictly_desc_unique fst).
  - apply sorted_no_ties_strict; [apply sort_desc_sorted|].
    apply (no_ties_perm l1); [|exact Hn].
    apply Permutation_sym, sort_desc_perm.
  - apply sorted_no_ties_strict; [apply sort_desc_sorted|].
    apply (no_ties_perm l1); [|exact Hn].
    eapply Permutation_trans; [exact Hp|].
    apply Permutation_sym, sort_desc_perm.
  - eapply Permutation_trans; [apply sort_desc_perm|].
    eapply Permutation_trans; [exact Hp|].
    apply Permutation_sym, sort_desc_perm.
Qed.

(** ** The pipeline under two iteration orders *)

Section TwoOrders.

Variables set_iter1 set_iter2 : list string -> list string.
Variable P : sdict (list Detection).
Variable G : sdict (list GroundTruth).

Hypothesis order1 : set_order set_iter1.
Hypothesis order2 : set_order set_iter2.

Lemma image_ids_perm :
  Permutation (image_ids set_iter1 P G) (image_ids set_iter2 P G).
Proof.
  unfold image_ids. now apply set_order_perm.
Qed.

Lemma total_gt_orders thr cn :
  snd (gather_class set_iter1 P G thr cn)
  = snd (gather_class set_iter2 P G thr cn).
Proof.
  unfold gather_class. apply gather_perm, image_ids_perm.
Qed.

Lemma pooled_ranking_orders thr cn :
  no_ties (fst (gather_class set_iter1 P G thr cn)) = true ->
  pooled_ranking set_iter1 P G thr cn = pooled_ranking set_iter2 P G thr cn.
Proof.
  intros Hn. unfold pooled_ranking.
  apply sort_desc_no_ties_perm; [|exact Hn].
  unfold gather_class. apply gather_perm, image_ids_perm.
Qed.

Lemma eval_class_orders thr acc cn :
  pooled_ranking set_iter1 P G thr cn = pooled_ranking set_iter2 P G thr cn ->
  eval_class set_iter1 P G thr acc cn = eval_class set_iter2 P G thr acc cn.
Proof.
  intros Hr. unfold eval_class. destruct acc as [per_class curves].
  rewrite Hr, total_gt_orders. reflexivity.
Qed.

Lemma eval_threshold_orders class_names thr :
  (forall cn, In cn class_names ->
     pooled_ranking set_iter1 P G thr cn
     = pooled_ranking set_iter2 P G thr cn) ->
  eval_threshold set_iter1 P G class_names thr
  = eval_threshold set_iter2 P G class_names thr.
Proof.
  intros H. unfold eval_threshold.
  assert (E : forall acc,
             fold_left (eval_class set_iter1 P G thr) class_names acc
             = fold_left (eval_class set_iter2 P G thr) class_names acc).
  { induction class_names as [|cn t IH]; intros acc; simpl; [reflexivity|].
    rewrite (eval_class_orders thr acc cn) by (apply H; now left).
    apply IH. intros c Hc. apply H. now right. }
  now rewrite E.
Qed.

Lemma results_by_threshold_orders class_names thresholds :
  (forall thr cn, In thr thresholds -> In cn class_names ->
     pooled_ranking set_iter1 P G thr cn
     = pooled_ranking set_iter2 P G thr cn) ->
  results_by_threshold set_iter1 P G class_names thresholds
  = results_by_threshold set_iter2 P G class_names thresholds.
Proof.
  intros H. unfold results_by_threshold.
  generalize (@nil (Q * ThresholdResult)).
  induction thresholds as [|thr t IH]; intros acc; simpl; [reflexivity|].
  rewrite (eval_threshold_orders class_names thr)
    by (intros cn Hc; apply H; [now left | exact Hc]).
  apply IH. intros thr' cn Ht Hc. apply H; [now right | exact Hc].
Qed.

Lemma aggregate_image_split cn acc image_id :
  aggregate_image P G cn acc image_id
  = add3 acc (aggregate_image P G cn (0%Z, 0%Z, 0%Z) image_id).
Proof.
  destruct acc as [[a b] c]. unfold aggregate_image.
  destruct (match_predictions_to_gt _ _ _) as [tp_f n_g]. reflexivity.
Qed.

Lemma aggregate_fold cn ids acc :
  fold_left (aggregate_image P G cn) ids acc
  = add3 acc (fold_right add3 (0%Z, 0%Z, 0%Z)
                (map (aggregate_image P G cn (0%Z, 0%Z, 0%Z)) ids)).
Proof.
  revert acc. induction ids as [|id t IH]; intros acc;
    cbn [fold_left map fold_right].
  - destruct acc as [[a b] c]. simpl. now rewrite !Z.add_0_r.
  - rewrite IH, aggregate_image_split.
    destruct acc as [[a b] c].
    destruct (aggregate_image P G cn (0%Z, 0%Z, 0%Z) id) as [[a1 b1] c1].
    destruct (fold_right add3 _ _) as [[a2 b2] c2].
    simpl. f_equal; [f_equal|]; lia.
Qed.

Lemma add3_perm (l1 l2 : list (Z * Z * Z)) :
  Permutation l1 l2 ->
  fold_right add3 (0%Z, 0%Z, 0%Z) l1 = fold_right add3 (0%Z, 0%Z, 0%Z) l2.
Proof.
  induction 1 as [|x l l' _ IH|x y l|l l' l'' _ IH1 _ IH2]; simpl.
  - reflexivity.
  - now rewrite IH.
  - destruct x as [[a b] c], y as [[a1 b1] c1].
    destruct (fold_right add3 _ l) as [[a2 b2] c2].
    simpl. f_equal; [f_equal|]; lia.
  - congruence.
Qed.

Lemma aggregate_counts_orders class_names :
  aggregate_counts set_iter1 P G class_names
  = aggregate_counts set_iter2 P G class_names.
Proof.
  unfold aggregate_counts. generalize (0%Z, 0%Z, 0%Z).
  induction class_names as [|cn t IH]; intros acc; simpl; [reflexivity|].
  rewrite IH. f_equal. rewrite !aggregate_fold. f_equal.
  apply add3_perm, Permutation_map, image_ids_perm.
Qed.

End TwoOrders.

(** C6 (amended).  Two calls on identical inputs return identical
    results when the set of image ids is iterated in the same order in
    both, and, under any two iteration orders, when no requested class has
    two pooled predictions of equal confidence.  The pooled ranking is
    ordered by decreasing confidence, and predictions of equal confidence
    stay in the order in which they were gathered, which is the iteration
    order of the set. *)
Theorem evaluate_detections_across_set_orders
    (set_iter1 set_iter2 : list string -> list string)
    (P : sdict (list Detection)) (G : sdict (list GroundTruth))
    (class_names : list string) (iou_thresholds : option (list Q)) :
  set_order set_iter1 -> set_order set_iter2 ->
  (set_iter1 (dict_keys P ++ dict_keys G)
   = set_iter2 (dict_keys P ++ dict_keys G)
   \/ forall thr cn,
        In thr (thresholds_of iou_thresholds) -> In cn class_names ->
        no_ties (fst (gather_class set_iter1 P G thr cn)) = true) ->
  evaluate_detections set_iter1 P G class_names iou_thresholds
  = evaluate_detections set_iter2 P G class_names iou_thresholds
  /\ forall thr cn,
       sorted_desc fst (pooled_ranking set_iter1 P G thr cn)
       /\ forall c,
            with_key fst c (pooled_ranking set_iter1 P G thr cn)
            = with_key fst c (fst (gather_class set_iter1 P G thr cn)).
Proof.
  intros O1 O2 H. split.
  - assert (Hr : forall thr cn,
               In thr (thresholds_of iou_thresholds) -> In cn class_names ->
               pooled_ranking set_iter1 P G thr cn
               = pooled_ranking set_iter2 P G thr cn).
    { intros thr cn Ht Hc. destruct H as [Hsame | Hno].
      - unfold pooled_ranking, gather_class, image_ids. now rewrite Hsame.
      - apply pooled_ranking_orders; auto. }
    unfold evaluate_detections. fold (thresholds_of iou_thresholds).
    rewrite (results_by_threshold_orders set_iter1 set_iter2 P G O1 O2
               class_names (thresholds_of iou_thresholds) Hr).
    rewrite (aggregate_counts_orders set_iter1 set_iter2 P G O1 O2).
    reflexivity.
  - intros thr cn. split.
    + apply sort_desc_sorted.
    + intros c. apply sort_desc_stable.
Qed.

Lemma insertion_order_set_order : set_order Scenario.insertion_order.
Proof.
  intros l. unfold Scenario.insertion_order. split.
  - apply NoDup_nodup.
  - intros x. apply nodup_In.
Qed.

Lemma reversed_order_set_order : set_order Scenario.reversed_order.
Proof.
  intros l. unfold Scenario.reversed_order. split.
  - apply NoDup_rev, NoDup_nodup.
  - intros x. rewrite <- in_rev. apply nodup_In.
Qed.

Lemma evaluate_detections_across_set_orders_witness :
  evaluate_detections Scenario.insertion_order Scenario.preds_untied
                      Scenario.gts_img1_cat ["cat"%string] None
  = evaluate_detections Scenario.reversed_order Scenario.preds_untied
                        Scenario.gts_img1_cat ["cat"%string] None.
Proof.
  apply (evaluate_detections_across_set_orders Scenario.insertion_order
           Scenario.reversed_order Scenario.preds_untied
           Scenario.gts_img1_cat ["cat"%string] None).
  - exact insertion_order_set_order.
  - exact reversed_order_set_order.
  - right. intros thr cn [<- | []] [<- | []]. reflexivity.
Defined.

(** C6, as stated, fails.  With two predictions of equal confidence
    in two images, one a true positive and one a false positive, the
    result depends on the order in which the set of image ids is
    iterated: the mAP is 1/2 in one order and 1 in the other. *)
Lemma equal_confidence_tie_follows_set_order :
  set_order Scenario.insertion_order
  /\ set_order Scenario.reversed_order
  /\ mAP_50 (evaluate_detections Scenario.insertion_order
               Scenario.preds_tied Scenario.gts_img1_cat ["cat"%string]
               None) == 1 # 2
  /\ mAP_50 (evaluate_detections Scenario.reversed_order
               Scenario.preds_tied Scenario.gts_img1_cat ["cat"%string]
               None) == 1
  /\ evaluate_detections Scenario.insertion_order Scenario.preds_tied
                         Scenario.gts_img1_cat ["cat"%string] None
     <> evaluate_detections Scenario.reversed_order Scenario.preds_tied
                            Scenario.gts_img1_cat ["cat"%string] None.
Proof.
  split; [exact insertion_order_set_order|].
  split; [exact reversed_order_set_order|].
  split; [vm_compute; reflexivity|].
  split; [vm_compute; reflexivity|].
  intros H. apply (f_equal mAP_50) in H. vm_compute in H. discriminate.
Qed.

(* ================================================================== *)
(** * Properties of the inference store *)
(* ================================================================== *)

Section StoreFacts.

Variable set_iter : list string -> list string.

Lemma pipeline_output_ext s1 s2 m :
  all_predictions s1 = all_predictions s2 ->
  all_ground_truths s1 = all_ground_truths s2 ->
  pipeline_output set_iter s1 m = pipeline_output set_iter s2 m.
Proof.
  intros Hp Hg. unfold pipeline_output, preds_of, gts_of.
  now rewrite Hp, Hg.
Qed.

(** A store that differs only outside the maps and the cache keeps the
    invariant. *)
Lemma store_inv_ext s1 s2 :
  all_predictions s1 = all_predictions s2 ->
  all_ground_truths s1 = all_ground_truths s2 ->
  eval_cache s1 = eval_cache s2 ->
  store_inv set_iter s1 -> store_inv set_iter s2.
Proof.
  intros Hp Hg Hc [Hnd [Hk Hv]]. unfold store_inv, cache_valid.
  rewrite <- Hc, <- Hp, <- Hg. split; [exact Hnd|]. split; [exact Hk|].
  intros m r Hget. rewrite (Hv m r Hget).
  now apply pipeline_output_ext.
Qed.

Lemma new_store_inv mh : store_inv set_iter (new_store mh).
Proof.
  split; [constructor|]. split.
  - intros m. cbn [new_store all_predictions all_ground_truths dict_get].
    destruct (String.eqb "yolov5" m); [intros _; discriminate|].
    destruct (String.eqb "detr" m); [intros _; discriminate | congruence].
  - intros m r. simpl. discriminate.
Qed.

(** A successful first-iteration write leaves no cached result for its
    model. *)
Lemma record_inference_invalidates model image_id detections ground_truths
    latency_ms total_iterations s s' :
  NoDup (dict_keys (eval_cache s)) ->
  record_inference model image_id detections ground_truths latency_ms 1
                   total_iterations s = (s', inr tt) ->
  dict_get String.eqb model (eval_cache s') = None.
Proof.
  intros Hnd. unfold record_inference, bind, subscript, modify, ret. simpl.
  destruct (dict_get String.eqb model (latency_history s)); [|discriminate].
  simpl.
  destruct (dict_get String.eqb model (fps_history s)); [|discriminate].
  simpl.
  destruct (dict_get String.eqb model (all_predictions s)); [|discriminate].
  simpl.
  destruct (dict_get String.eqb model (all_ground_truths s)); [|discriminate].
  simpl. intros [= <-]. simpl. now apply sdict_get_pop_same.
Qed.

Lemma record_inference_inv model image_id detections ground_truths
    latency_ms iteration total_iterations s :
  store_inv set_iter s ->
  store_inv set_iter
    (fst (record_inference model image_id detections ground_truths
                           latency_ms iteration total_iterations s)).
Proof.
  intros Hinv. pose proof Hinv as [Hnd [Hk Hv]].
  unfold record_inference, bind, subscript, modify, ret.
  destruct (iteration =? 1)%Z; simpl.
  - destruct (dict_get String.eqb model (latency_history s)); simpl;
      [|eapply store_inv_ext; [| | |exact Hinv]; reflexivity].
    destruct (dict_get String.eqb model (fps_history s)); simpl;
      [|eapply store_inv_ext; [| | |exact Hinv]; reflexivity].
    destruct (dict_get String.eqb model (all_predictions s)) as [pm|] eqn:Ep;
      simpl;
      [|eapply store_inv_ext; [| | |exact Hinv]; reflexivity].
    destruct (dict_get String.eqb model (all_ground_truths s)) as [gm|] eqn:Eg;
      simpl.
    + split; [|split]; simpl.
      * apply sdict_pop_NoDup, Hnd.
      * intros m. destruct (string_dec model m) as [<- | Hne].
        -- intros _. rewrite sdict_get_set_same. discriminate.
        -- rewrite !sdict_get_set_other by exact Hne. apply Hk.
      * intros m r. simpl.
        destruct (string_dec model m) as [<- | Hne].
        -- rewrite sdict_get_pop_same by exact Hnd. discriminate.
        -- rewrite sdict_get_pop_other by exact Hne. intros Hget.
           rewrite (Hv m r Hget).
           unfold pipeline_output, preds_of, gts_of, dict_get_default. simpl.
           now rewrite !sdict_get_set_other by exact Hne.
    + exfalso. apply (Hk model); [rewrite Ep; discriminate | exact Eg].
  - destruct (dict_get String.eqb model (latency_history s)); simpl;
      eapply store_inv_ext; [| | |exact Hinv| | | |exact Hinv]; reflexivity.
Qed.

(** What [get_evaluation] does, case by case. *)
Lemma get_evaluation_cases model s :
  match dict_get String.eqb model (eval_cache s) with
  | Some cached => get_evaluation set_iter model s = (s, inr (Some cached))
  | None =>
      match preds_of s model with
      | [] => get_evaluation set_iter model s = (s, inr None)
      | _ :: _ =>
          get_evaluation set_iter model s =
            (set_eval_cache s
               (dict_set String.eqb model (pipeline_output set_iter s model)
                         (eval_cache s)),
             inr (Some (pipeline_output set_iter s model)))
      end
  end.
Proof.
  unfold get_evaluation, bind, read, modify, ret. simpl.
  destruct (dict_get String.eqb model (eval_cache s)); [reflexivity|].
  simpl. destruct (preds_of s model); reflexivity.
Qed.

Lemma get_evaluation_inv model s :
  store_inv set_iter s ->
  store_inv set_iter (fst (get_evaluation set_iter model s)).
Proof.
  intros Hinv. pose proof Hinv as [Hnd [Hk Hv]].
  pose proof (get_evaluation_cases model s) as Hc.
  destruct (dict_get String.eqb model (eval_cache s)) as [cached|];
    [now rewrite Hc|].
  destruct (preds_of s model) eqn:Ep; rewrite Hc; [exact Hinv|].
  simpl. split; [|split]; simpl.
  - apply sdict_set_NoDup, Hnd.
  - exact Hk.
  - intros m r. simpl. destruct (string_dec model m) as [<- | Hne].
    + rewrite sdict_get_set_same. intros [= <-].
      now apply pipeline_output_ext.
    + rewrite sdict_get_set_other by exact Hne. intros Hget.
      rewrite (Hv m r Hget). now apply pipeline_output_ext.
Qed.

Lemma run_calls_inv calls :
  forall s, store_inv set_iter s ->
            store_inv set_iter (run_calls set_iter calls s).
Proof.
  induction calls as [|c cs IH]; intros s Hinv; simpl; [exact Hinv|].
  apply IH. destruct c; simpl.
  - now apply record_inference_inv.
  - now apply get_evaluation_inv.
Qed.

(** A read serves the pipeline output on the current maps, and leaves the
    maps as they are. *)
Lemma get_evaluation_fresh model s s' r :
  store_inv set_iter s ->
  get_evaluation set_iter model s = (s', inr (Some r)) ->
  r = pipeline_output set_iter s model
  /\ all_predictions s' = all_predictions s
  /\ all_ground_truths s' = all_ground_truths s.
Proof.
  intros [Hnd [Hk Hv]] Hget.
  pose proof (get_evaluation_cases model s) as Hc.
  destruct (dict_get String.eqb model (eval_cache s)) as [cached|] eqn:Ec.
  - rewrite Hc in Hget. injection Hget as <- <-. auto.
  - destruct (preds_of s model); rewrite Hc in Hget; [discriminate|].
    injection Hget as <- <-. auto.
Qed.

(** A second read right after a read returns the same, and changes
    nothing. *)
Lemma get_evaluation_twice model s s' out :
  get_evaluation set_iter model s = (s', out) ->
  get_evaluation set_iter model s' = (s', out).
Proof.
  intros Hget.
  pose proof (get_evaluation_cases model s) as Hc.
  destruct (dict_get String.eqb model (eval_cache s)) as [cached|] eqn:Ec.
  - rewrite Hc in Hget. injection Hget as <- <-. exact Hc.
  - destruct (preds_of s model) eqn:Ep; rewrite Hc in Hget;
      injection Hget as <- <-.
    + pose proof (get_evaluation_cases model s) as Hc'.
      rewrite Ec, Ep in Hc'. exact Hc'.
    + pose proof (get_evaluation_cases model
                    (set_eval_cache s
                       (dict_set String.eqb model
                          (pipeline_output set_iter s model) (eval_cache s))))
        as Hc'.
      simpl in Hc'. rewrite sdict_get_set_same in Hc'. exact Hc'.
Qed.

End StoreFacts.

Section StoreClaims.

Variable set_iter : list string -> list string.

(** C4.  After any sequence of [record_inference] and [get_evaluation]
    calls on a new store, a result returned by [get_evaluation] is the
    output of the pipeline on the maps the store holds for the model at
    that moment, and the read leaves these maps as they are; a successful
    first-iteration write leaves no cached result for its model; and a
    second [get_evaluation] right after the first returns the same and
    changes nothing. *)
Theorem cache_never_stale (max_history : nat) (calls : list Call)
    (model : string) :
  let s := run_calls set_iter calls (new_store max_history) in
  (forall s' r,
     get_evaluation set_iter model s = (s', inr (Some r)) ->
     r = evaluate_detections set_iter (preds_of s model) (gts_of s model)
                             VOC_CLASSES (Some [1 # 2])
     /\ preds_of s' model = preds_of s model
     /\ gts_of s' model = gts_of s model)
  /\ (forall image_id detections ground_truths latency_ms total_iterations s1,
        record_inference model image_id detections ground_truths latency_ms
                         1 total_iterations s = (s1, inr tt) ->
        dict_get String.eqb model (eval_cache s1) = None)
  /\ (forall s' out,
        get_evaluation set_iter model s = (s', out) ->
        get_evaluation set_iter model s' = (s', out)).
Proof.
  intros s.
  assert (Hinv : store_inv set_iter s)
    by (apply run_calls_inv, new_store_inv).
  split; [|split].
  - intros s' r Hget.
    destruct (get_evaluation_fresh set_iter model s s' r Hinv Hget)
      as [Hr [Hp Hg]].
    split; [exact Hr|]. unfold preds_of, gts_of. now rewrite Hp, Hg.
  - intros image_id detections ground_truths latency_ms total_iterations s1.
    apply record_inference_invalidates. apply Hinv.
  - intros s' out. apply get_evaluation_twice.
Qed.

End StoreClaims.

Lemma cache_never_stale_witness :
  let s := run_calls Scenario.insertion_order
             Scenario.calls_write_read_write (new_store 200) in
  pipeline_output Scenario.insertion_order s "yolov5"
  = evaluate_detections Scenario.insertion_order
      (preds_of s "yolov5") (gts_of s "yolov5") VOC_CLASSES (Some [1 # 2]).
Proof.
  intros s.
  destruct (cache_never_stale Scenario.insertion_order 200
              Scenario.calls_write_read_write "yolov5") as [H _].
  apply (H (fst (get_evaluation Scenario.insertion_order "yolov5" s))
           (pipeline_output Scenario.insertion_order s "yolov5")).
  vm_compute. reflexivity.
Defined.

(* ================================================================== *)
(** * Properties of the telemetry broadcast *)
(* ================================================================== *)

Section TelemetryFacts.

Variable Event : Type.
Variable event : Event.

Lemma heap_set_same (h : Heap Event) r q : heap_set h r q r = q.
Proof. unfold heap_set. now rewrite Nat.eqb_refl. Qed.

Lemma heap_set_other (h : Heap Event) r q r' :
  r' <> r -> heap_set h r q r' = h r'.
Proof.
  intros Hne. unfold heap_set.
  destruct (Nat.eqb r' r) eqn:E; [|reflexivity].
  apply Nat.eqb_eq in E. contradiction.
Qed.

(** The first loop: what the heap and [dead] are after the queues of
    [subs] have been tried, none of them twice. *)
Lemma broadcast_loop (subs : list nat) :
  NoDup subs ->
  forall (h : Heap Event) (dead : list nat),
    let res := fold_left (broadcast_step event) subs (h, dead) in
    snd res = dead ++ filter (fun q => full (h q)) subs
    /\ (forall q, In q subs -> full (h q) = false ->
          fst res q = {| maxsize := maxsize (h q);
                         items := items (h q) ++ [event] |})
    /\ (forall q, In q subs -> full (h q) = true -> fst res q = h q)
    /\ (forall q, ~ In q subs -> fst res q = h q).
Proof.
  induction subs as [|a t IH]; intros Hnd h dead; simpl.
  - rewrite app_nil_r. repeat split; auto; intros q [].
  - inversion Hnd as [|? ? Hnotin Hnd']; subst.
    unfold broadcast_step at 2. unfold put_nowait.
    destruct (full (h a)) eqn:Ea.
    + destruct (IH Hnd' h (dead ++ [a])) as [H1 [H2 [H3 H4]]].
      split; [|split; [|split]].
      * rewrite H1, <- app_assoc. reflexivity.
      * intros q [<- | Hq] Hf; [congruence | now apply H2].
      * intros q [<- | Hq] Hf; [now apply H4 | now apply H3].
      * intros q Hq. apply H4. tauto.
    + set (h1 := heap_set h a {| maxsize := maxsize (h a);
                                 items := items (h a) ++ [event] |}).
      destruct (IH Hnd' h1 dead) as [H1 [H2 [H3 H4]]].
      assert (Hsame : forall q, In q t -> h1 q = h q).
      { intros q Hq. apply heap_set_other. intros ->. contradiction. }
      split; [|split; [|split]].
      * rewrite H1. f_equal. apply filter_ext_in. intros q Hq.
        now rewrite Hsame.
      * intros q [<- | Hq] Hf.
        -- rewrite H4 by exact Hnotin. apply heap_set_same.
        -- rewrite H2; [now rewrite Hsame | exact Hq | now rewrite Hsame].
      * intros q [<- | Hq] Hf; [congruence|].
        rewrite H3; [now apply Hsame | exact Hq | now rewrite Hsame].
      * intros q Hq. rewrite H4 by tauto. apply heap_set_other.
        intros ->. apply Hq. now left.
Qed.

Lemma list_remove_filter x (l : list nat) :
  NoDup l -> list_remove x l = filter (fun y => negb (Nat.eqb y x)) l.
Proof.
  induction l as [|y t IH]; intros Hnd; simpl; [reflexivity|].
  inversion Hnd as [|? ? Hnotin Hnd']; subst.
  destruct (Nat.eqb y x) eqn:E; simpl.
  - apply Nat.eqb_eq in E. subst y.
    symmetry. rewrite <- (filter_ext_in (fun _ => true)).
    + clear. induction t as [|z t IH]; simpl; [reflexivity | now rewrite IH].
    + intros z Hz. destruct (Nat.eqb z x) eqn:E'; [|reflexivity].
      apply Nat.eqb_eq in E'. subst z. contradiction.
  - now rewrite IH.
Qed.

Lemma NoDup_filter (f : nat -> bool) (l : list nat) :
  NoDup l -> NoDup (filter f l).
Proof.
  induction l as [|y t IH]; intros Hnd; simpl; [constructor|].
  inversion Hnd as [|? ? Hnotin Hnd']; subst.
  destruct (f y); [|now apply IH].
  constructor; [|now apply IH].
  intros Hin. apply filter_In in Hin. tauto.
Qed.

(** The second loop removes exactly the members of [dead]. *)
Lemma remove_dead (dead : list nat) :
  forall l, NoDup l ->
    fold_left (fun subs q => list_remove q subs) dead l
    = filter (fun y => negb (existsb (Nat.eqb y) dead)) l.
Proof.
  induction dead as [|d ds IH]; intros l Hnd; simpl.
  - symmetry. clear. induction l as [|z t IH]; simpl;
      [reflexivity | now rewrite IH].
  - rewrite IH by (rewrite list_remove_filter by exact Hnd;
                   now apply NoDup_filter).
    rewrite list_remove_filter by exact Hnd.
    clear. induction l as [|z t IH]; simpl; [reflexivity|].
    destruct (Nat.eqb z d); simpl; [exact IH|].
    destruct (existsb (Nat.eqb z) ds); simpl; [exact IH | now rewrite IH].
Qed.

End TelemetryFacts.

Section TelemetryClaims.

Variable Event : Type.

(** C9.  [broadcast_event] goes once through the subscribers and returns:
    it waits for no consumer.  Every subscriber whose queue has room gets
    the event at the end of its queue; every subscriber whose queue is
    full is removed from the subscribers, its queue untouched and no
    error raised; nothing else changes. *)
Theorem broadcast_event_drops_full_subscribers
    (h : Heap Event) (s : InferenceStore) (event : Event) :
  NoDup (subscribers s) ->
  let h' := fst (broadcast_event h s event) in
  let s' := snd (broadcast_event h s event) in
  subscribers s' = filter (fun q => negb (full (h q))) (subscribers s)
  /\ (forall q, In q (subscribers s) -> full (h q) = false ->
        In q (subscribers s')
        /\ items (h' q) = items (h q) ++ [event]
        /\ maxsize (h' q) = maxsize (h q))
  /\ (forall q, In q (subscribers s) -> full (h q) = true ->
        ~ In q (subscribers s') /\ h' q = h q)
  /\ (forall q, ~ In q (subscribers s) -> h' q = h q)
  /\ s' = set_subscribers s (subscribers s').
Proof.
  intros Hnd h' s'.
  destruct (broadcast_loop Event event (subscribers s) Hnd h [])
    as [H1 [H2 [H3 H4]]].
  unfold broadcast_event in h', s'.
  destruct (fold_left (broadcast_step event) (subscribers s) (h, []))
    as [hf dead] eqn:E.
  simpl in H1, H2, H3, H4, h', s'.
  assert (Hs : subscribers s'
               = filter (fun q => negb (full (h q))) (subscribers s)).
  { subst s'. simpl. rewrite remove_dead by exact Hnd.
    apply filter_ext_in. intros q Hq. f_equal. rewrite H1.
    destruct (full (h q)) eqn:Ef.
    - apply existsb_exists. exists q. rewrite Nat.eqb_refl.
      split; [|reflexivity]. apply filter_In. auto.
    - destruct (existsb (Nat.eqb q) (filter (fun q0 => full (h q0))
                                            (subscribers s))) eqn:Ex;
        [|reflexivity].
      apply existsb_exists in Ex. destruct Ex as [x [Hx Hqx]].
      apply Nat.eqb_eq in Hqx. subst x. apply filter_In in Hx.
      destruct Hx as [_ Hx]. congruence. }
  split; [exact Hs|]. split; [|split; [|split]].
  - intros q Hq Hf. split.
    + rewrite Hs. apply filter_In. rewrite Hf. auto.
    + subst h'. rewrite (H2 q Hq Hf). auto.
  - intros q Hq Hf. split.
    + rewrite Hs. intros Hin. apply filter_In in Hin.
      rewrite Hf in Hin. destruct Hin as [_ Hin]. discriminate.
    + subst h'. now apply H3.
  - intros q Hq. subst h'. now apply H4.
  - subst s'. reflexivity.
Qed.

End TelemetryClaims.

Lemma broadcast_event_drops_full_subscribers_witness :
  subscribers (snd (broadcast_event Scenario.two_queues
                      Scenario.store_two_subscribers 9%nat)) = [1%nat].
Proof.
  destruct (broadcast_event_drops_full_subscribers nat Scenario.two_queues
              Scenario.store_two_subscribers 9%nat) as [H _].
  - vm_compute. repeat constructor; simpl; intuition discriminate.
  - exact H.
Defined.

(* ================================================================== *)
(** * The pipeline reads the maps through the image ids only *)
(* ================================================================== *)

Section PipelineSim.

Variables set_iter1 set_iter2 : list string -> list string.
Variables P1 P2 : sdict (list Detection).
Variables G1 G2 : sdict (list GroundTruth).

Hypothesis same_images :
  Forall2 (same_image P1 G1 P2 G2)
          (image_ids set_iter1 P1 G1) (image_ids set_iter2 P2 G2).

Lemma fold_left_Forall2 {A B C : Type} (f : A -> B -> A) (g : A -> C -> A)
    (l1 : list B) (l2 : list C) :
  Forall2 (fun b c => forall a, f a b = g a c) l1 l2 ->
  forall a, fold_left f l1 a = fold_left g l2 a.
Proof.
  induction 1 as [|b c l1 l2 Hbc _ IH]; intros a; simpl.
  - reflexivity.
  - rewrite Hbc. apply IH.
Qed.

Lemma fold_left_pointwise {A B : Type} (f g : A -> B -> A) (l : list B) :
  (forall a b, f a b = g a b) ->
  forall a, fold_left f l a = fold_left g l a.
Proof.
  intros H. induction l as [|b t IH]; intros a; simpl.
  - reflexivity.
  - rewrite H. apply IH.
Qed.

Lemma gather_image_sim thr cn id1 id2 acc :
  same_image P1 G1 P2 G2 id1 id2 ->
  gather_image P1 G1 thr cn acc id1 = gather_image P2 G2 thr cn acc id2.
Proof.
  intros [Hp Hg].
  unfold gather_image, class_preds_of_image, class_gts_of_image.
  now rewrite Hp, Hg.
Qed.

Lemma gather_class_sim thr cn :
  gather_class set_iter1 P1 G1 thr cn = gather_class set_iter2 P2 G2 thr cn.
Proof.
  unfold gather_class. apply fold_left_Forall2.
  eapply Forall2_impl; [|exact same_images].
  intros id1 id2 H acc. now apply gather_image_sim.
Qed.

Lemma eval_class_sim thr acc cn :
  eval_class set_iter1 P1 G1 thr acc cn = eval_class set_iter2 P2 G2 thr acc cn.
Proof.
  unfold eval_class, pooled_ranking. now rewrite gather_class_sim.
Qed.

Lemma eval_threshold_sim class_names thr :
  eval_threshold set_iter1 P1 G1 class_names thr
  = eval_threshold set_iter2 P2 G2 class_names thr.
Proof.
  unfold eval_threshold.
  rewrite (fold_left_pointwise _ (eval_class set_iter2 P2 G2 thr));
    [reflexivity|].
  intros acc cn. apply eval_class_sim.
Qed.

Lemma results_by_threshold_sim class_names thresholds :
  results_by_threshold set_iter1 P1 G1 class_names thresholds
  = results_by_threshold set_iter2 P2 G2 class_names thresholds.
Proof.
  unfold results_by_threshold. apply fold_left_pointwise.
  intros d t. now rewrite eval_threshold_sim.
Qed.

Lemma aggregate_image_sim cn id1 id2 acc :
  same_image P1 G1 P2 G2 id1 id2 ->
  aggregate_image P1 G1 cn acc id1 = aggregate_image P2 G2 cn acc id2.
Proof.
  intros [Hp Hg].
  unfold aggregate_image, class_preds_of_image, class_gts_of_image.
  now rewrite Hp, Hg.
Qed.

Lemma aggregate_counts_sim class_names :
  aggregate_counts set_iter1 P1 G1 class_names
  = aggregate_counts set_iter2 P2 G2 class_names.
Proof.
  unfold aggregate_counts. apply fold_left_pointwise.
  intros acc cn. apply fold_left_Forall2.
  eapply Forall2_impl; [|exact same_images].
  intros id1 id2 H a. now apply aggregate_image_sim.
Qed.

Lemma evaluate_detections_sim class_names iou_thresholds :
  dict_values P1 = dict_values P2 ->
  dict_values G1 = dict_values G2 ->
  evaluate_detections set_iter1 P1 G1 class_names iou_thresholds
  = evaluate_detections set_iter2 P2 G2 class_names iou_thresholds.
Proof.
  intros Hp Hg. unfold evaluate_detections.
  now rewrite results_by_threshold_sim, aggregate_counts_sim, Hp, Hg.
Qed.

End PipelineSim.

Section ScenarioClaims.
Import Scenario.

Variable set_iter : list string -> list string.

(** The pipeline on one image does not depend on the name of the image. *)
Lemma evaluate_single_image (image_id : string)
    (preds : list Detection) (gts : list GroundTruth)
    (class_names : list string) (iou_thresholds : option (list Q)) :
  set_iter [image_id; image_id] = [image_id] ->
  evaluate_detections set_iter [(image_id, preds)] [(image_id, gts)]
                      class_names iou_thresholds
  = evaluate_detections (fun _ => ["img"%string])
      [("img"%string, preds)] [("img"%string, gts)]
      class_names iou_thresholds.
Proof.
  intros Hset. apply evaluate_detections_sim; [|reflexivity|reflexivity].
  unfold image_ids. cbn [dict_keys map fst app]. rewrite Hset.
  constructor; [|constructor].
  unfold same_image, dict_get_default. cbn [dict_get].
  now rewrite !String.eqb_refl.
Qed.

(** C8.  In a store that holds, for a model, exactly one image with the
    single ground truth [{class: "cat", bbox: [0,0,10,10]}], not
    difficult, and the single prediction
    [{class: "cat", confidence: 0.9, bbox: [0,0,10,10]}], the evaluation
    (at threshold 0.5) gives AP 1 for "cat", aggregate precision 1 and
    aggregate recall 1. *)
Theorem one_cat_image_scores_one (max_history : nat) (calls : list Call)
    (model image_id : string) :
  let s := run_calls set_iter calls (new_store max_history) in
  set_iter [image_id; image_id] = [image_id] ->
  preds_of s model = [(image_id, [stored_cat])] ->
  gts_of s model = [(image_id, [stored_cat_gt])] ->
  exists s' r ap,
    get_evaluation set_iter model s = (s', inr (Some r))
    /\ iou_thresholds_used r = [1 # 2]
    /\ dict_get String.eqb "cat"%string (per_class_ap r) = Some ap
    /\ ap == 1
    /\ aggregate_precision r == 1
    /\ aggregate_recall r == 1.
Proof.
  intros s Hset Hp Hg.
  assert (Hinv : store_inv set_iter s)
    by (apply run_calls_inv, new_store_inv).
  assert (Hout : pipeline_output set_iter s model
                 = evaluate_detections (fun _ => ["img"%string])
                     [("img"%string, [stored_cat])]
                     [("img"%string, [stored_cat_gt])]
                     VOC_CLASSES (Some [1 # 2])).
  { unfold pipeline_output. rewrite Hp, Hg.
    now apply evaluate_single_image. }
  assert (Hget : exists s', get_evaluation set_iter model s
                            = (s', inr (Some (pipeline_output set_iter s model)))).
  { pose proof (get_evaluation_cases set_iter model s) as Hc.
    destruct (dict_get String.eqb model (eval_cache s)) as [cached|] eqn:Ec.
    - exists s. rewrite Hc. destruct Hinv as [_ [_ Hv]].
      now rewrite (Hv model cached Ec).
    - rewrite Hp in Hc. eexists. exact Hc. }
  destruct Hget as [s' Hget]. rewrite Hout in Hget.
  exists s'. eexists. exists 1. split; [exact Hget|].
  vm_compute. repeat split.
Qed.

End ScenarioClaims.

Lemma one_cat_image_scores_one_witness :
  exists s' r ap,
    get_evaluation Scenario.insertion_order "yolov5"
      (run_calls Scenario.insertion_order
         [CallRecordInference "yolov5" "img1" [Scenario.raw_cat]
            [Scenario.raw_cat_gt] 12 1%Z 1%Z]
         (new_store 200)) = (s', inr (Some r))
    /\ iou_thresholds_used r = [1 # 2]
    /\ dict_get String.eqb "cat"%string (per_class_ap r) = Some ap
    /\ ap == 1
    /\ aggregate_precision r == 1
    /\ aggregate_recall r == 1.
Proof.
  apply (one_cat_image_scores_one Scenario.insertion_order 200
           [CallRecordInference "yolov5" "img1" [Scenario.raw_cat]
              [Scenario.raw_cat_gt] 12 1%Z 1%Z]
           "yolov5" "img1"); reflexivity.
Defined.

(* ================================================================== *)
(** * Properties of the aggregate PR curve *)
(* ================================================================== *)

(** Rounding keeps the order. *)
Lemma round_half_even_bounds q :
  (Qfloor q <= round_half_even q <= Qfloor q + 1)%Z.
Proof.
  unfold round_half_even.
  destruct (Qcompare (q - inject_Z (Qfloor q)) (1 # 2)); [|lia|lia].
  destruct (Z.even (Qfloor q)); lia.
Qed.

Lemma round_half_even_mono q1 q2 :
  q1 <= q2 -> (round_half_even q1 <= round_half_even q2)%Z.
Proof.
  intros Hle.
  pose proof (Qfloor_resp_le _ _ Hle) as Hf.
  pose proof (round_half_even_bounds q1) as B1.
  pose proof (round_half_even_bounds q2) as B2.
  destruct (Z.eq_dec (Qfloor q1) (Qfloor q2)) as [E | NE]; [|lia].
  unfold round_half_even. rewrite <- E.
  assert (Hr : q1 - inject_Z (Qfloor q1) <= q2 - inject_Z (Qfloor q1)).
  { apply Qplus_le_compat; [exact Hle | apply Qle_refl]. }
  destruct (Qcompare_spec (q1 - inject_Z (Qfloor q1)) (1 # 2)) as [H1 | H1 | H1];
  destruct (Qcompare_spec (q2 - inject_Z (Qfloor q1)) (1 # 2)) as [H2 | H2 | H2];
    try (destruct (Z.even (Qfloor q1))); try lia; exfalso; lra.
Qed.

Lemma round_mono q1 q2 nd : q1 <= q2 -> Py.round q1 nd <= Py.round q2 nd.
Proof.
  intros Hle. unfold Py.round.
  assert (Hs : 0 < inject_Z (10 ^ Z.of_nat nd)).
  { change 0 with (inject_Z 0). rewrite <- Zlt_Qlt.
    apply Z.pow_pos_nonneg; lia. }
  apply Qmult_le_compat_r.
  - rewrite <- Zle_Qle. apply round_half_even_mono.
    apply Qmult_le_compat_r; [exact Hle | apply Qlt_le_weak, Hs].
  - apply Qlt_le_weak, Qinv_lt_0_compat, Hs.
Qed.

(** A slice [l[::step]] keeps the order of [l]. *)
Section SliceFacts.

Context {A : Type}.

Lemma indexed_filter_In (f : nat -> bool) (l : list A) :
  forall k x,
    In x (map snd (filter (fun e => f (fst e))
                          (combine (seq k (List.length l)) l))) ->
    In x l.
Proof.
  induction l as [|a t IH]; intros k x; simpl; [auto|].
  destruct (f k); simpl.
  - intros [<- | H]; [now left | right; eapply IH, H].
  - intros H. right. eapply IH, H.
Qed.

Lemma indexed_filter_sorted (R : A -> A -> Prop) (f : nat -> bool)
    (l : list A) :
  StronglySorted R l ->
  forall k, StronglySorted R
              (map snd (filter (fun e => f (fst e))
                               (combine (seq k (List.length l)) l))).
Proof.
  induction 1 as [|a t Ht IH Ha]; intros k; simpl; [constructor|].
  destruct (f k); simpl; [|apply IH].
  constructor; [apply IH|].
  rewrite Forall_forall in Ha |- *. intros x Hx.
  apply Ha. eapply indexed_filter_In, Hx.
Qed.

Lemma indexed_filter_length (f : nat -> bool) (l : list A) :
  forall k,
    List.length (map snd (filter (fun e => f (fst e))
                                 (combine (seq k (List.length l)) l)))
    = List.length (filter f (seq k (List.length l))).
Proof.
  induction l as [|a t IH]; intros k; simpl; [reflexivity|].
  destruct (f k); simpl; now rewrite IH.
Qed.

End SliceFacts.

(** The multiples of [step] below [n] are few. *)
Lemma multiples_below (step : nat) :
  (1 <= step)%nat ->
  forall n,
    (List.length (filter (fun i => (i mod step =? 0)%nat) (seq 0 n)) * step
     <= n + step - 1)%nat.
Proof.
  intros Hs. induction n as [|n IH]; [simpl; lia|].
  rewrite seq_S, filter_app, length_app. simpl.
  destruct (n mod step =? 0)%nat eqn:E; simpl.
  - apply Nat.eqb_eq in E.
    pose proof (Nat.div_mod_eq n step) as Hd. rewrite E in Hd.
    set (c := List.length (filter (fun i => (i mod step =? 0)%nat) (seq 0 n)))
      in *.
    assert (Hc : (c <= n / step)%nat).
    { apply Nat.lt_succ_r. apply (Nat.mul_lt_mono_pos_r step); lia. }
    nia.
  - lia.
Qed.

Lemma slice_step_length_bound {A : Type} (l : list A) :
  (List.length (slice_step l (Nat.max 1 (List.length l / 50))) <= 99)%nat.
Proof.
  unfold slice_step, enumerate.
  rewrite (indexed_filter_length
             (fun i => (i mod Nat.max 1 (List.length l / 50) =? 0)%nat) l 0).
  set (n := List.length l). set (step := Nat.max 1 (n / 50)).
  assert (Hs : (1 <= step)%nat) by (unfold step; lia).
  pose proof (multiples_below step Hs n) as Hm.
  pose proof (Nat.div_mod_eq n 50) as Hd.
  pose proof (Nat.mod_upper_bound n 50 ltac:(lia)) as Hu.
  destruct (Nat.max_spec 1 (n / 50)) as [[H1 H2] | [H1 H2]];
    fold step in H2; nia.
Qed.

Lemma slice_step_sorted {A : Type} (R : A -> A -> Prop) (l : list A) step :
  StronglySorted R l -> StronglySorted R (slice_step l step).
Proof.
  intros H. unfold slice_step, enumerate.
  apply (indexed_filter_sorted R (fun i => (i mod step =? 0)%nat) l H 0).
Qed.

Lemma map_sorted_asc {A B : Type} (keyA : A -> Q) (keyB : B -> Q)
    (g : A -> B) (l : list A) :
  (forall a b, keyA a <= keyA b -> keyB (g a) <= keyB (g b)) ->
  sorted_asc keyA l -> sorted_asc keyB (map g l).
Proof.
  intros Hg. unfold sorted_asc.
  induction 1 as [|a t Ht IH Ha]; simpl; constructor; [exact IH|].
  rewrite Forall_forall in Ha |- *. intros y Hy.
  apply in_map_iff in Hy. destruct Hy as [x [<- Hx]]. apply Hg, Ha, Hx.
Qed.

Section PrCurve.

Variable set_iter : list string -> list string.

(** X22.  Whatever the store holds, the curve [get_pr_curve] returns is
    ordered by recall and has at most 99 points. *)
Lemma get_pr_curve_sorted_bounded model s s' points :
  get_pr_curve set_iter model s = (s', inr points) ->
  sorted_asc pr_recall points /\ (List.length points <= 99)%nat.
Proof.
  unfold get_pr_curve, bind.
  destruct (get_evaluation set_iter model s) as [s1 [e | [ev|]]];
    [discriminate | |].
  - destruct (List.concat (dict_values (pr_curves ev))) as [|p0 t] eqn:E.
    + unfold ret. intros [= <- <-]. split; [constructor | simpl; lia].
    + unfold ret. intros [= <- <-]. split.
      * apply (map_sorted_asc cp_recall).
        -- intros a b Hab. simpl. now apply round_mono.
        -- apply slice_step_sorted.
           apply (sort_asc_sorted cp_recall (p0 :: t)).
      * rewrite length_map.
        apply (slice_step_length_bound (sort_asc cp_recall (p0 :: t))).
  - unfold ret. intros [= <- <-]. split; [constructor | simpl; lia].
Qed.

End PrCurve.

(** C7 (the code departs from it).  The curve is not capped near 50
    points.  For the store [store_98_cats] the pooled point set has 99
    points (the 98 points of the class curve and its repeated last
    point); the stride [max(1, 99 // 50)] is 1, and all 99 points are
    returned. *)
Theorem pr_curve_of_99_points :
  exists points,
    snd (get_pr_curve Scenario.insertion_order "yolov5"
           Scenario.store_98_cats) = inr points
    /\ List.length points = 99%nat.
Proof.
  eexists. split; vm_compute; reflexivity.
Qed.

(* ================================================================== *)
(** * Further properties of the evaluator *)
(* ================================================================== *)

Lemma Qmax_facts (x y : Q) :
  x <= Qmax x y /\ y <= Qmax x y /\ (Qmax x y == x \/ Qmax x y == y).
Proof.
  split; [apply Q.le_max_l|]. split; [apply Q.le_max_r|].
  destruct (Q.max_dec x y); auto.
Qed.

Lemma Qmin_facts (x y : Q) :
  Qmin x y <= x /\ Qmin x y <= y /\ (Qmin x y == x \/ Qmin x y == y).
Proof.
  split; [apply Q.le_min_l|]. split; [apply Q.le_min_r|].
  destruct (Q.min_dec x y); auto.
Qed.

Lemma compute_iou_bounds a b : 0 <= compute_iou a b /\ compute_iou a b <= 1.
Proof.
  unfold compute_iou.
  destruct (Qmax_facts (bx1 a) (bx1 b)) as [X1a [X1b _]].
  destruct (Qmax_facts (by1 a) (by1 b)) as [Y1a [Y1b _]].
  destruct (Qmin_facts (bx2 a) (bx2 b)) as [X2a [X2b _]].
  destruct (Qmin_facts (by2 a) (by2 b)) as [Y2a [Y2b _]].
  set (x1 := Qmax (bx1 a) (bx1 b)) in *.
  set (y1 := Qmax (by1 a) (by1 b)) in *.
  set (x2 := Qmin (bx2 a) (bx2 b)) in *.
  set (y2 := Qmin (by2 a) (by2 b)) in *.
  destruct (Qmax_facts 0 (x2 - x1)) as [W0 [W1 W2]].
  destruct (Qmax_facts 0 (y2 - y1)) as [H0 [H1 H2]].
  set (w := Qmax 0 (x2 - x1)) in *.
  set (h := Qmax 0 (y2 - y1)) in *.
  destruct (Qeq_bool (w * h) 0) eqn:E; [split; lra|].
  apply Qeq_bool_neq in E.
  assert (Hw : 0 < w).
  { destruct (Qlt_le_dec 0 w) as [H | H]; [exact H|].
    exfalso. apply E. assert (w == 0) by lra. rewrite H3. ring. }
  assert (Hh : 0 < h).
  { destruct (Qlt_le_dec 0 h) as [H | H]; [exact H|].
    exfalso. apply E. assert (h == 0) by lra. rewrite H3. ring. }
  assert (Hwx : w == x2 - x1) by (destruct W2; lra).
  assert (Hhy : h == y2 - y1) by (destruct H2; lra).
  set (wa := bx2 a - bx1 a). set (ha := by2 a - by1 a).
  set (wb := bx2 b - bx1 b). set (hb := by2 b - by1 b).
  assert (w <= wa) by (unfold wa; lra).
  assert (w <= wb) by (unfold wb; lra).
  assert (h <= ha) by (unfold ha; lra).
  assert (h <= hb) by (unfold hb; lra).
  assert (Ha : w * h <= wa * ha) by nra.
  assert (Hb : w * h <= wb * hb) by nra.
  assert (Hi : 0 < w * h) by nra.
  destruct (Qlt_bool 0 (wa * ha + wb * hb - w * h)) eqn:U; [|split; lra].
  apply Qlt_bool_true in U.
  split.
  - apply Qle_shift_div_l; [exact U|]. lra.
  - apply Qle_shift_div_r; [exact U|]. lra.
Qed.

(** X1.  The IoU of any two boxes, also of degenerate or inverted ones, is
    in [0,1]. *)
Theorem compute_iou_in_unit_interval a b : in_unit (compute_iou a b).
Proof.
  exact (compute_iou_bounds a b).
Qed.

(** X3.  A box of positive width and height, with coordinates and sides
    in the range of [moderate_box], has IoU 1 with itself. *)
Theorem compute_iou_self b :
  moderate_box b -> compute_iou b b == 1.
Proof.
  intros Hb.
  assert (Hx : bx1 b < bx2 b /\ by1 b < by2 b).
  { unfold moderate_box in Hb. cbv zeta in Hb.
    destruct Hb as [_ [_ [_ [_ [Hw Hh]]]]].
    assert (Hpos : 0 < / inject_Z (10 ^ 100))
      by (apply Qinv_lt_0_compat; reflexivity).
    set (small := / inject_Z (10 ^ 100)) in *. clearbody small.
    split; lra. }
  destruct Hx as [Hx Hy]. unfold compute_iou.
  destruct (Qmax_facts (bx1 b) (bx1 b)) as [X1a [_ X1c]].
  destruct (Qmax_facts (by1 b) (by1 b)) as [Y1a [_ Y1c]].
  destruct (Qmin_facts (bx2 b) (bx2 b)) as [X2a [_ X2c]].
  destruct (Qmin_facts (by2 b) (by2 b)) as [Y2a [_ Y2c]].
  set (x1 := Qmax (bx1 b) (bx1 b)) in *.
  set (y1 := Qmax (by1 b) (by1 b)) in *.
  set (x2 := Qmin (bx2 b) (bx2 b)) in *.
  set (y2 := Qmin (by2 b) (by2 b)) in *.
  destruct (Qmax_facts 0 (x2 - x1)) as [W0 [W1 W2]].
  destruct (Qmax_facts 0 (y2 - y1)) as [H0 [H1 H2]].
  set (w := Qmax 0 (x2 - x1)) in *.
  set (h := Qmax 0 (y2 - y1)) in *.
  assert (Hw : w == bx2 b - bx1 b) by (destruct X1c, X2c, W2; lra).
  assert (Hh : h == by2 b - by1 b) by (destruct Y1c, Y2c, H2; lra).
  set (wa := bx2 b - bx1 b) in *. set (ha := by2 b - by1 b) in *.
  assert (Hwa : 0 < wa) by (unfold wa; lra).
  assert (Hha : 0 < ha) by (unfold ha; lra).
  assert (Hi : 0 < w * h) by (rewrite Hw, Hh; nra).
  destruct (Qeq_bool (w * h) 0) eqn:E.
  { apply Qeq_bool_iff in E. lra. }
  assert (Hu : wa * ha + wa * ha - w * h == w * h)
    by (rewrite Hw, Hh; ring).
  destruct (Qlt_bool 0 (wa * ha + wa * ha - w * h)) eqn:U.
  - rewrite Hu. field. lra.
  - apply Qlt_bool_false in U. lra.
Qed.

(** X4.  Two boxes that do not overlap along one axis, or only touch
    there, have IoU 0. *)
Theorem compute_iou_disjoint a b :
  Qmin (bx2 a) (bx2 b) <= Qmax (bx1 a) (bx1 b)
  \/ Qmin (by2 a) (by2 b) <= Qmax (by1 a) (by1 b) ->
  compute_iou a b = 0.
Proof.
  intros Hd. unfold compute_iou.
  set (x1 := Qmax (bx1 a) (bx1 b)) in *.
  set (y1 := Qmax (by1 a) (by1 b)) in *.
  set (x2 := Qmin (bx2 a) (bx2 b)) in *.
  set (y2 := Qmin (by2 a) (by2 b)) in *.
  destruct (Qmax_facts 0 (x2 - x1)) as [W0 [W1 W2]].
  destruct (Qmax_facts 0 (y2 - y1)) as [H0 [H1 H2]].
  set (w := Qmax 0 (x2 - x1)) in *.
  set (h := Qmax 0 (y2 - y1)) in *.
  assert (Hz : w * h == 0).
  { destruct Hd as [Hd | Hd].
    - assert (w == 0) by (destruct W2; lra). rewrite H. ring.
    - assert (h == 0) by (destruct H2; lra). rewrite H. ring. }
  apply Qeq_bool_iff in Hz. now rewrite Hz.
Qed.

(** X2.  The IoU does not depend on the order of the two boxes. *)
Theorem compute_iou_sym a b : compute_iou a b == compute_iou b a.
Proof.
  unfold compute_iou.
  assert (Ex1 : Qmax (bx1 a) (bx1 b) == Qmax (bx1 b) (bx1 a)) by apply Q.max_comm.
  assert (Ey1 : Qmax (by1 a) (by1 b) == Qmax (by1 b) (by1 a)) by apply Q.max_comm.
  assert (Ex2 : Qmin (bx2 a) (bx2 b) == Qmin (bx2 b) (bx2 a)) by apply Q.min_comm.
  assert (Ey2 : Qmin (by2 a) (by2 b) == Qmin (by2 b) (by2 a)) by apply Q.min_comm.
  set (x1 := Qmax (bx1 a) (bx1 b)) in *. set (x1' := Qmax (bx1 b) (bx1 a)) in *.
  set (y1 := Qmax (by1 a) (by1 b)) in *. set (y1' := Qmax (by1 b) (by1 a)) in *.
  set (x2 := Qmin (bx2 a) (bx2 b)) in *. set (x2' := Qmin (bx2 b) (bx2 a)) in *.
  set (y2 := Qmin (by2 a) (by2 b)) in *. set (y2' := Qmin (by2 b) (by2 a)) in *.
  assert (Ew : Qmax 0 (x2 - x1) == Qmax 0 (x2' - x1')) by (now rewrite Ex1, Ex2).
  assert (Eh : Qmax 0 (y2 - y1) == Qmax 0 (y2' - y1')) by (now rewrite Ey1, Ey2).
  set (w := Qmax 0 (x2 - x1)) in *. set (w' := Qmax 0 (x2' - x1')) in *.
  set (h := Qmax 0 (y2 - y1)) in *. set (h' := Qmax 0 (y2' - y1')) in *.
  assert (Ei : w * h == w' * h') by (now rewrite Ew, Eh).
  rewrite <- (Qeqb_comp _ _ Ei 0 0 (Qeq_refl 0)).
  destruct (Qeq_bool (w * h) 0); [reflexivity|].
  set (aa := (bx2 a - bx1 a) * (by2 a - by1 a)).
  set (ab := (bx2 b - bx1 b) * (by2 b - by1 b)).
  assert (Eu : aa + ab - w * h == ab + aa - w' * h') by (rewrite Ei; ring).
  assert (Eb : Qlt_bool 0 (aa + ab - w * h) = Qlt_bool 0 (ab + aa - w' * h')).
  { unfold Qlt_bool. f_equal. apply Qleb_comp; [exact Eu | reflexivity]. }
  rewrite <- Eb.
  destruct (Qlt_bool 0 (aa + ab - w * h)); [|reflexivity].
  apply Qdiv_comp; assumption.
Qed.

Section MatcherMore.

Variable ground_truths : list GroundTruth.
Variable iou_threshold : Q.

Lemma count_true_app l1 l2 :
  count_true (l1 ++ l2) = (count_true l1 + count_true l2)%nat.
Proof. unfold count_true. now rewrite filter_app, length_app. Qed.

Lemma set_add_fresh (i : nat) (s : set nat) :
  ~ set_In i s -> set_add Nat.eq_dec i s = s ++ [i].
Proof.
  induction s as [|a t IH]; intros Hn; simpl; [reflexivity|].
  destruct (Nat.eq_dec i a) as [-> | Hne].
  - exfalso. apply Hn. now left.
  - rewrite IH; [reflexivity|]. intros H. apply Hn. now right.
Qed.

Lemma match_step_inv st pred :
  match_inv ground_truths st ->
  match_inv ground_truths (match_step ground_truths iou_threshold st pred).
Proof.
  intros [Hnd [Hin Hc]].
  pose proof (match_step_cases ground_truths iou_threshold st pred) as Hs.
  destruct (matched_to ground_truths iou_threshold st pred) as [i|] eqn:Hm.
  - destruct Hs as [gt [Hn ->]].
    destruct (is_difficult gt) eqn:Hd; [repeat split; assumption|].
    destruct (matched_to_fresh _ _ _ _ _ Hm) as [_ Hfresh].
    split; [|split]; simpl.
    + apply set_add_nodup, Hnd.
    + intros j Hj. apply set_add_elim in Hj. destruct Hj as [-> | Hj].
      * exists gt. auto.
      * now apply Hin.
    + rewrite count_true_app, (set_add_fresh _ _ Hfresh), length_app.
      simpl. unfold count_true at 2. simpl. lia.
  - rewrite Hs. split; [|split]; simpl; try assumption.
    rewrite count_true_app. unfold count_true at 2. simpl. lia.
Qed.

Lemma match_loop_inv predictions :
  forall st, match_inv ground_truths st ->
             match_inv ground_truths
               (match_loop ground_truths iou_threshold predictions st).
Proof.
  induction predictions as [|p ps IH]; intros st H; simpl; [exact H|].
  apply IH, match_step_inv, H.
Qed.

(** The indices of the elements accepted by [f]. *)
Lemma filter_indices_length {A : Type} (f : A -> bool) (l : list A) (d : A) :
  forall k,
    List.length (filter (fun i => f (nth (i - k) l d)) (seq k (List.length l)))
    = List.length (filter f l).
Proof.
  induction l as [|a t IH]; intros k; [reflexivity|].
  cbn [List.length seq filter].
  assert (E : filter (fun i => f (nth (i - k) (a :: t) d))
                     (seq (S k) (List.length t))
              = filter (fun i => f (nth (i - S k) t d))
                       (seq (S k) (List.length t))).
  { apply filter_ext_in. intros i Hi. apply in_seq in Hi.
    replace (i - k)%nat with (S (i - S k)) by lia. reflexivity. }
  rewrite E, Nat.sub_diag. change (nth 0 (a :: t) d) with a.
  destruct (f a); cbn [List.length]; now rewrite IH.
Qed.

Lemma matched_bounded (matched : list nat) :
  NoDup matched ->
  (forall i, In i matched ->
     exists gt, nth_error ground_truths i = Some gt
                /\ is_difficult gt = false) ->
  (List.length matched
   <= List.length (filter (fun gt => negb (is_difficult gt)) ground_truths))%nat.
Proof.
  intros Hnd Hin.
  set (d := mkGroundTruth EmptyString (mkBBox 0 0 0 0) None).
  rewrite <- (filter_indices_length (fun gt => negb (is_difficult gt))
                ground_truths d 0).
  apply NoDup_incl_length; [exact Hnd|].
  intros i Hi. destruct (Hin i Hi) as [gt [Hn Hd]].
  apply filter_In. split.
  - apply in_seq. split; [lia|]. simpl.
    apply nth_error_Some. congruence.
  - rewrite Nat.sub_0_r. rewrite (nth_error_nth _ _ d Hn). now rewrite Hd.
Qed.

End MatcherMore.

(** X6.  The number of true flags is at most [n_gt], and there are at most
    as many flags as predictions. *)
Theorem tp_count_at_most_n_gt predictions ground_truths iou_threshold :
  let res := match_predictions_to_gt predictions ground_truths iou_threshold in
  (Z.of_nat (count_true (fst res)) <= snd res)%Z
  /\ (List.length (fst res) <= List.length predictions)%nat.
Proof.
  intros res. subst res. unfold match_predictions_to_gt. simpl. split.
  - unfold count_n_gt. rewrite sum_Z_ones. apply inj_le.
    destruct (match_loop_inv ground_truths iou_threshold predictions match_init)
      as [Hnd [Hin Hc]].
    { split; [constructor|]. split; [intros i []|reflexivity]. }
    rewrite Hc. now apply matched_bounded.
  - pose proof (match_loop_flags_length ground_truths iou_threshold predictions
                  match_init) as H. simpl in H. exact H.
Qed.

Section BestMatch.

Variable pred : Detection.
Variable ground_truths : list GroundTruth.
Variable matched : set nat.

Lemma best_inv_nonneg k acc :
  best_inv pred ground_truths matched k acc -> 0 <= fst acc.
Proof.
  intros [_ [[_ H] | [g [_ [_ [_ [_ [H _]]]]]]]].
  - rewrite H. apply Qle_refl.
  - apply Qlt_le_weak, H.
Qed.

Lemma best_fold_inv (l : list GroundTruth) :
  forall pre acc,
    ground_truths = pre ++ l ->
    best_inv pred ground_truths matched (List.length pre) acc ->
    best_inv pred ground_truths matched (List.length pre + List.length l)
      (fold_left (scan_step pred matched)
                 (combine (seq (List.length pre) (List.length l)) l) acc).
Proof.
  induction l as [|g l IH]; intros pre acc Hgt Hinv; simpl.
  - now rewrite Nat.add_0_r.
  - replace (List.length pre + S (List.length l))%nat
      with (List.length (pre ++ [g]) + List.length l)%nat
      by (rewrite length_app; simpl; lia).
    replace (S (List.length pre)) with (List.length (pre ++ [g]))
      by (rewrite length_app; simpl; lia).
    apply IH; [now rewrite <- app_assoc|].
    assert (Hk : nth_error ground_truths (List.length pre) = Some g).
    { rewrite Hgt, nth_error_app2 by lia. now rewrite Nat.sub_diag. }
    pose proof (best_inv_nonneg _ _ Hinv) as Hnn.
    destruct Hinv as [Hmax Hidx].
    destruct acc as [best idx]. simpl in Hmax, Hidx, Hnn.
    rewrite length_app. simpl List.length.
    unfold scan_step.
    destruct (set_mem Nat.eq_dec (List.length pre) matched) eqn:Hm.
    + split; simpl.
      * intros j g' Hj Hn Hu.
        assert (j <> List.length pre) by congruence.
        apply (Hmax j g'); [lia | exact Hn | exact Hu].
      * destruct Hidx as [H | [g0 [H1 H2]]]; [now left | right].
        exists g0. split; [lia | exact H2].
    + destruct (Qlt_bool best (compute_iou (bbox pred) (gt_bbox g))) eqn:Hlt.
      * apply Qlt_bool_true in Hlt. split; simpl.
        -- intros j g' Hj Hn Hu.
           destruct (Nat.eq_dec j (List.length pre)) as [-> | Hne].
           ++ assert (g' = g) by congruence. subst g'. apply Qle_refl.
           ++ apply Qle_trans with best; [|now apply Qlt_le_weak].
              apply (Hmax j g'); [lia | exact Hn | exact Hu].
        -- right. exists g. rewrite Nat2Z.id.
           split; [lia|]. split; [exact Hk|]. split; [exact Hm|].
           split; [reflexivity|]. split.
           ++ eapply Qle_lt_trans; [exact Hnn | exact Hlt].
           ++ intros j g' Hj Hn Hu.
              eapply Qle_lt_trans; [|exact Hlt].
              now apply (Hmax j g').
      * apply Qlt_bool_false in Hlt. split; simpl.
        -- intros j g' Hj Hn Hu.
           destruct (Nat.eq_dec j (List.length pre)) as [-> | Hne].
           ++ assert (g' = g) by congruence. subst g'. exact Hlt.
           ++ apply (Hmax j g'); [lia | exact Hn | exact Hu].
        -- destruct Hidx as [H | [g0 [H1 H2]]]; [now left | right].
           exists g0. split; [lia | exact H2].
Qed.

Lemma best_match_best_inv :
  best_inv pred ground_truths matched (List.length ground_truths)
           (best_match pred ground_truths matched).
Proof.
  unfold best_match, enumerate.
  apply (best_fold_inv ground_truths [] (0, (-1)%Z) eq_refl).
  split; simpl.
  - intros j g Hj. lia.
  - now left.
Qed.

End BestMatch.

(** X5.  The inner loop returns the largest IoU over the ground truths
    that are not consumed, and the first ground truth that reaches it; it
    returns index -1 and IoU 0 when no such ground truth overlaps the
    prediction. *)
Theorem best_match_first_maximum pred ground_truths matched :
  let best_iou := fst (best_match pred ground_truths matched) in
  let best_gt_idx := snd (best_match pred ground_truths matched) in
  (forall j g, nth_error ground_truths j = Some g -> ~ set_In j matched ->
               compute_iou (bbox pred) (gt_bbox g) <= best_iou)
  /\ ((best_gt_idx = (-1)%Z /\ best_iou = 0)
      \/ exists g,
           nth_error ground_truths (Z.to_nat best_gt_idx) = Some g
           /\ (0 <= best_gt_idx)%Z
           /\ ~ set_In (Z.to_nat best_gt_idx) matched
           /\ best_iou = compute_iou (bbox pred) (gt_bbox g)
           /\ 0 < best_iou
           /\ forall j g', (j < Z.to_nat best_gt_idx)%nat ->
                nth_error ground_truths j = Some g' -> ~ set_In j matched ->
                compute_iou (bbox pred) (gt_bbox g') < best_iou).
Proof.
  intros best_iou best_gt_idx.
  destruct (best_match_best_inv pred ground_truths matched) as [Hmax Hidx].
  assert (Hmem : forall j, ~ set_In j matched ->
                           set_mem Nat.eq_dec j matched = false).
  { intros j Hj. destruct (set_mem Nat.eq_dec j matched) eqn:E; [|reflexivity].
    exfalso. apply Hj. now apply (set_mem_correct1 Nat.eq_dec). }
  split.
  - intros j g Hn Hu. apply (Hmax j g); [|exact Hn | now apply Hmem].
    apply nth_error_Some. congruence.
  - destruct Hidx as [H | [g [H1 [H2 [H3 [H4 [H5 H6]]]]]]]; [now left | right].
    exists g. split; [exact H2|]. split; [apply H1|]. split.
    + intros Hin. apply (set_mem_correct2 Nat.eq_dec) in Hin.
      fold best_gt_idx in H3. congruence.
    + split; [exact H4|]. split; [exact H5|].
      intros j g' Hj Hn Hu. apply (H6 j g' Hj Hn). now apply Hmem.
Qed.

Lemma best_match_le_1 pred ground_truths matched :
  fst (best_match pred ground_truths matched) <= 1.
Proof.
  destruct (best_match_best_inv pred ground_truths matched)
    as [_ [[_ H] | [g [_ [_ [_ [H _]]]]]]]; rewrite H.
  - discriminate.
  - apply compute_iou_bounds.
Qed.

Lemma match_loop_all_false ground_truths iou_threshold predictions :
  (forall st p, matched_to ground_truths iou_threshold st p = None) ->
  forall st,
    tp_flags (match_loop ground_truths iou_threshold predictions st)
    = tp_flags st ++ repeat false (List.length predictions).
Proof.
  intros Hnone. unfold match_loop.
  induction predictions as [|p ps IH]; intros st; simpl.
  - now rewrite app_nil_r.
  - pose proof (match_step_cases ground_truths iou_threshold st p) as Hc.
    rewrite Hnone in Hc. rewrite IH, Hc. simpl.
    now rewrite <- app_assoc.
Qed.

(** X8.  Without ground truths, or with a threshold above 1, every
    prediction is flagged false. *)
Theorem no_possible_match_all_false predictions ground_truths iou_threshold :
  ground_truths = [] \/ 1 < iou_threshold ->
  fst (match_predictions_to_gt predictions ground_truths iou_threshold)
  = repeat false (List.length predictions).
Proof.
  intros H. unfold match_predictions_to_gt. simpl.
  rewrite match_loop_all_false; [reflexivity|].
  intros st p. unfold matched_to.
  destruct (best_match p ground_truths (matched_gt st)) as [best idx] eqn:E.
  destruct H as [-> | Hthr].
  - unfold best_match in E. simpl in E. injection E as <- <-.
    now rewrite andb_false_r.
  - pose proof (best_match_le_1 p ground_truths (matched_gt st)) as Hle.
    rewrite E in Hle. simpl in Hle.
    destruct (Qle_bool iou_threshold best) eqn:Eb; [|reflexivity].
    apply Qle_bool_iff in Eb. lra.
Qed.

(* ---------------- compute_ap ---------------- *)

Lemma envelope_length l : List.length (envelope l) = List.length l.
Proof.
  induction l as [|p t IH]; simpl; [reflexivity|].
  destruct (envelope t) as [|q r] eqn:E; simpl in *; [now rewrite <- IH|].
  now rewrite <- IH.
Qed.

Lemma envelope_sorted l : sorted_desc (fun x => x) (envelope l).
Proof.
  unfold sorted_desc. induction l as [|p t IH]; simpl; [constructor|].
  destruct (envelope t) as [|q r] eqn:E.
  - constructor; constructor.
  - constructor; [exact IH|].
    inversion IH as [|? ? Hr Hq]; subst.
    constructor; [apply Q.le_max_r|].
    rewrite Forall_forall in Hq |- *. intros x Hx.
    eapply Qle_trans; [apply Hq, Hx | apply Q.le_max_r].
Qed.

Lemma envelope_dominates l : Forall2 Qle l (envelope l).
Proof.
  induction l as [|p t IH]; simpl; [constructor|].
  destruct (envelope t) as [|q r] eqn:E.
  - inversion IH; subst. constructor; [apply Qle_refl | constructor].
  - constructor; [apply Q.le_max_l | exact IH].
Qed.

Lemma envelope_in_unit l : Forall in_unit l -> Forall in_unit (envelope l).
Proof.
  induction 1 as [|p t Hp Ht IH]; simpl; [constructor|].
  destruct (envelope t) as [|q r] eqn:E.
  - constructor; [exact Hp | constructor].
  - constructor; [|exact IH].
    inversion IH as [|? ? Hq _]; subst.
    destruct Hp as [Hp0 Hp1], Hq as [Hq0 Hq1].
    destruct (Qmax_facts p q) as [M1 [M2 [M3 | M3]]]; split; lra.
Qed.

(** X9.  The backward sweep of [compute_ap] keeps the length, never lowers
    a value, and leaves a sequence that does not increase. *)
Theorem envelope_monotone l :
  List.length (envelope l) = List.length l
  /\ Forall2 Qle l (envelope l)
  /\ sorted_desc (fun x => x) (envelope l).
Proof.
  split; [apply envelope_length|].
  split; [apply envelope_dominates | apply envelope_sorted].
Qed.

Lemma nth_in_unit (l : list Q) i : Forall in_unit l -> in_unit (nth i l 0).
Proof.
  intros H. destruct (Nat.lt_ge_cases i (List.length l)) as [Hlt | Hge].
  - rewrite Forall_forall in H. apply H, nth_In, Hlt.
  - rewrite nth_overflow by exact Hge. split; lra.
Qed.

Lemma sorted_adjacent (l : list Q) :
  sorted_asc (fun x => x) l ->
  forall i, (i + 1 < List.length l)%nat -> nth i l 0 <= nth (i + 1) l 0.
Proof.
  unfold sorted_asc. induction 1 as [|a t Ht IH Ha]; intros i Hi; simpl in Hi.
  - lia.
  - destruct i as [|i]; simpl.
    + rewrite Forall_forall in Ha. apply Ha, nth_In. lia.
    + apply IH. lia.
Qed.

Lemma sorted_with_sentinels (recalls : list Q) :
  Forall in_unit recalls -> sorted_asc (fun x => x) recalls ->
  sorted_asc (fun x => x) ([0] ++ recalls ++ [1]).
Proof.
  unfold sorted_asc. intros Hu Hs. simpl. constructor.
  - induction Hs as [|a t Ht IH Ha]; simpl.
    + constructor; constructor.
    + inversion Hu as [|? ? Hau Htu]; subst.
      constructor; [apply IH, Htu|].
      apply Forall_app. split; [exact Ha|].
      constructor; [apply Hau | constructor].
  - apply Forall_app. split.
    + eapply Forall_impl; [|exact Hu]. intros x [H _]. exact H.
    + constructor; [lra | constructor].
Qed.

Section ApSum.

Variables R P : list Q.
Hypothesis R_adjacent :
  forall i, (i + 1 < List.length R)%nat -> nth i R 0 <= nth (i + 1) R 0.
Hypothesis P_unit : Forall in_unit P.

Let term (i : nat) : Q := (nth (i + 1) R 0 - nth i R 0) * nth (i + 1) P 0.
Let changed (i : nat) : bool :=
  negb (Qeq_bool (nth (i + 1) R 0) (nth i R 0)).

Lemma ap_sum_bounds n :
  forall k, (k + n < List.length R)%nat ->
    0 <= fold_right Qplus 0 (map term (filter changed (seq k n)))
    /\ fold_right Qplus 0 (map term (filter changed (seq k n)))
       <= nth (k + n) R 0 - nth k R 0.
Proof.
  induction n as [|n IH]; intros k Hk; simpl.
  - rewrite Nat.add_0_r. split; lra.
  - destruct (IH (S k) ltac:(lia)) as [IH0 IH1].
    replace (S k + n)%nat with (k + S n)%nat in IH1 by lia.
    pose proof (R_adjacent k ltac:(lia)) as Hadj.
    replace (S k) with (k + 1)%nat in * by lia.
    destruct (nth_in_unit P (k + 1) P_unit) as [Hp0 Hp1].
    destruct (changed k); simpl.
    + unfold term at 1 3.
      set (d := nth (k + 1) R 0 - nth k R 0) in *.
      set (p := nth (k + 1) P 0) in *.
      assert (0 <= d) by (unfold d; lra).
      assert (0 <= d * p) by nra.
      assert (d * p <= d) by nra.
      assert (Hd : d == nth (k + 1) R 0 - nth k R 0) by reflexivity.
      clearbody d. split; lra.
    + split; lra.
Qed.

End ApSum.

Lemma compute_ap_bounds precisions recalls :
  List.length precisions = List.length recalls ->
  Forall in_unit precisions ->
  Forall in_unit recalls ->
  sorted_asc (fun r => r) recalls ->
  in_unit (compute_ap precisions recalls).
Proof.
  intros Hlen Hp Hr Hs. unfold compute_ap.
  set (R := [0] ++ recalls ++ [1]).
  set (P := envelope ([0] ++ precisions ++ [0])).
  assert (HP : Forall in_unit P).
  { apply envelope_in_unit. simpl. constructor; [split; lra|].
    apply Forall_app. split; [exact Hp|]. constructor; [split; lra | constructor]. }
  assert (HR : forall i, (i + 1 < List.length R)%nat ->
                         nth i R 0 <= nth (i + 1) R 0).
  { apply sorted_adjacent, sorted_with_sentinels; assumption. }
  assert (HlenR : List.length R = S (S (List.length recalls))).
  { unfold R. simpl. rewrite length_app. simpl. lia. }
  unfold in_unit, recall_changes, sum_Q.
  rewrite fold_left_Qplus, Qplus_0_l.
  destruct (ap_sum_bounds R P HR HP (List.length R - 1) 0 ltac:(lia))
    as [H0 H1].
  assert (Hlast : nth (0 + (List.length R - 1)) R 0 = 1).
  { replace (0 + (List.length R - 1))%nat with (S (List.length recalls))
      by lia.
    unfold R. cbn [app nth]. rewrite app_nth2 by lia.
    now rewrite Nat.sub_diag. }
  rewrite Hlast in H1. simpl (nth 0 R 0) in H1.
  split; [exact H0 | lra].
Qed.

(* ---------------- cumulative counts ---------------- *)

Lemma count_true_perm l1 l2 :
  Permutation l1 l2 -> count_true l1 = count_true l2.
Proof.
  unfold count_true.
  induction 1 as [|x l l' _ IH|x y l|l l' l'' _ IH1 _ IH2]; simpl.
  - reflexivity.
  - destruct x; simpl; now rewrite IH.
  - destruct x, y; reflexivity.
  - now rewrite IH1.
Qed.

Lemma enumerate_snd {A : Type} (l : list A) : map snd (enumerate l) = l.
Proof.
  unfold enumerate. generalize 0%nat.
  induction l as [|a t IH]; intros k; simpl; [reflexivity|].
  now rewrite IH.
Qed.

Lemma cumsum_length prev l : List.length (cumsum_from prev l) = List.length l.
Proof.
  revert prev. induction l as [|x t IH]; intros prev; simpl; [reflexivity|].
  now rewrite IH.
Qed.

(** A running sum of non-negative steps starts at or above its start,
    does not decrease, and stays at or below the total. *)
Lemma cumsum_bounds l :
  Forall (fun x => 0 <= x) l ->
  forall prev,
    Forall (fun c => prev <= c /\ c <= prev + fold_right Qplus 0 l)
           (cumsum_from prev l)
    /\ sorted_asc (fun c => c) (cumsum_from prev l).
Proof.
  unfold sorted_asc.
  induction 1 as [|x t Hx Ht IH]; intros prev; simpl.
  - split; constructor.
  - destruct (IH (prev + x)) as [IHb IHs].
    assert (Hsum : 0 <= fold_right Qplus 0 t).
    { clear -Ht. induction Ht as [|y u Hy Hu IHu]; simpl; lra. }
    split.
    + constructor; [split; lra|].
      eapply Forall_impl; [|exact IHb]. simpl. intros c [H1 H2]. split; lra.
    + constructor; [exact IHs|].
      eapply Forall_impl; [|exact IHb]. simpl. intros c [H1 H2]. exact H1.
Qed.

Lemma tp_steps_sum (class_preds : list (Q * bool)) :
  fold_right Qplus 0
    (map (fun e : Q * bool => if snd e then 1 else 0) class_preds)
  == inject_Z (Z.of_nat (count_true (map snd class_preds))).
Proof.
  unfold count_true. induction class_preds as [|[c f] t IH]; simpl.
  - reflexivity.
  - rewrite IH. destruct f; simpl.
    + rewrite Zpos_P_of_succ_nat, <- Z.add_1_l, inject_Z_plus. reflexivity.
    + ring.
Qed.

Lemma steps_nonneg (f : Q * bool -> Q) (class_preds : list (Q * bool)) :
  (forall e, 0 <= f e) -> Forall (fun x => 0 <= x) (map f class_preds).
Proof.
  intros H. apply Forall_forall. intros x Hx.
  apply in_map_iff in Hx. destruct Hx as [e [<- _]]. apply H.
Qed.

Lemma eps_pos : 0 < eps.
Proof. reflexivity. Qed.

Lemma precisions_in_unit class_preds :
  Forall in_unit (precisions_of class_preds).
Proof.
  unfold precisions_of. apply Forall_forall. intros x Hx.
  apply in_map_iff in Hx. destruct Hx as [[tp fp] [<- Hin]]. simpl.
  assert (Htp : 0 <= tp).
  { apply in_combine_l in Hin. unfold tp_cumsum_of in Hin.
    destruct (cumsum_bounds _ (steps_nonneg
                (fun e => if snd e then 1 else 0) class_preds
                ltac:(intros [c []]; simpl; lra)) 0) as [Hb _].
    rewrite Forall_forall in Hb. apply (Hb tp Hin). }
  assert (Hfp : 0 <= fp).
  { apply in_combine_r in Hin. unfold fp_cumsum_of in Hin.
    destruct (cumsum_bounds _ (steps_nonneg
                (fun e => if snd e then 0 else 1) class_preds
                ltac:(intros [c []]; simpl; lra)) 0) as [Hb _].
    rewrite Forall_forall in Hb. apply (Hb fp Hin). }
  destruct (Qmax_facts (tp + fp) eps) as [M1 [M2 _]].
  pose proof eps_pos as He.
  assert (Hd : 0 < Qmax (tp + fp) eps) by lra.
  split.
  - apply Qle_shift_div_l; [exact Hd | lra].
  - apply Qle_shift_div_r; [exact Hd | lra].
Qed.

Lemma recalls_in_unit class_preds total_gt :
  (Z.of_nat (count_true (map snd class_preds)) <= total_gt)%Z ->
  (0 < total_gt)%Z ->
  Forall in_unit (recalls_of class_preds total_gt)
  /\ sorted_asc (fun r => r) (recalls_of class_preds total_gt).
Proof.
  intros Hc Hpos. unfold recalls_of, tp_cumsum_of.
  destruct (cumsum_bounds _ (steps_nonneg
              (fun e => if snd e then 1 else 0) class_preds
              ltac:(intros [c []]; simpl; lra)) 0) as [Hb Hs].
  assert (Ht : 0 < inject_Z total_gt).
  { change 0 with (inject_Z 0). now rewrite <- Zlt_Qlt. }
  assert (Hle : inject_Z (Z.of_nat (count_true (map snd class_preds)))
                <= inject_Z total_gt) by (now rewrite <- Zle_Qle).
  split.
  - apply Forall_forall. intros x Hx.
    apply in_map_iff in Hx. destruct Hx as [tp [<- Hin]].
    rewrite Forall_forall in Hb. destruct (Hb tp Hin) as [H1 H2].
    rewrite tp_steps_sum in H2.
    split.
    + apply Qle_shift_div_l; [exact Ht | lra].
    + apply Qle_shift_div_r; [exact Ht | lra].
  - unfold sorted_asc in *.
    set (l := cumsum_from 0 (map (fun e : Q * bool => if snd e then 1 else 0)
                                 class_preds)) in *.
    clearbody l. clear Hb.
    induction Hs as [|a t Hs IH Ha]; simpl; constructor; [exact IH|].
    rewrite Forall_forall in Ha |- *. intros y Hy.
    apply in_map_iff in Hy. destruct Hy as [b [<- Hb]].
    apply Qmult_le_compat_r; [apply Ha, Hb|].
    apply Qlt_le_weak, Qinv_lt_0_compat, Ht.
Qed.

Lemma precisions_recalls_length class_preds total_gt :
  List.length (precisions_of class_preds)
  = List.length (recalls_of class_preds total_gt).
Proof.
  unfold precisions_of, recalls_of, tp_cumsum_of, fp_cumsum_of.
  rewrite !length_map, length_combine, !cumsum_length, !length_map. lia.
Qed.

(* ---------------- the pipeline's ratios ---------------- *)

Section PipelineBounds.

Variable set_iter : list string -> list string.
Variable all_predictions : sdict (list Detection).
Variable all_ground_truths : sdict (list GroundTruth).

Lemma match_counts predictions ground_truths iou_threshold :
  (Z.of_nat (count_true
               (fst (match_predictions_to_gt predictions ground_truths
                                             iou_threshold)))
   <= snd (match_predictions_to_gt predictions ground_truths iou_threshold))%Z.
Proof.
  unfold match_predictions_to_gt. simpl.
  unfold count_n_gt. rewrite sum_Z_ones. apply inj_le.
  destruct (match_loop_inv ground_truths iou_threshold predictions match_init)
    as [Hnd [Hin Hc]].
  { split; [constructor|]. split; [intros i []|reflexivity]. }
  rewrite Hc. now apply matched_bounded.
Qed.

Lemma gather_image_counts thr cn acc image_id :
  (Z.of_nat (count_true (map snd (fst acc))) <= snd acc)%Z ->
  let acc' := gather_image all_predictions all_ground_truths thr cn acc
                           image_id in
  (Z.of_nat (count_true (map snd (fst acc'))) <= snd acc')%Z.
Proof.
  destruct acc as [cp total]. simpl. intros H. unfold gather_image.
  pose proof (match_counts
                (sort_desc confidence
                   (class_preds_of_image all_predictions cn image_id))
                (class_gts_of_image all_ground_truths cn image_id) thr) as Hm.
  unfold match_predictions_to_gt in *. simpl in *.
  rewrite map_app, map_map. simpl.
  match goal with
  | |- context [map (fun x : nat * bool => snd x) (enumerate ?fl)] =>
      change (map (fun x : nat * bool => snd x) (enumerate fl))
        with (map snd (enumerate fl))
  end.
  rewrite enumerate_snd, count_true_app. lia.
Qed.

Lemma gather_class_counts thr cn :
  (Z.of_nat (count_true
               (map snd (fst (gather_class set_iter all_predictions
                                           all_ground_truths thr cn))))
   <= snd (gather_class set_iter all_predictions all_ground_truths thr cn))%Z.
Proof.
  unfold gather_class.
  generalize (image_ids set_iter all_predictions all_ground_truths).
  intros ids.
  assert (H0 : (Z.of_nat (count_true (map snd (fst (@nil (Q * bool), 0%Z))))
                <= snd (@nil (Q * bool), 0%Z))%Z) by (simpl; lia).
  revert H0. generalize (@nil (Q * bool), 0%Z).
  induction ids as [|id t IH]; intros acc H; simpl; [exact H|].
  apply IH. now apply gather_image_counts.
Qed.

Lemma ap_of_class_in_unit thr cn :
  in_unit (ap_of_class set_iter all_predictions all_ground_truths thr cn).
Proof.
  unfold ap_of_class.
  pose proof (gather_class_counts thr cn) as Hc.
  set (total := snd (gather_class set_iter all_predictions all_ground_truths
                                  thr cn)) in *.
  destruct (total =? 0)%Z eqn:E; [split; lra|].
  apply Z.eqb_neq in E.
  assert (Hpos : (0 < total)%Z) by lia.
  assert (Hc' : (Z.of_nat (count_true
                   (map snd (pooled_ranking set_iter all_predictions
                               all_ground_truths thr cn))) <= total)%Z).
  { unfold pooled_ranking.
    rewrite (count_true_perm _ _
               (Permutation_map snd (sort_desc_perm fst _))). exact Hc. }
  destruct (recalls_in_unit _ _ Hc' Hpos) as [Hr Hs].
  apply compute_ap_bounds.
  - apply precisions_recalls_length.
  - apply precisions_in_unit.
  - exact Hr.
  - exact Hs.
Qed.

Lemma eval_classes_values thr (cns : list string) :
  forall acc,
    Forall in_unit (dict_values (fst acc)) ->
    Forall in_unit
      (dict_values
         (fst (fold_left
                 (eval_class set_iter all_predictions all_ground_truths thr)
                 cns acc))).
Proof.
  induction cns as [|c t IH]; intros acc H; simpl; [exact H|].
  apply IH. rewrite eval_class_fst.
  apply Forall_forall. intros v Hv. unfold dict_values in Hv.
  apply in_map_iff in Hv. destruct Hv as [[k v'] [<- Hin]]. simpl.
  apply dict_set_In in Hin. destruct Hin as [Hin | ->].
  - rewrite Forall_forall in H. apply H. unfold dict_values.
    apply in_map_iff. now exists (k, v').
  - apply ap_of_class_in_unit.
Qed.

Lemma sum_in_unit (l : list Q) :
  Forall in_unit l ->
  0 <= fold_right Qplus 0 l
  /\ fold_right Qplus 0 l <= inject_Z (Z.of_nat (List.length l)).
Proof.
  induction 1 as [|x t [Hx0 Hx1] Ht [IH0 IH1]]; simpl List.length; simpl fold_right.
  - split; apply Qle_refl.
  - rewrite Nat2Z.inj_succ, <- Z.add_1_l, inject_Z_plus.
    change (inject_Z 1) with 1. split; lra.
Qed.

Lemma mean_in_unit (l : list Q) :
  l <> [] -> Forall in_unit l -> in_unit (mean l).
Proof.
  intros Hne H. unfold mean, sum_Q.
  destruct (sum_in_unit l H) as [H0 H1].
  assert (Hn : 0 < inject_Z (Z.of_nat (List.length l))).
  { change 0 with (inject_Z 0). rewrite <- Zlt_Qlt.
    destruct l; [contradiction | simpl; lia]. }
  unfold in_unit. rewrite fold_left_Qplus, Qplus_0_l.
  split.
  - apply Qle_shift_div_l; [exact Hn | lra].
  - apply Qle_shift_div_r; [exact Hn | lra].
Qed.

Lemma mAP_of_in_unit (per_class : sdict Q) :
  Forall in_unit (dict_values per_class) -> in_unit (mAP_of per_class).
Proof.
  intros H. unfold mAP_of.
  destruct (valid_aps_of per_class) as [|a t] eqn:E; [split; lra|].
  apply mean_in_unit; [discriminate|].
  rewrite <- E. unfold valid_aps_of.
  apply Forall_forall. intros x Hx. apply filter_In in Hx.
  rewrite Forall_forall in H. apply H, Hx.
Qed.

Lemma eval_threshold_in_unit class_names thr :
  let r := eval_threshold set_iter all_predictions all_ground_truths
                          class_names thr in
  in_unit (thr_mAP r) /\ Forall in_unit (dict_values (thr_per_class_ap r)).
Proof.
  unfold eval_threshold.
  pose proof (eval_classes_values thr class_names ([], [])
                ltac:(constructor)) as H.
  destruct (fold_left (eval_class set_iter all_predictions all_ground_truths thr)
              class_names ([], [])) as [pc cv].
  simpl in *. split; [now apply mAP_of_in_unit | exact H].
Qed.

End PipelineBounds.

Section ResultBounds.

Variable set_iter : list string -> list string.
Variable all_predictions : sdict (list Detection).
Variable all_ground_truths : sdict (list GroundTruth).
Variable class_names : list string.

Lemma aggregate_image_inv cn acc image_id :
  (0 <= snd (fst acc) <= fst (fst acc))%Z -> (0 <= snd acc)%Z ->
  let acc' := aggregate_image all_predictions all_ground_truths cn acc
                              image_id in
  (0 <= snd (fst acc') <= fst (fst acc'))%Z /\ (0 <= snd acc')%Z.
Proof.
  destruct acc as [[gt_all tp] fp]. simpl. intros Htp Hfp.
  unfold aggregate_image.
  pose proof (match_counts
                (class_preds_of_image all_predictions cn image_id)
                (class_gts_of_image all_ground_truths cn image_id) (1 # 2))
    as Hm.
  unfold match_predictions_to_gt in *. simpl in *.
  rewrite !sum_Z_ones. unfold count_true in Hm. lia.
Qed.

Lemma aggregate_counts_inv :
  let acc := aggregate_counts set_iter all_predictions all_ground_truths
                              class_names in
  (0 <= snd (fst acc) <= fst (fst acc))%Z /\ (0 <= snd acc)%Z.
Proof.
  unfold aggregate_counts.
  assert (H0 : (0 <= snd (fst (0, 0, 0)) <= fst (fst (0, 0, 0)))%Z
               /\ (0 <= snd (0, 0, 0))%Z) by (simpl; lia).
  revert H0. generalize (0%Z, 0%Z, 0%Z).
  induction class_names as [|cn t IH]; intros acc H; simpl; [exact H|].
  apply IH. clear IH. revert acc H.
  generalize (image_ids set_iter all_predictions all_ground_truths).
  intros ids. induction ids as [|id u IHu]; intros acc H; simpl; [exact H|].
  apply IHu. destruct H as [H1 H2]. now apply aggregate_image_inv.
Qed.

Lemma round_in_unit x : in_unit x -> in_unit (Py.round x 4).
Proof.
  intros [H0 H1]. split.
  - eapply Qle_trans; [|apply round_mono, H0]. vm_compute. discriminate.
  - eapply Qle_trans; [apply round_mono, H1|]. vm_compute. discriminate.
Qed.

Lemma ratio_in_unit (a b : Z) :
  (0 <= a <= b)%Z -> in_unit (inject_Z a / inject_Z (Z.max 1 b)).
Proof.
  intros H.
  assert (Hd : 0 < inject_Z (Z.max 1 b)).
  { change 0 with (inject_Z 0). rewrite <- Zlt_Qlt. lia. }
  assert (Ha : 0 <= inject_Z a).
  { change 0 with (inject_Z 0). rewrite <- Zle_Qle. lia. }
  assert (Hab : inject_Z a <= inject_Z (Z.max 1 b)).
  { rewrite <- Zle_Qle. lia. }
  split.
  - apply Qle_shift_div_l; [exact Hd | lra].
  - apply Qle_shift_div_r; [exact Hd | lra].
Qed.

Lemma rbt_values_in_unit thresholds k r :
  In (k, r) (results_by_threshold set_iter all_predictions all_ground_truths
                                  class_names thresholds) ->
  in_unit (thr_mAP r) /\ Forall in_unit (dict_values (thr_per_class_ap r)).
Proof.
  intros Hin. unfold results_by_threshold in Hin.
  apply rbt_entries in Hin. destruct Hin as [[] | [t [_ ->]]].
  apply eval_threshold_in_unit.
Qed.

(** X12.  The two mAP values and every per-class AP of the result are in
    [0,1]. *)
Theorem evaluation_ratios_in_unit_interval iou_thresholds :
  let res := evaluate_detections set_iter all_predictions all_ground_truths
                                 class_names iou_thresholds in
  in_unit (mAP_50 res)
  /\ in_unit (mAP_50_95 res)
  /\ Forall in_unit (dict_values (per_class_ap res)).
Proof.
  intros res. subst res. unfold evaluate_detections.
  set (thresholds := match iou_thresholds with
                     | Some l => l | None => [1 # 2] end).
  set (rbt := results_by_threshold set_iter all_predictions all_ground_truths
                                   class_names thresholds).
  destruct (aggregate_counts set_iter all_predictions all_ground_truths
              class_names) as [[gt_all tp] fp].
  simpl.
  assert (H50 : in_unit (match dict_get Qeq_bool (1 # 2) rbt with
                         | Some r => thr_mAP r | None => 0 end)
                /\ Forall in_unit
                     (dict_values
                        (match dict_get Qeq_bool (1 # 2) rbt with
                         | Some r => thr_per_class_ap r | None => [] end))).
  { destruct (dict_get Qeq_bool (1 # 2) rbt) as [r|] eqn:E.
    - apply dict_get_In in E. destruct E as [k [Hin _]].
      apply (rbt_values_in_unit thresholds k r Hin).
    - split; [split; lra | constructor]. }
  destruct H50 as [Hm Hpc].
  split; [exact Hm|]. split; [|exact Hpc].
  destruct (1 <? List.length thresholds)%nat eqn:El; [|exact Hm].
  apply Nat.ltb_lt in El.
  apply mean_in_unit.
  - destruct thresholds as [|t0 ts] eqn:Et; [simpl in El; lia|].
    destruct (rbt_has_threshold set_iter all_predictions all_ground_truths
                class_names (t0 :: ts) t0 (or_introl eq_refl) [])
      as [k [Hk _]].
    fold (results_by_threshold set_iter all_predictions all_ground_truths
            class_names (t0 :: ts)) in Hk.
    fold rbt in Hk. unfold dict_values, dict_keys in *.
    destruct rbt; [destruct Hk | discriminate].
  - apply Forall_forall. intros x Hx.
    apply in_map_iff in Hx. destruct Hx as [r [<- Hr]].
    unfold dict_values in Hr. apply in_map_iff in Hr.
    destruct Hr as [[k r'] [<- Hin]].
    apply (rbt_values_in_unit thresholds k r' Hin).
Qed.

(** X13.  The aggregate precision and the aggregate recall of the result
    are in [0,1]. *)
Theorem aggregate_ratios_in_unit_interval iou_thresholds :
  let res := evaluate_detections set_iter all_predictions all_ground_truths
                                 class_names iou_thresholds in
  in_unit (aggregate_precision res) /\ in_unit (aggregate_recall res).
Proof.
  intros res. subst res. unfold evaluate_detections.
  pose proof aggregate_counts_inv as Hinv.
  destruct (aggregate_counts set_iter all_predictions all_ground_truths
              class_names) as [[gt_all tp] fp].
  simpl in *. destruct Hinv as [H1 H2].
  split; apply round_in_unit, ratio_in_unit; lia.
Qed.

End ResultBounds.


Lemma compute_iou_self_witness :
  compute_iou Scenario.box_0_10 Scenario.box_0_10 == 1.
Proof.
  apply compute_iou_self.
  unfold moderate_box. repeat split; vm_compute; discriminate.
Defined.

Lemma compute_iou_disjoint_witness :
  compute_iou Scenario.box_0_10 Scenario.box_far = 0.
Proof.
  apply compute_iou_disjoint. left. vm_compute. discriminate.
Defined.

Lemma no_possible_match_all_false_witness :
  fst (match_predictions_to_gt Scenario.preds_near_far
         Scenario.gts_plain_cat (3 # 2))
  = [false; false].
Proof.
  apply (no_possible_match_all_false Scenario.preds_near_far
           Scenario.gts_plain_cat (3 # 2)).
  right. reflexivity.
Defined.


(* ================================================================== *)
(** * Further properties of the store *)
(* ================================================================== *)

(** An entry of the per-class list: [{class, ap}]. *)
(** The number of first-iteration writes among calls. *)
(** The four per-model dictionaries keep the two models they start
    with. *)
(** The histories respect the bound, and the FPS entries are in the order
    of their sequence numbers, none above the counter. *)
(** A cached result belongs to a model that has recorded images. *)
(** What the calls of the store maintain, beyond [store_inv]. *)
Section StoreMore.

Variable set_iter : list string -> list string.

Lemma dict_set_same_keys {V : Type} k (v : V) (d : sdict V) :
  In k (dict_keys d) -> dict_keys (dict_set String.eqb k v d) = dict_keys d.
Proof.
  unfold dict_keys. induction d as [|[k0 v0] t IH]; simpl; [intros []|].
  destruct (String.eqb k0 k) eqn:E; simpl; [reflexivity|].
  intros [-> | H]; [rewrite String.eqb_refl in E; discriminate|].
  now rewrite IH.
Qed.

Lemma dict_get_in_keys {V : Type} k (d : sdict V) v :
  dict_get String.eqb k d = Some v -> In k (dict_keys d).
Proof. intros H. apply sdict_get_keys. congruence. Qed.

(** What a write does, case by case. *)
Lemma record_inference_cases model image_id detections ground_truths
    latency_ms iteration total_iterations s :
  let s0 := if (iteration =? 1)%Z
            then set_inference_count s (inference_count s + 1)%Z else s in
  match dict_get String.eqb model (latency_history s) with
  | None =>
      record_inference model image_id detections ground_truths latency_ms
                       iteration total_iterations s
      = (s0, inl (KeyError model))
  | Some dq =>
      let s1 := set_latency_history s0
                  (dict_set String.eqb model
                     (deque_append (max_history s) dq latency_ms)
                     (latency_history s)) in
      if (iteration =? 1)%Z then
        match dict_get String.eqb model (fps_history s),
              dict_get String.eqb model (all_predictions s),
              dict_get String.eqb model (all_ground_truths s) with
        | Some fq, Some pm, Some gm =>
            record_inference model image_id detections ground_truths
                             latency_ms iteration total_iterations s
            = (mkInferenceStore (max_history s)
                 (latency_history s1)
                 (dict_set String.eqb model
                    (deque_append (max_history s) fq
                       {| fps_time := (inference_count s + 1)%Z;
                          fps_value :=
                            Py.round (if Qlt_bool 0 latency_ms
                                      then 1000 / latency_ms else 0) 1;
                          fps_latency_ms := Py.round latency_ms 2 |})
                    (fps_history s))
                 (dict_set String.eqb model
                    (dict_set String.eqb image_id
                       (map format_prediction detections) pm)
                    (all_predictions s))
                 (dict_set String.eqb model
                    (dict_set String.eqb image_id
                       (map format_ground_truth ground_truths) gm)
                    (all_ground_truths s))
                 (subscribers s)
                 (inference_count s + 1)%Z
                 (dict_pop String.eqb model (eval_cache s)),
               inr tt)
        | _, _, _ => True
        end
      else
        record_inference model image_id detections ground_truths latency_ms
                         iteration total_iterations s
        = (s1, inr tt)
  end.
Proof.
  unfold record_inference, bind, subscript, modify, ret.
  destruct (iteration =? 1)%Z eqn:Ei; simpl.
  - destruct (dict_get String.eqb model (latency_history s)); simpl;
      [|reflexivity].
    destruct (dict_get String.eqb model (fps_history s)); simpl; [|exact I].
    destruct (dict_get String.eqb model (all_predictions s)); simpl;
      [|exact I].
    destruct (dict_get String.eqb model (all_ground_truths s)); simpl;
      [reflexivity | exact I].
  - destruct (dict_get String.eqb model (latency_history s)); reflexivity.
Qed.

Lemma tracked_lookup {V W : Type} (d1 : sdict V) (d2 : sdict W) model v :
  dict_keys d1 = dict_keys d2 ->
  dict_get String.eqb model d1 = Some v ->
  exists w, dict_get String.eqb model d2 = Some w.
Proof.
  intros Hk Hg. apply dict_get_in_keys in Hg. rewrite Hk in Hg.
  apply sdict_get_keys in Hg.
  destruct (dict_get String.eqb model d2) as [w|]; [now exists w | congruence].
Qed.

Lemma deque_append_length {A : Type} maxlen (dq : list A) x :
  (List.length (deque_append maxlen dq x) <= maxlen)%nat.
Proof.
  unfold deque_append. rewrite length_skipn. lia.
Qed.

Lemma skipn_sorted {A : Type} (R : A -> A -> Prop) (l : list A) n :
  StronglySorted R l -> StronglySorted R (skipn n l).
Proof.
  revert l. induction n as [|n IH]; intros l H; simpl; [exact H|].
  destruct l as [|a t]; [constructor|].
  inversion H; subst. now apply IH.
Qed.

Lemma skipn_Forall {A : Type} (P : A -> Prop) (l : list A) n :
  Forall P l -> Forall P (skipn n l).
Proof.
  intros H. apply Forall_forall. intros x Hx.
  rewrite Forall_forall in H. apply H.
  rewrite <- (firstn_skipn n l). apply in_or_app. now right.
Qed.

Lemma snoc_sorted (l : list Z) (x : Z) :
  StronglySorted Z.lt l -> Forall (fun y => (y < x)%Z) l ->
  StronglySorted Z.lt (l ++ [x]).
Proof.
  induction 1 as [|a t Ht IH Ha]; intros Hx; simpl.
  - constructor; constructor.
  - inversion Hx; subst. constructor; [now apply IH|].
    apply Forall_app. split; [exact Ha|]. constructor; [assumption | constructor].
Qed.

Lemma round_half_even_zero q : q == 0 -> round_half_even q = 0%Z.
Proof.
  intros H. unfold round_half_even. rewrite (Qfloor_comp q 0 H).
  change (Qfloor 0) with 0%Z.
  destruct (Qcompare_spec (q - inject_Z 0) (1 # 2)) as [E | E | E];
    try reflexivity; exfalso; change (inject_Z 0) with 0 in E; lra.
Qed.

Lemma round_nonneg x nd : 0 <= x -> 0 <= Py.round x nd.
Proof.
  intros H. eapply Qle_trans; [|apply round_mono, H].
  unfold Py.round. rewrite round_half_even_zero by ring.
  unfold Qdiv. rewrite Qmult_0_l. apply Qle_refl.
Qed.

Lemma fps_nonneg latency_ms :
  0 <= (if Qlt_bool 0 latency_ms then 1000 / latency_ms else 0).
Proof.
  destruct (Qlt_bool 0 latency_ms) eqn:E; [|apply Qle_refl].
  apply Qlt_bool_true in E.
  apply Qle_shift_div_l; [exact E | lra].
Qed.

(** On a store that tracks its two models, a write ends in one of three
    ways. *)
Lemma record_inference_tracked model image_id detections ground_truths
    latency_ms iteration total_iterations s :
  tracked_models s ->
  (dict_get String.eqb model (latency_history s) = None
   /\ record_inference model image_id detections ground_truths latency_ms
                       iteration total_iterations s
      = (if (iteration =? 1)%Z
         then set_inference_count s (inference_count s + 1)%Z else s,
         inl (KeyError model)))
  \/ (iteration <> 1%Z
      /\ exists dq,
           dict_get String.eqb model (latency_history s) = Some dq
           /\ record_inference model image_id detections ground_truths
                               latency_ms iteration total_iterations s
              = (set_latency_history s
                   (dict_set String.eqb model
                      (deque_append (max_history s) dq latency_ms)
                      (latency_history s)),
                 inr tt))
  \/ (iteration = 1%Z
      /\ exists dq fq pm gm,
           dict_get String.eqb model (latency_history s) = Some dq
           /\ dict_get String.eqb model (fps_history s) = Some fq
           /\ dict_get String.eqb model (all_predictions s) = Some pm
           /\ dict_get String.eqb model (all_ground_truths s) = Some gm
           /\ record_inference model image_id detections ground_truths
                               latency_ms iteration total_iterations s
              = (mkInferenceStore (max_history s)
                   (dict_set String.eqb model
                      (deque_append (max_history s) dq latency_ms)
                      (latency_history s))
                   (dict_set String.eqb model
                      (deque_append (max_history s) fq
                         {| fps_time := (inference_count s + 1)%Z;
                            fps_value :=
                              Py.round (if Qlt_bool 0 latency_ms
                                        then 1000 / latency_ms else 0) 1;
                            fps_latency_ms := Py.round latency_ms 2 |})
                      (fps_history s))
                   (dict_set String.eqb model
                      (dict_set String.eqb image_id
                         (map format_prediction detections) pm)
                      (all_predictions s))
                   (dict_set String.eqb model
                      (dict_set String.eqb image_id
                         (map format_ground_truth ground_truths) gm)
                      (all_ground_truths s))
                   (subscribers s)
                   (inference_count s + 1)%Z
                   (dict_pop String.eqb model (eval_cache s)),
                 inr tt)).
Proof.
  intros [K1 [K2 [K3 K4]]].
  pose proof (record_inference_cases model image_id detections ground_truths
                latency_ms iteration total_iterations s) as Hc.
  simpl in Hc.
  destruct (dict_get String.eqb model (latency_history s)) as [dq|] eqn:El.
  - right. destruct (iteration =? 1)%Z eqn:Ei.
    + right. apply Z.eqb_eq in Ei. split; [exact Ei|].
      destruct (tracked_lookup (latency_history s) (fps_history s)
                  model dq ltac:(congruence) El) as [fq Ef].
      destruct (tracked_lookup (latency_history s) (all_predictions s)
                  model dq ltac:(congruence) El) as [pm Ep].
      destruct (tracked_lookup (latency_history s) (all_ground_truths s)
                  model dq ltac:(congruence) El) as [gm Eg].
      rewrite Ef, Ep, Eg in Hc.
      exists dq, fq, pm, gm. split; [reflexivity|].
      split; [exact Ef|]. split; [exact Ep|]. split; [exact Eg|]. exact Hc.
    + left. apply Z.eqb_neq in Ei. split; [exact Ei|].
      exists dq. split; [reflexivity | exact Hc].
  - left. split; [reflexivity | exact Hc].
Qed.

Lemma tracked_new_store mh : tracked_models (new_store mh).
Proof. repeat split. Qed.

Lemma record_inference_keeps_tracked model image_id detections ground_truths
    latency_ms iteration total_iterations s :
  tracked_models s ->
  tracked_models
    (fst (record_inference model image_id detections ground_truths
                           latency_ms iteration total_iterations s)).
Proof.
  intros Ht. pose proof Ht as [K1 [K2 [K3 K4]]].
  destruct (record_inference_tracked model image_id detections ground_truths
              latency_ms iteration total_iterations s Ht)
    as [[_ ->] | [[_ [dq [El ->]]] | [_ [dq [fq [pm [gm
          [El [Ef [Ep [Eg ->]]]]]]]]]]]; simpl.
  - destruct (iteration =? 1)%Z; exact Ht.
  - unfold tracked_models. simpl.
    rewrite dict_set_same_keys by (eapply dict_get_in_keys, El). auto.
  - unfold tracked_models. simpl.
    rewrite !dict_set_same_keys
      by (eapply dict_get_in_keys; eassumption). auto.
Qed.

Lemma weaken_fps_entries (l : list FpsEntry) (c1 c2 : Z) :
  (c1 <= c2)%Z ->
  Forall (fun e => (fps_time e <= c1)%Z /\ 0 <= fps_value e) l ->
  Forall (fun e => (fps_time e <= c2)%Z /\ 0 <= fps_value e) l.
Proof.
  intros Hc. apply Forall_impl. intros e [H1 H2]. split; [lia | exact H2].
Qed.

Lemma record_inference_keeps_history model image_id detections ground_truths
    latency_ms iteration total_iterations s :
  tracked_models s -> history_inv s ->
  history_inv
    (fst (record_inference model image_id detections ground_truths
                           latency_ms iteration total_iterations s)).
Proof.
  intros Ht [HL HF].
  destruct (record_inference_tracked model image_id detections ground_truths
              latency_ms iteration total_iterations s Ht)
    as [[_ ->] | [[_ [dq [El ->]]] | [_ [dq [fq [pm [gm
          [El [Ef [Ep [Eg ->]]]]]]]]]]]; simpl.
  - destruct (iteration =? 1)%Z; [|split; assumption].
    split; simpl; [exact HL|].
    intros m l Hm. destruct (HF m l Hm) as [H1 [H2 H3]].
    split; [exact H1|]. split; [exact H2|].
    eapply weaken_fps_entries; [|exact H3]. lia.
  - split; simpl; [|exact HF].
    intros m l. destruct (string_dec model m) as [<- | Hne].
    + rewrite sdict_get_set_same. intros [= <-]. apply deque_append_length.
    + rewrite sdict_get_set_other by exact Hne. apply HL.
  - split; simpl.
    + intros m l. destruct (string_dec model m) as [<- | Hne].
      * rewrite sdict_get_set_same. intros [= <-]. apply deque_append_length.
      * rewrite sdict_get_set_other by exact Hne. apply HL.
    + intros m l. destruct (string_dec model m) as [<- | Hne].
      * rewrite sdict_get_set_same. intros [= <-].
        destruct (HF model fq Ef) as [H1 [H2 H3]].
        split; [apply deque_append_length|].
        unfold deque_append. split.
        -- rewrite <- skipn_map. apply skipn_sorted.
           rewrite map_app. simpl. apply snoc_sorted; [exact H2|].
           apply Forall_forall. intros y Hy.
           apply in_map_iff in Hy. destruct Hy as [e [<- He]].
           rewrite Forall_forall in H3. destruct (H3 e He). lia.
        -- apply skipn_Forall. apply Forall_app. split.
           ++ eapply weaken_fps_entries; [|exact H3]. lia.
           ++ constructor; [|constructor]. simpl. split; [lia|].
              apply round_nonneg, fps_nonneg.
      * rewrite sdict_get_set_other by exact Hne. intros Hm.
        destruct (HF m l Hm) as [H1 [H2 H3]].
        split; [exact H1|]. split; [exact H2|].
        eapply weaken_fps_entries; [|exact H3]. lia.
Qed.

Lemma dict_set_not_nil {V : Type} k (v : V) (d : sdict V) :
  dict_set String.eqb k v d <> [].
Proof.
  destruct d as [|[k0 v0] t]; simpl; [discriminate|].
  destruct (String.eqb k0 k); discriminate.
Qed.

Lemma record_inference_keeps_cache_data model image_id detections
    ground_truths latency_ms iteration total_iterations s :
  tracked_models s -> NoDup (dict_keys (eval_cache s)) ->
  cache_has_data s ->
  cache_has_data
    (fst (record_inference model image_id detections ground_truths
                           latency_ms iteration total_iterations s)).
Proof.
  intros Ht Hnd Hc.
  destruct (record_inference_tracked model image_id detections ground_truths
              latency_ms iteration total_iterations s Ht)
    as [[_ ->] | [[_ [dq [El ->]]] | [_ [dq [fq [pm [gm
          [El [Ef [Ep [Eg ->]]]]]]]]]]]; simpl.
  - destruct (iteration =? 1)%Z; exact Hc.
  - exact Hc.
  - intros m r. simpl. destruct (string_dec model m) as [<- | Hne].
    + rewrite sdict_get_pop_same by exact Hnd. discriminate.
    + rewrite sdict_get_pop_other by exact Hne. intros Hm.
      specialize (Hc m r Hm). unfold preds_of, dict_get_default in *.
      simpl. now rewrite sdict_get_set_other by exact Hne.
Qed.

Lemma record_inference_full_inv model image_id detections ground_truths
    latency_ms iteration total_iterations s :
  full_inv set_iter s ->
  full_inv set_iter
    (fst (record_inference model image_id detections ground_truths
                           latency_ms iteration total_iterations s)).
Proof.
  intros [Hs [Ht [Hh Hc]]]. split; [|split; [|split]].
  - now apply record_inference_inv.
  - now apply record_inference_keeps_tracked.
  - now apply record_inference_keeps_history.
  - apply record_inference_keeps_cache_data; try assumption. apply Hs.
Qed.

Lemma get_evaluation_full_inv model s :
  full_inv set_iter s ->
  full_inv set_iter (fst (get_evaluation set_iter model s)).
Proof.
  intros [Hs [Ht [Hh Hc]]].
  pose proof (get_evaluation_inv set_iter model s Hs) as Hs'.
  pose proof (get_evaluation_cases set_iter model s) as Hg.
  destruct (dict_get String.eqb model (eval_cache s)) as [cached|] eqn:Ec.
  - rewrite Hg in *. simpl. unfold full_inv. auto.
  - destruct (preds_of s model) eqn:Ep; rewrite Hg in *.
    + simpl. unfold full_inv. auto.
    + simpl in *. split; [exact Hs'|]. split; [exact Ht|].
      split; [exact Hh|].
      intros m r. simpl. destruct (string_dec model m) as [<- | Hne].
      * intros _. unfold preds_of in *. simpl. rewrite Ep. discriminate.
      * rewrite sdict_get_set_other by exact Hne. apply Hc.
Qed.

Lemma new_store_full_inv mh : full_inv set_iter (new_store mh).
Proof.
  split; [apply new_store_inv|]. split; [apply tracked_new_store|].
  split.
  - split.
    + intros m l. cbn [new_store latency_history dict_get].
      destruct (String.eqb "yolov5" m); [intros [= <-]; simpl; lia|].
      destruct (String.eqb "detr" m); [intros [= <-]; simpl; lia|].
      discriminate.
    + intros m l. cbn [new_store fps_history dict_get].
      destruct (String.eqb "yolov5" m);
        [intros [= <-]; simpl; repeat split; try constructor; lia|].
      destruct (String.eqb "detr" m);
        [intros [= <-]; simpl; repeat split; try constructor; lia|].
      discriminate.
  - intros m r. simpl. discriminate.
Qed.

Lemma run_calls_full_inv calls :
  forall s, full_inv set_iter s ->
            full_inv set_iter (run_calls set_iter calls s).
Proof.
  induction calls as [|c cs IH]; intros s H; simpl; [exact H|].
  apply IH. destruct c; simpl.
  - now apply record_inference_full_inv.
  - now apply get_evaluation_full_inv.
Qed.

End StoreMore.

Section StoreExtras.

Variable set_iter : list string -> list string.
Variable max_history0 : nat.
Variable calls : list Call.

Let s := run_calls set_iter calls (new_store max_history0).

Lemma reachable_full_inv : full_inv set_iter s.
Proof. apply run_calls_full_inv, new_store_full_inv. Qed.

Lemma untracked_lookup {V : Type} (d : sdict V) model :
  dict_keys d = ["yolov5"; "detr"]%string ->
  model <> "yolov5"%string -> model <> "detr"%string ->
  dict_get String.eqb model d = None.
Proof.
  intros Hk H1 H2.
  destruct (dict_get String.eqb model d) as [v|] eqn:E; [|reflexivity].
  apply dict_get_in_keys in E. rewrite Hk in E.
  destruct E as [E | [E | []]]; congruence.
Qed.

Lemma tracked_lookup_known {V : Type} (d : sdict V) model :
  dict_keys d = ["yolov5"; "detr"]%string ->
  model = "yolov5"%string \/ model = "detr"%string ->
  exists v, dict_get String.eqb model d = Some v.
Proof.
  intros Hk Hm.
  assert (Hin : In model (dict_keys d)).
  { rewrite Hk. destruct Hm as [-> | ->]; simpl; auto. }
  apply sdict_get_keys in Hin.
  destruct (dict_get String.eqb model d) as [v|]; [now exists v | congruence].
Qed.

(** X16.  A write for a model the store does not track raises [KeyError] and
    records nothing; the counter is still incremented when the write is a
    first iteration. *)
Theorem record_inference_unknown_model model image_id detections
    ground_truths latency_ms iteration total_iterations :
  model <> "yolov5"%string -> model <> "detr"%string ->
  record_inference model image_id detections ground_truths latency_ms
                   iteration total_iterations s
  = (if (iteration =? 1)%Z
     then set_inference_count s (inference_count s + 1)%Z else s,
     inl (KeyError model)).
Proof.
  intros H1 H2. destruct reachable_full_inv as [_ [Ht _]].
  pose proof (record_inference_cases model image_id detections ground_truths
                latency_ms iteration total_iterations s) as Hc.
  simpl in Hc.
  rewrite (untracked_lookup (latency_history s) model) in Hc;
    [exact Hc | apply Ht | exact H1 | exact H2].
Qed.

(** X17.  A later iteration of a burst only adds its latency: the maps, the
    cache, the FPS history and the counter stay as they are, and so does
    what [get_evaluation] returns. *)
Theorem later_iteration_only_adds_latency model image_id detections
    ground_truths latency_ms iteration total_iterations :
  model = "yolov5"%string \/ model = "detr"%string ->
  iteration <> 1%Z ->
  exists dq,
    dict_get String.eqb model (latency_history s) = Some dq
    /\ record_inference model image_id detections ground_truths latency_ms
                        iteration total_iterations s
       = (set_latency_history s
            (dict_set String.eqb model
               (deque_append (max_history s) dq latency_ms)
               (latency_history s)),
          inr tt)
    /\ forall m,
         snd (get_evaluation set_iter m
                (fst (record_inference model image_id detections
                        ground_truths latency_ms iteration total_iterations
                        s)))
         = snd (get_evaluation set_iter m s).
Proof.
  intros Hm Hi. destruct reachable_full_inv as [_ [Ht _]].
  destruct (record_inference_tracked model image_id detections ground_truths
              latency_ms iteration total_iterations s Ht)
    as [[El _] | [[_ [dq [El Hr]]] | [Hi' _]]]; [| |contradiction].
  - destruct (tracked_lookup_known (latency_history s) model
                ltac:(apply Ht) Hm) as [v Hv]. congruence.
  - exists dq. split; [exact El|]. split; [exact Hr|].
    intros m. rewrite Hr. simpl.
    pose proof (get_evaluation_cases set_iter m s) as H1.
    pose proof (get_evaluation_cases set_iter m
                  (set_latency_history s
                     (dict_set String.eqb model
                        (deque_append (max_history s) dq latency_ms)
                        (latency_history s)))) as H2.
    simpl in H2. unfold preds_of in *. simpl in H2.
    destruct (dict_get String.eqb m (eval_cache s));
      [now rewrite H1, H2|].
    destruct (dict_get_default String.eqb m (all_predictions s) []);
      now rewrite H1, H2.
Qed.

(** X18.  A first-iteration write for a tracked model succeeds; afterwards the
    image holds the formatted detections and ground truths, the other
    images of the model and the other models are as before, and the
    counter is one higher. *)
Theorem record_then_lookup model image_id detections ground_truths
    latency_ms total_iterations :
  model = "yolov5"%string \/ model = "detr"%string ->
  let s' := fst (record_inference model image_id detections ground_truths
                                  latency_ms 1 total_iterations s) in
  snd (record_inference model image_id detections ground_truths
                        latency_ms 1 total_iterations s) = inr tt
  /\ dict_get String.eqb image_id (preds_of s' model)
     = Some (map format_prediction detections)
  /\ dict_get String.eqb image_id (gts_of s' model)
     = Some (map format_ground_truth ground_truths)
  /\ (forall other, other <> image_id ->
        dict_get String.eqb other (preds_of s' model)
        = dict_get String.eqb other (preds_of s model)
        /\ dict_get String.eqb other (gts_of s' model)
           = dict_get String.eqb other (gts_of s model))
  /\ (forall m, m <> model ->
        preds_of s' m = preds_of s m /\ gts_of s' m = gts_of s m)
  /\ inference_count s' = (inference_count s + 1)%Z.
Proof.
  intros Hm s'. destruct reachable_full_inv as [_ [Ht _]].
  destruct (record_inference_tracked model image_id detections ground_truths
              latency_ms 1 total_iterations s Ht)
    as [[El _] | [[Hi _] | [_ [dq [fq [pm [gm [El [Ef [Ep [Eg Hr]]]]]]]]]]];
    [| contradiction |].
  - destruct (tracked_lookup_known (latency_history s) model
                ltac:(apply Ht) Hm) as [v Hv]. congruence.
  - subst s'. rewrite Hr. simpl. unfold preds_of, gts_of, dict_get_default.
    simpl. rewrite !sdict_get_set_same, Ep, Eg.
    split; [reflexivity|].
    split; [reflexivity|].
    split; [reflexivity|].
    split; [|split; [|reflexivity]].
    + intros other Ho.
      split; apply sdict_get_set_other; congruence.
    + intros m Hne.
      rewrite !sdict_get_set_other by congruence. split; reflexivity.
Qed.

(** X19.  The histories never exceed the bound given at construction; the FPS
    entries of a model carry strictly increasing sequence numbers, none
    above the counter, and no negative FPS. *)
Theorem histories_bounded_and_ordered model latencies :
  dict_get String.eqb model (latency_history s) = Some latencies ->
  let history := snd (get_fps_history model s) in
  (List.length latencies <= max_history0)%nat
  /\ exists entries,
       history = inr entries
       /\ (List.length entries <= max_history0)%nat
       /\ StronglySorted Z.lt (map fps_time entries)
       /\ Forall (fun e => (fps_time e <= inference_count s)%Z
                           /\ 0 <= fps_value e) entries.
Proof.
  intros Hl history.
  assert (Hmh : forall cs s0, max_history (run_calls set_iter cs s0)
                              = max_history s0).
  { clear. induction cs as [|c cs IH]; intros s0; simpl; [reflexivity|].
    rewrite IH. destruct c as [model image_id dets gts lat it tot | model];
      simpl.
    - unfold record_inference, bind, subscript, modify, ret.
      destruct (it =? 1)%Z; simpl;
      destruct (dict_get String.eqb model (latency_history s0)); simpl;
        try reflexivity.
      destruct (dict_get String.eqb model (fps_history s0)); simpl;
        try reflexivity.
      destruct (dict_get String.eqb model (all_predictions s0)); simpl;
        try reflexivity.
      destruct (dict_get String.eqb model (all_ground_truths s0)); simpl;
        reflexivity.
    - pose proof (get_evaluation_cases set_iter model s0) as Hc.
      destruct (dict_get String.eqb model (eval_cache s0));
        [now rewrite Hc|].
      destruct (preds_of s0 model); now rewrite Hc. }
  assert (Hmax : max_history s = max_history0) by (unfold s; apply Hmh).
  destruct reachable_full_inv as [_ [Ht [[HL HF] _]]].
  split; [rewrite <- Hmax; apply (HL model latencies Hl)|].
  subst history. unfold get_fps_history, read, dict_get_default. simpl.
  destruct (tracked_lookup (latency_history s) (fps_history s) model latencies
              ltac:(destruct Ht as [K1 [K2 _]]; congruence) Hl) as [fq Hf].
  rewrite Hf. exists fq. split; [reflexivity|].
  destruct (HF model fq Hf) as [H1 [H2 H3]].
  rewrite <- Hmax. auto.
Qed.

(** X20.  The counter is the number of first-iteration writes, also of those
    that raised. *)
Theorem inference_count_counts_first_iterations :
  inference_count s = first_iteration_writes calls.
Proof.
  assert (H : forall cs s0, full_inv set_iter s0 ->
            inference_count (run_calls set_iter cs s0)
            = (inference_count s0 + first_iteration_writes cs)%Z).
  { clear. unfold first_iteration_writes.
    induction cs as [|c cs IH]; intros s0 Hinv; simpl; [lia|].
    rewrite IH.
    - destruct c as [model image_id dets gts lat it tot | model]; simpl.
      + destruct Hinv as [_ [Ht _]].
        destruct (record_inference_tracked model image_id dets gts lat it tot
                    s0 Ht)
          as [[_ ->] | [[Hi [dq [_ ->]]] | [-> [dq [fq [pm [gm
                [_ [_ [_ [_ ->]]]]]]]]]]]; simpl.
        * destruct (it =? 1)%Z; simpl; lia.
        * apply Z.eqb_neq in Hi. rewrite Hi. lia.
        * simpl. lia.
      + pose proof (get_evaluation_cases set_iter model s0) as Hc.
        destruct (dict_get String.eqb model (eval_cache s0));
          [rewrite Hc; simpl; lia|].
        destruct (preds_of s0 model); rewrite Hc; simpl; lia.
    - destruct c; simpl.
      + now apply record_inference_full_inv.
      + now apply get_evaluation_full_inv. }
  unfold s. rewrite H by apply new_store_full_inv. simpl. reflexivity.
Qed.

(** X21.  [get_evaluation] is absent exactly for a model without recorded
    images. *)
Theorem get_evaluation_absent_iff_no_data model :
  snd (get_evaluation set_iter model s) = inr None
  <-> preds_of s model = [].
Proof.
  destruct reachable_full_inv as [_ [_ [_ Hc]]].
  pose proof (get_evaluation_cases set_iter model s) as Hg.
  destruct (dict_get String.eqb model (eval_cache s)) as [cached|] eqn:Ec.
  - rewrite Hg. simpl. split; [discriminate|].
    intros He. exfalso. exact (Hc model cached Ec He).
  - destruct (preds_of s model) eqn:Ep; rewrite Hg; simpl.
    + split; reflexivity.
    + split; discriminate.
Qed.

End StoreExtras.

Lemma record_inference_unknown_model_witness :
  record_inference "frcnn"%string "img3"%string [Scenario.raw_cat] [] 20 1%Z 1%Z
    (run_calls Scenario.insertion_order Scenario.calls_write_read_write
               (new_store 200))
  = (set_inference_count
       (run_calls Scenario.insertion_order Scenario.calls_write_read_write
                  (new_store 200)) 3%Z,
     inl (KeyError "frcnn"%string)).
Proof.
  apply (record_inference_unknown_model Scenario.insertion_order 200%nat
           Scenario.calls_write_read_write "frcnn"%string "img3"%string
           [Scenario.raw_cat] [] 20 1%Z 1%Z); discriminate.
Defined.

Lemma later_iteration_only_adds_latency_witness :
  let s := run_calls Scenario.insertion_order
             Scenario.calls_write_read_write (new_store 200) in
  exists dq,
    dict_get String.eqb "yolov5"%string (latency_history s) = Some dq
    /\ record_inference "yolov5"%string "img1"%string [Scenario.raw_cat] []
                        20 2%Z 5%Z s
       = (set_latency_history s
            (dict_set String.eqb "yolov5"%string
               (deque_append (max_history s) dq 20)
               (latency_history s)),
          inr tt)
    /\ forall m,
         snd (get_evaluation Scenario.insertion_order m
                (fst (record_inference "yolov5"%string "img1"%string
                        [Scenario.raw_cat] [] 20 2%Z 5%Z s)))
         = snd (get_evaluation Scenario.insertion_order m s).
Proof.
  apply (later_iteration_only_adds_latency Scenario.insertion_order
           200%nat Scenario.calls_write_read_write "yolov5"%string
           "img1"%string [Scenario.raw_cat] [] 20 2%Z 5%Z).
  - left. reflexivity.
  - discriminate.
Defined.

Lemma record_then_lookup_witness :
  dict_get String.eqb "img3"%string
    (preds_of
       (fst (record_inference "detr"%string "img3"%string [Scenario.raw_cat]
               [Scenario.raw_cat_gt] 20 1%Z 1%Z
               (run_calls Scenario.insertion_order
                  Scenario.calls_write_read_write (new_store 200))))
       "detr"%string)
  = Some [Scenario.stored_cat].
Proof.
  destruct (record_then_lookup Scenario.insertion_order 200%nat
              Scenario.calls_write_read_write "detr"%string "img3"%string
              [Scenario.raw_cat] [Scenario.raw_cat_gt] 20 1%Z)
    as [_ [H _]].
  - right. reflexivity.
  - exact H.
Defined.

Lemma histories_bounded_and_ordered_witness :
  (List.length [12; 15] <= 200)%nat
  /\ exists entries,
       snd (get_fps_history "yolov5"%string
              (run_calls Scenario.insertion_order
                 Scenario.calls_write_read_write (new_store 200)))
       = inr entries
       /\ (List.length entries <= 200)%nat
       /\ StronglySorted Z.lt (map fps_time entries)
       /\ Forall (fun e =>
            (fps_time e
             <= inference_count
                  (run_calls Scenario.insertion_order
                     Scenario.calls_write_read_write (new_store 200)))%Z
            /\ 0 <= fps_value e) entries.
Proof.
  apply (histories_bounded_and_ordered Scenario.insertion_order 200%nat
           Scenario.calls_write_read_write "yolov5"%string [12; 15]).
  reflexivity.
Defined.

(* ================================================================== *)
(** * Coverage, curves and telemetry *)
(* ================================================================== *)

Section ClassCoverage.

Variable set_iter : list string -> list string.
Variable all_predictions : sdict (list Detection).
Variable all_ground_truths : sdict (list GroundTruth).

Lemma eval_class_snd thr acc cn :
  exists curve,
    snd (eval_class set_iter all_predictions all_ground_truths thr acc cn)
    = dict_set String.eqb cn curve (snd acc).
Proof.
  unfold eval_class. destruct acc as [pc cv]. simpl.
  destruct (snd (gather_class set_iter all_predictions all_ground_truths
                   thr cn) =? 0)%Z; eexists; reflexivity.
Qed.

Lemma dict_set_key_in {V : Type} k (v : V) (d : sdict V) :
  In k (dict_keys (dict_set String.eqb k v d)).
Proof.
  destruct (dict_set_has_key String.eqb k v d (String.eqb_refl k))
    as [k' [Hin Hk]].
  apply String.eqb_eq in Hk. now subst k'.
Qed.

Lemma dict_set_fresh_keys {V : Type} k (v : V) (d : sdict V) :
  ~ In k (dict_keys d) ->
  dict_keys (dict_set String.eqb k v d) = dict_keys d ++ [k].
Proof.
  unfold dict_keys. induction d as [|[k0 v0] t IH]; simpl; intros Hn.
  - reflexivity.
  - destruct (String.eqb k0 k) eqn:E.
    + apply String.eqb_eq in E. exfalso. apply Hn. now left.
    + simpl. rewrite IH; [reflexivity|]. intros H. apply Hn. now right.
Qed.

(** The keys of the two dictionaries after the loop over the class
    names. *)
Lemma eval_classes_keys thr (cns : list string) :
  forall acc,
    NoDup (dict_keys (fst acc)) -> NoDup (dict_keys (snd acc)) ->
    let res := fold_left
                 (eval_class set_iter all_predictions all_ground_truths thr)
                 cns acc in
    NoDup (dict_keys (fst res)) /\ NoDup (dict_keys (snd res))
    /\ (forall c, In c (dict_keys (fst res))
                  <-> In c (dict_keys (fst acc)) \/ In c cns)
    /\ (forall c, In c (dict_keys (snd res))
                  <-> In c (dict_keys (snd acc)) \/ In c cns).
Proof.
  induction cns as [|cn t IH]; intros acc H1 H2; cbn [fold_left].
  - split; [exact H1|]. split; [exact H2|].
    split; intros c; simpl; tauto.
  - destruct (eval_class_snd thr acc cn) as [curve Hs].
    pose proof (eval_class_fst set_iter all_predictions all_ground_truths
                  thr acc cn) as Hf.
    destruct (eval_class set_iter all_predictions all_ground_truths thr
                acc cn) as [pc' cv'].
    simpl in Hf, Hs. subst pc' cv'.
    destruct (IH (dict_set String.eqb cn
                    (ap_of_class set_iter all_predictions all_ground_truths
                                 thr cn) (fst acc),
                  dict_set String.eqb cn curve (snd acc))
                 ltac:(now apply sdict_set_NoDup)
                 ltac:(now apply sdict_set_NoDup)) as [N1 [N2 [K1 K2]]].
    split; [exact N1|]. split; [exact N2|].
    cbn [fst snd] in K1, K2. split.
    + intros c. rewrite K1. cbn [In]. split.
      * intros [H | H]; [|tauto].
        apply dict_set_keys in H. destruct H as [H | ->]; tauto.
      * intros [H | [<- | H]]; [| |tauto].
        -- left. now apply dict_set_keeps_keys.
        -- left. apply dict_set_key_in.
    + intros c. rewrite K2. cbn [In]. split.
      * intros [H | H]; [|tauto].
        apply dict_set_keys in H. destruct H as [H | ->]; tauto.
      * intros [H | [<- | H]]; [| |tauto].
        -- left. now apply dict_set_keeps_keys.
        -- left. apply dict_set_key_in.
Qed.

Lemma eval_classes_keys_nodup thr (cns : list string) :
  forall acc,
    NoDup (dict_keys (fst acc) ++ cns) ->
    dict_keys (fst (fold_left
                      (eval_class set_iter all_predictions all_ground_truths
                                  thr) cns acc))
    = dict_keys (fst acc) ++ cns.
Proof.
  induction cns as [|cn t IH]; intros acc H; simpl.
  - now rewrite app_nil_r.
  - assert (Hfresh : ~ In cn (dict_keys (fst acc))).
    { intros Hin. apply NoDup_remove_2 in H. apply H.
      apply in_or_app. now left. }
    rewrite IH; rewrite eval_class_fst, dict_set_fresh_keys by exact Hfresh.
    + now rewrite <- app_assoc.
    + rewrite <- app_assoc. exact H.
Qed.

Lemma single_threshold_result class_names :
  let res := evaluate_detections set_iter all_predictions all_ground_truths
                                 class_names (Some [1 # 2]) in
  let r := eval_threshold set_iter all_predictions all_ground_truths
                          class_names (1 # 2) in
  per_class_ap res = thr_per_class_ap r /\ pr_curves res = thr_pr_curves r
  /\ mAP_50 res = thr_mAP r /\ mAP_50_95 res = thr_mAP r.
Proof.
  unfold evaluate_detections.
  destruct (aggregate_counts set_iter all_predictions all_ground_truths
              class_names) as [[a b] c].
  simpl. auto.
Qed.

End ClassCoverage.

Section CoverageTheorems.

Variable set_iter : list string -> list string.

(** X14.  When 0.5 is among the thresholds, the result has one AP and one curve
    for each requested class name, and none for any other name. *)
Theorem result_covers_requested_classes
    (all_predictions : sdict (list Detection))
    (all_ground_truths : sdict (list GroundTruth))
    (class_names : list string) (iou_thresholds : list Q) (thr : Q) :
  In thr iou_thresholds -> Qeq_bool thr (1 # 2) = true ->
  let res := evaluate_detections set_iter all_predictions all_ground_truths
                                 class_names (Some iou_thresholds) in
  NoDup (dict_keys (per_class_ap res))
  /\ NoDup (dict_keys (pr_curves res))
  /\ (forall c, In c (dict_keys (per_class_ap res)) <-> In c class_names)
  /\ (forall c, In c (dict_keys (pr_curves res)) <-> In c class_names).
Proof.
  intros Hin Hhalf res. subst res. unfold evaluate_detections.
  destruct (aggregate_counts set_iter all_predictions all_ground_truths
              class_names) as [[a b] c0].
  simpl.
  destruct (rbt_lookup set_iter all_predictions all_ground_truths class_names
              iou_thresholds thr Hin) as [r [t [Hget [_ Hr]]]].
  rewrite <- (dict_get_Qeq _ _ _ Hhalf), Hget. subst r.
  unfold eval_threshold.
  pose proof (eval_classes_keys set_iter all_predictions all_ground_truths t
                class_names ([], []) ltac:(constructor) ltac:(constructor))
    as H.
  destruct (fold_left (eval_class set_iter all_predictions all_ground_truths t)
              class_names ([], [])) as [pc cv].
  simpl in *. destruct H as [N1 [N2 [K1 K2]]].
  split; [exact N1|]. split; [exact N2|]. split.
  - intros c. rewrite K1. tauto.
  - intros c. rewrite K2. tauto.
Qed.

End CoverageTheorems.

(* ---------------- per-class curves ---------------- *)

Lemma range_step_length_bound n :
  (List.length (range_step n (Nat.max 1 (n / 50))) <= 99)%nat.
Proof.
  unfold range_step. set (step := Nat.max 1 (n / 50)).
  assert (Hs : (1 <= step)%nat) by (unfold step; lia).
  pose proof (multiples_below step Hs n) as Hm.
  pose proof (Nat.div_mod_eq n 50) as Hd.
  pose proof (Nat.mod_upper_bound n 50 ltac:(lia)) as Hu.
  destruct (Nat.max_spec 1 (n / 50)) as [[H1 H2] | [H1 H2]];
    fold step in H2; nia.
Qed.

Lemma sorted_nth_mono (l : list Q) :
  sorted_asc (fun x => x) l ->
  forall i j, (i <= j < List.length l)%nat -> nth i l 0 <= nth j l 0.
Proof.
  unfold sorted_asc. induction 1 as [|a t Ht IH Ha]; intros i j Hij;
    simpl in Hij; [lia|].
  destruct i as [|i], j as [|j]; simpl; try lia.
  - apply Qle_refl.
  - rewrite Forall_forall in Ha. apply Ha, nth_In. lia.
  - apply IH. lia.
Qed.

Lemma last_nth (l : list Q) :
  last l 0 = nth (List.length l - 1) l 0.
Proof.
  induction l as [|a t IH]; [reflexivity|].
  destruct t as [|b u]; [reflexivity|].
  change (last (a :: b :: u) 0) with (last (b :: u) 0). rewrite IH.
  simpl. now rewrite Nat.sub_0_r.
Qed.

Lemma filter_seq_sorted (f : nat -> bool) n k :
  StronglySorted lt (filter f (seq k n)).
Proof.
  revert k. induction n as [|n IH]; intros k; simpl; [constructor|].
  destruct (f k); [|apply IH].
  constructor; [apply IH|].
  apply Forall_forall. intros x Hx. apply filter_In in Hx.
  destruct Hx as [Hx _]. apply in_seq in Hx. lia.
Qed.

(** The subsampled curve of a class has at most 100 points, all in the
    unit square, with recalls that do not decrease. *)
Lemma curve_points_well_formed class_preds precisions recalls :
  List.length precisions = List.length recalls ->
  Forall in_unit precisions -> Forall in_unit recalls ->
  sorted_asc (fun r => r) recalls ->
  let curve := curve_points_of class_preds precisions recalls in
  (List.length curve <= 100)%nat
  /\ Forall (fun pt => in_unit (cp_precision pt) /\ in_unit (cp_recall pt))
            curve
  /\ sorted_asc cp_recall curve.
Proof.
  intros Hlen Hp Hr Hs curve. subst curve. unfold curve_points_of.
  set (n := List.length precisions).
  set (step := Nat.max 1 (n / 50)).
  set (F := fun i => mkCurvePoint (nth i precisions 0) (nth i recalls 0)
                                  (fst (nth i class_preds (0, false)))).
  split; [|split].
  - rewrite length_app, length_map.
    pose proof (range_step_length_bound n). fold step in H.
    destruct (0 <? n)%nat; simpl; lia.
  - apply Forall_app. split.
    + apply Forall_forall. intros pt Hpt.
      apply in_map_iff in Hpt. destruct Hpt as [i [<- _]]. simpl.
      split; now apply nth_in_unit.
    + destruct (0 <? n)%nat; [|constructor].
      constructor; [|constructor]. simpl. rewrite !last_nth.
      split; now apply nth_in_unit.
  - destruct (0 <? n)%nat eqn:En.
    + apply Nat.ltb_lt in En.
      assert (Hidx : StronglySorted lt (range_step n step)
                     /\ Forall (fun i => (i < n)%nat) (range_step n step)).
      { unfold range_step. split; [apply filter_seq_sorted|].
        apply Forall_forall. intros i Hi. apply filter_In in Hi.
        destruct Hi as [Hi _]. apply in_seq in Hi. lia. }
      destruct Hidx as [Hsorted Hbound]. unfold sorted_asc.
      induction Hsorted as [|i t Ht IH Hi]; simpl.
      * constructor; constructor.
      * inversion Hbound as [|? ? Hin Htb]; subst.
        constructor; [now apply IH|].
        apply Forall_app. split.
        -- rewrite Forall_forall in Hi, Htb |- *. intros pt Hpt.
           apply in_map_iff in Hpt. destruct Hpt as [j [<- Hj]]. simpl.
           apply sorted_nth_mono; [exact Hs|].
           specialize (Hi j Hj). specialize (Htb j Hj). unfold n in *. lia.
        -- constructor; [|constructor]. simpl. rewrite last_nth.
           apply sorted_nth_mono; [exact Hs|]. unfold n in *. lia.
    + apply Nat.ltb_ge in En. assert (n = 0)%nat by lia.
      unfold range_step. rewrite H. simpl. constructor.
Qed.

Section Curves.

Variable set_iter : list string -> list string.
Variable all_predictions : sdict (list Detection).
Variable all_ground_truths : sdict (list GroundTruth).

Lemma eval_class_curve thr acc cn :
  snd (eval_class set_iter all_predictions all_ground_truths thr acc cn)
  = dict_set String.eqb cn
      (curve_of_class set_iter all_predictions all_ground_truths thr cn)
      (snd acc).
Proof.
  unfold eval_class, curve_of_class. destruct acc as [pc cv]. simpl.
  destruct (snd (gather_class set_iter all_predictions all_ground_truths
                   thr cn) =? 0)%Z; reflexivity.
Qed.

Lemma curve_of_class_well_formed thr cn :
  well_formed_curve
    (curve_of_class set_iter all_predictions all_ground_truths thr cn).
Proof.
  unfold curve_of_class.
  pose proof (gather_class_counts set_iter all_predictions all_ground_truths
                thr cn) as Hc.
  set (total := snd (gather_class set_iter all_predictions all_ground_truths
                                  thr cn)) in *.
  destruct (total =? 0)%Z eqn:E.
  { split; [simpl; lia|]. split; constructor. }
  apply Z.eqb_neq in E.
  assert (Hpos : (0 < total)%Z) by lia.
  assert (Hc' : (Z.of_nat (count_true
                   (map snd (pooled_ranking set_iter all_predictions
                               all_ground_truths thr cn))) <= total)%Z).
  { unfold pooled_ranking.
    rewrite (count_true_perm _ _
               (Permutation_map snd (sort_desc_perm fst _))). exact Hc. }
  destruct (recalls_in_unit _ _ Hc' Hpos) as [Hr Hs].
  apply curve_points_well_formed.
  - apply precisions_recalls_length.
  - apply precisions_in_unit.
  - exact Hr.
  - exact Hs.
Qed.

Lemma eval_classes_curves thr (cns : list string) :
  forall acc,
    Forall well_formed_curve (dict_values (snd acc)) ->
    Forall well_formed_curve
      (dict_values
         (snd (fold_left
                 (eval_class set_iter all_predictions all_ground_truths thr)
                 cns acc))).
Proof.
  induction cns as [|c t IH]; intros acc H; simpl; [exact H|].
  apply IH. rewrite eval_class_curve.
  apply Forall_forall. intros v Hv. unfold dict_values in Hv.
  apply in_map_iff in Hv. destruct Hv as [[k v'] [<- Hin]]. simpl.
  apply dict_set_In in Hin. destruct Hin as [Hin | ->].
  - rewrite Forall_forall in H. apply H. unfold dict_values.
    apply in_map_iff. now exists (k, v').
  - apply curve_of_class_well_formed.
Qed.

(** X15.  Every per-class curve of the result has at most 100 points, all with
    precision and recall in [0,1], in an order of non-decreasing recall. *)
Theorem pr_curves_well_formed class_names iou_thresholds cn curve :
  let res := evaluate_detections set_iter all_predictions all_ground_truths
                                 class_names iou_thresholds in
  In (cn, curve) (pr_curves res) -> well_formed_curve curve.
Proof.
  intros res. subst res. unfold evaluate_detections.
  destruct (aggregate_counts set_iter all_predictions all_ground_truths
              class_names) as [[a b] c0].
  simpl.
  set (thresholds := match iou_thresholds with
                     | Some l => l | None => [1 # 2] end).
  destruct (dict_get Qeq_bool (1 # 2)
              (results_by_threshold set_iter all_predictions all_ground_truths
                                    class_names thresholds))
    as [r|] eqn:E; [|intros []].
  apply dict_get_In in E. destruct E as [k [Hin _]].
  unfold results_by_threshold in Hin. apply rbt_entries in Hin.
  destruct Hin as [[] | [t [_ ->]]].
  unfold eval_threshold.
  pose proof (eval_classes_curves t class_names ([], []) ltac:(constructor))
    as H.
  destruct (fold_left (eval_class set_iter all_predictions all_ground_truths t)
              class_names ([], [])) as [pc cv].
  simpl in *. intros Hc. rewrite Forall_forall in H. apply H.
  unfold dict_values. apply in_map_iff. now exists (cn, curve).
Qed.

End Curves.

(* ---------------- get_per_class_ap ---------------- *)

Lemma VOC_CLASSES_NoDup : NoDup VOC_CLASSES.
Proof.
  assert (H : nodup string_dec VOC_CLASSES = VOC_CLASSES) by reflexivity.
  rewrite <- H. apply NoDup_nodup.
Qed.

Section PerClass.

Variable set_iter : list string -> list string.
Variable max_history0 : nat.
Variable calls : list Call.

Let s := run_calls set_iter calls (new_store max_history0).

Lemma pipeline_output_per_class (st : InferenceStore) model :
  map fst (per_class_ap (pipeline_output set_iter st model)) = VOC_CLASSES
  /\ Forall in_unit
       (map snd (per_class_ap (pipeline_output set_iter st model))).
Proof.
  unfold pipeline_output.
  destruct (single_threshold_result set_iter (preds_of st model)
              (gts_of st model) VOC_CLASSES) as [-> _].
  split.
  - unfold eval_threshold.
    pose proof (eval_classes_keys_nodup set_iter (preds_of st model)
                  (gts_of st model) (1 # 2) VOC_CLASSES ([], [])
                  VOC_CLASSES_NoDup) as H.
    destruct (fold_left (eval_class set_iter (preds_of st model)
                           (gts_of st model) (1 # 2))
                VOC_CLASSES ([], [])) as [pc cv].
    exact H.
  - apply (eval_threshold_in_unit set_iter (preds_of st model)
             (gts_of st model) VOC_CLASSES (1 # 2)).
Qed.

(** X23.  [get_per_class_ap] returns nothing for a model without recorded
    images, and otherwise the twenty VOC classes in their order, each
    with an AP in [0,1]. *)
Theorem get_per_class_ap_lists_voc_classes model :
  exists entries,
    snd (get_per_class_ap set_iter model s) = inr entries
    /\ (preds_of s model = [] -> entries = [])
    /\ (preds_of s model <> [] ->
        map ca_class entries = VOC_CLASSES
        /\ Forall (fun e => in_unit (ca_ap e)) entries).
Proof.
  destruct (reachable_full_inv set_iter max_history0 calls)
    as [[_ [_ Hv]] [_ [_ Hc]]].
  fold s in Hv, Hc.
  assert (Hgood : forall r, r = pipeline_output set_iter s model ->
            map ca_class
              (map (fun e => {| ca_class := fst e;
                                ca_ap := Py.round (snd e) 4 |})
                   (per_class_ap r)) = VOC_CLASSES
            /\ Forall (fun e => in_unit (ca_ap e))
                 (map (fun e => {| ca_class := fst e;
                                   ca_ap := Py.round (snd e) 4 |})
                      (per_class_ap r))).
  { intros r ->.
    destruct (pipeline_output_per_class s model) as [H1 H2].
    split.
    - rewrite map_map. simpl. exact H1.
    - apply Forall_forall. intros e He.
      apply in_map_iff in He. destruct He as [[k v] [<- Hin]]. simpl.
      apply round_in_unit. rewrite Forall_forall in H2. apply H2.
      apply in_map_iff. now exists (k, v). }
  unfold get_per_class_ap, bind.
  pose proof (get_evaluation_cases set_iter model s) as Hg.
  destruct (dict_get String.eqb model (eval_cache s)) as [cached|] eqn:Ec.
  - rewrite Hg. unfold ret. eexists. split; [reflexivity|]. split.
    + intros He. exfalso. exact (Hc model cached Ec He).
    + intros _. apply Hgood. now apply Hv.
  - destruct (preds_of s model) eqn:Ep; rewrite Hg; unfold ret.
    + eexists. split; [reflexivity|]. split; [reflexivity|].
      intros H. contradiction.
    + eexists. split; [reflexivity|]. split; [discriminate|].
      intros _. now apply Hgood.
Qed.

End PerClass.

(* ---------------- broadcast ---------------- *)

Section BroadcastMore.

Variable Event : Type.

(** What one broadcast leaves behind. *)
Lemma broadcast_event_result (h : Heap Event) (s : InferenceStore)
    (event : Event) :
  NoDup (subscribers s) ->
  subscribers (snd (broadcast_event h s event))
  = filter (fun q => negb (full (h q))) (subscribers s)
  /\ (forall q, In q (subscribers s) -> full (h q) = false ->
        fst (broadcast_event h s event) q
        = {| maxsize := maxsize (h q); items := items (h q) ++ [event] |}).
Proof.
  intros Hnd.
  destruct (broadcast_loop Event event (subscribers s) Hnd h [])
    as [H1 [H2 _]].
  unfold broadcast_event.
  destruct (fold_left (broadcast_step event) (subscribers s) (h, []))
    as [hf dead].
  simpl in *. split; [|exact H2].
  rewrite remove_dead by exact Hnd.
  apply filter_ext_in. intros q Hq. f_equal. rewrite H1.
  destruct (full (h q)) eqn:Ef.
  - apply existsb_exists. exists q. rewrite Nat.eqb_refl.
    split; [|reflexivity]. apply filter_In. auto.
  - destruct (existsb (Nat.eqb q) (filter (fun q0 => full (h q0))
                                          (subscribers s))) eqn:Ex;
      [|reflexivity].
    apply existsb_exists in Ex. destruct Ex as [x [Hx Hqx]].
    apply Nat.eqb_eq in Hqx. subst x. apply filter_In in Hx.
    destruct Hx as [_ Hx]. congruence.
Qed.

(** X24.  Two broadcasts reach a subscriber with room for both in their order:
    its queue ends with the first event and then the second, and it is
    still subscribed. *)
Theorem broadcasts_deliver_in_order (h : Heap Event) (s : InferenceStore)
    (e1 e2 : Event) (q : nat) :
  NoDup (subscribers s) -> In q (subscribers s) ->
  (maxsize (h q) <= 0
   \/ Z.of_nat (List.length (items (h q))) + 2 <= maxsize (h q))%Z ->
  let h1 := fst (broadcast_event h s e1) in
  let s1 := snd (broadcast_event h s e1) in
  let h2 := fst (broadcast_event h1 s1 e2) in
  let s2 := snd (broadcast_event h1 s1 e2) in
  In q (subscribers s2) /\ items (h2 q) = items (h q) ++ [e1; e2].
Proof.
  intros Hnd Hin Hroom h1 s1 h2 s2.
  assert (Hf : full (h q) = false).
  { unfold full. destruct (0 <? maxsize (h q))%Z eqn:E1; [|reflexivity].
    apply Z.ltb_lt in E1. simpl. apply Z.leb_gt. lia. }
  destruct (broadcast_event_result h s e1 Hnd) as [Hs1 Hh1].
  fold s1 in Hs1. fold h1 in Hh1.
  assert (Hin1 : In q (subscribers s1)).
  { rewrite Hs1. apply filter_In. rewrite Hf. auto. }
  assert (Hnd1 : NoDup (subscribers s1)).
  { rewrite Hs1. now apply NoDup_filter. }
  pose proof (Hh1 q Hin Hf) as Hq1.
  assert (Hf1 : full (h1 q) = false).
  { rewrite Hq1. unfold full. simpl.
    destruct (0 <? maxsize (h q))%Z eqn:E1; [|reflexivity].
    apply Z.ltb_lt in E1. simpl. apply Z.leb_gt.
    rewrite length_app. simpl. lia. }
  destruct (broadcast_event_result h1 s1 e2 Hnd1) as [Hs2 Hh2].
  fold s2 in Hs2. fold h2 in Hh2.
  split.
  - rewrite Hs2. apply filter_In. rewrite Hf1. auto.
  - rewrite (Hh2 q Hin1 Hf1). simpl. rewrite Hq1. simpl.
    now rewrite <- app_assoc.
Qed.

End BroadcastMore.

(** X7.  Without difficult ground truths there is exactly one flag for
    each prediction. *)
Theorem tp_flags_aligned_without_difficult predictions ground_truths
    iou_threshold :
  (forall gt, In gt ground_truths -> is_difficult gt = false) ->
  List.length (fst (match_predictions_to_gt predictions ground_truths
                                            iou_threshold))
  = List.length predictions.
Proof.
  intros H. unfold match_predictions_to_gt. simpl.
  apply (match_loop_flags_aligned ground_truths iou_threshold predictions H
           match_init).
Qed.

Lemma result_covers_requested_classes_witness :
  let res := evaluate_detections Scenario.insertion_order
               [("img"%string, Scenario.preds_same_box)]
               [("img"%string, Scenario.gts_plain_cat)]
               ["cat"; "dog"%string]%string (Some [1 # 2; 3 # 4]) in
  NoDup (dict_keys (per_class_ap res))
  /\ NoDup (dict_keys (pr_curves res))
  /\ (forall c, In c (dict_keys (per_class_ap res))
                <-> In c ["cat"; "dog"%string]%string)
  /\ (forall c, In c (dict_keys (pr_curves res))
                <-> In c ["cat"; "dog"%string]%string).
Proof.
  apply (result_covers_requested_classes Scenario.insertion_order
           [("img"%string, Scenario.preds_same_box)]
           [("img"%string, Scenario.gts_plain_cat)]
           ["cat"; "dog"%string]%string [1 # 2; 3 # 4] (1 # 2)).
  - left. reflexivity.
  - reflexivity.
Defined.

Lemma pr_curves_well_formed_witness :
  exists curve,
    In ("cat"%string, curve)
       (pr_curves (evaluate_detections Scenario.insertion_order
                     [("img"%string, Scenario.preds_same_box)]
                     [("img"%string, Scenario.gts_plain_cat)]
                     ["cat"%string] None))
    /\ well_formed_curve curve.
Proof.
  eexists. split.
  - left. reflexivity.
  - apply (pr_curves_well_formed Scenario.insertion_order
             [("img"%string, Scenario.preds_same_box)]
             [("img"%string, Scenario.gts_plain_cat)]
             ["cat"%string] None "cat"%string).
    left. reflexivity.
Defined.

Lemma get_pr_curve_sorted_bounded_witness :
  exists s' points,
    get_pr_curve Scenario.insertion_order "yolov5"%string Scenario.store_one_cat
    = (s', inr points)
    /\ sorted_asc pr_recall points /\ (List.length points <= 99)%nat.
Proof.
  eexists. eexists. split.
  - vm_compute. reflexivity.
  - eapply (get_pr_curve_sorted_bounded Scenario.insertion_order
             "yolov5"%string Scenario.store_one_cat).
    vm_compute. reflexivity.
Defined.

Lemma broadcasts_deliver_in_order_witness :
  let h1 := fst (broadcast_event Scenario.queues_of_100
                   Scenario.store_two_subscribers 1%nat) in
  let s1 := snd (broadcast_event Scenario.queues_of_100
                   Scenario.store_two_subscribers 1%nat) in
  let h2 := fst (broadcast_event h1 s1 2%nat) in
  let s2 := snd (broadcast_event h1 s1 2%nat) in
  In 0%nat (subscribers s2) /\ items (h2 0%nat) = [1%nat; 2%nat].
Proof.
  apply (broadcasts_deliver_in_order nat Scenario.queues_of_100
           Scenario.store_two_subscribers 1%nat 2%nat 0%nat).
  - constructor.
    + intros [H | []]. discriminate.
    + constructor; [intros [] | constructor].
  - left. reflexivity.
  - right. simpl. lia.
Defined.

Lemma tp_flags_aligned_without_difficult_witness :
  List.length (fst (match_predictions_to_gt Scenario.preds_near_far
                      Scenario.gts_plain_cat (1 # 2)))
  = 2%nat.
Proof.
  apply (tp_flags_aligned_without_difficult Scenario.preds_near_far
           Scenario.gts_plain_cat (1 # 2)).
  intros gt [<- | []]. reflexivity.
Defined.
